(** * MALDER: the orchestration of [main] in [src/MALDER/AlderMain.cpp]

    A shallow embedding of the driver of MALDER (multiple-reference ALDER).
    [main] reads its parameters and data, decides which form of the
    weighted-LD analysis to run (1-ref, 2-ref or 3+ references) and
    sequences the calls into the [Alder] and [ExpFitALD] classes.  Those
    classes are declared in headers that are not part of the source at hand;
    they are taken as parameters of the development.  [main] itself is
    modelled statement by statement as a computation that produces the
    ordered trace of its observable actions and an outcome. *)

From Stdlib Require Import ZArith String Ascii Bool Lia Floats.
From stdpp Require Import base tactics option list strings.

Local Open Scope string_scope.
Local Open Scope Z_scope.
Local Open Scope list_scope.

(** ** Doubles

    A C++ [double] is an IEEE-754 binary64 number, which is what Rocq's
    primitive [float] is.  [x < y] is [PrimFloat.ltb], [x == y] is
    [PrimFloat.eqb], and [INFINITY] is [PrimFloat.infinity]. *)

Module Double.

Abbreviation double := float.

Definition INFINITY : double := PrimFloat.infinity.

Definition lt (x y : double) : bool := PrimFloat.ltb x y.
Definition le (x y : double) : bool := PrimFloat.leb x y.
Definition eq (x y : double) : bool := PrimFloat.eqb x y.

Definition is_nan (x : double) : bool := PrimFloat.is_nan x.

(** [std::max(a, b)]: [return (a < b) ? b : a;] *)
Definition max (a b : double) : double := if lt a b then b else a.

(** [std::min(a, b)]: [return (b < a) ? b : a;] *)
Definition min (a b : double) : double := if lt b a then b else a.

(** [*std::max_element(v.begin(), v.end())]: the first largest element
    with respect to [<]; dereferencing the end iterator of an empty
    range is undefined, which is [None] here. *)
Definition max_element (v : list double) : option double :=
  match v with
  | [] => None
  | x :: v' => Some (fold_left (fun largest y => if lt largest y then y else largest) v' x)
  end.

End Double.

Import Double.

(** * The driver

    ** Inputs of the driver

    [AlderParams] holds the command-line parameters that [main] reads
    ([pars.mincount], [pars.weightname], ...); a [char *] that may be [NULL]
    is an [option string].  [Data] holds what the [ProcessInput] functions
    hand back to [main].  Counts that are C++ [int]s and only compared are
    in [Z]; sizes and loop indices are in [nat]. *)

Record AlderParams : Type := {
  mincount : Z;
  weightname : option string;
  raw_outname : option string;
  print_raw_jackknife : bool;
  print_jackknife_fits : bool;
  maxdis : double;
  binsize : double;
  mindis : double;
  approx_ld_corr : bool;
  use_naive_algo : bool
}.

Record Data : Type := {
  num_mixed_indivs : Z;
  mixed_pop_name : string;
  num_ref_indivs : list Z;
  ref_pop_names : list string;
  (** [ProcessInput::process_geno]: one row of allele frequencies per
      reference population with genotype data *)
  ref_freqs : list (list double);
  (** [ProcessInput::process_weights], read when [weightname] is given *)
  process_weights : list double
}.

(** ** The classes [Alder] and [ExpFitALD]

    Their member functions are declared in [Alder.hpp] and [ExpFitALD.hpp]
    and are parameters here.  An [Alder] value stands for the object that
    [main] constructs from the genotype data. *)

Record Alder : Type := {
  ExpFitALD : Type;
  AlderResults : Type;
  get_num_chroms_used : Z;
  (** [find_ld_corr_stops(binsize, approx_ld_corr, mindis)] *)
  find_ld_corr_stops : double -> bool -> double -> list double;
  (** [run(num_alder_refs, ref_inds, weights, maxdis, binsize, mincount,
      use_naive_algo, fit_start_dis, fits_all_starts, fit_test_ind)]: the
      jackknife results are returned, the fits and the index of the fit to
      test are written through the last two arguments *)
  run : Z -> list nat -> list double -> double -> double -> Z -> bool -> double ->
        list AlderResults * list ExpFitALD * nat;
  compute_mult_hyp_corr : list bool -> double;
  compute_one_ref_f2_jacks : nat -> list double;
  mix_frac_bound : ExpFitALD -> list double -> double * double;
  test_and_print_oneref_curve : ExpFitALD -> bool;
  zscore : ExpFitALD -> string -> double
}.

Definition endl : string := String (ascii_of_nat 10) EmptyString.

Section Driver.

Variable alder : Alder.

Local Abbreviation Fit := (ExpFitALD alder).
Local Abbreviation Results := (AlderResults alder).

(** ** Observable actions

    Every output statement and every call into [Alder] or [ExpFitALD]
    is one event, with the arguments it is given. *)
Inductive Event : Type :=
| PrintHeader
| Cout (s : string)
| CoutNumRefs (n : nat)
| CoutTime (what : string)
| PrintHline
| RawNotWritten (file : string)
| FindLdCorrStops (bin : double) (approx : bool) (mind : double)
| AlderRun (num_alder_refs : Z) (ref_inds : list nat) (weights : list double)
           (maxd bin : double) (minc : Z) (naive : bool) (fit_start_dis : double)
| OutputCurveData (r : Results)
| PlotAsciiCurve (r : Results) (fit_start_dis : double)
| WriteRawOutput (file : string) (jackknife : bool) (rs : list Results)
| PrintFit (f : Fit) (jackknife : bool)
| PrintFitHeader (f : Fit)
| PrintFitDiff (self other : Fit) (param : string) (digits : Z) (name1 name2 : string)
| RunAdmixtureTest (fit fit1 fit2 : Fit) (mixed ref1 ref2 : string)
                   (no_correction : bool) (mult_hyp_corr : double)
| PrintDataHeader
| ComputeOneRefF2Jacks (r : nat)
| PrintMixFracBound (mean std : double)
| TestAndPrintOnerefCurve (f : Fit)
| SummaryName (name : string) (has_curve : bool)
| SummaryLongRangeLD
| SummaryZ (z : double)
| ComputeMultHypCorr (flags : list bool).

(** ** Outcomes and the trace monad

    A run ends normally, or in [fatalx], or in undefined behaviour
    (an index out of range, [back()] of an empty vector, reading an
    uninitialised [int]).  The trace holds the events up to that point. *)
Inductive Outcome (A : Type) : Type :=
| Ok (a : A)
| Fatalx (msg : string)
| Undefined.
Global Arguments Ok {A} a.
Global Arguments Fatalx {A} msg.
Global Arguments Undefined {A}.

Definition M (A : Type) : Type := (list Event * Outcome A)%type.

Definition ret {A} (a : A) : M A := ([], Ok a).

Definition bind {A B} (m : M A) (f : A -> M B) : M B :=
  match m with
  | (t, Ok a) => let '(t', r) := f a in (t ++ t', r)
  | (t, Fatalx msg) => (t, Fatalx msg)
  | (t, Undefined) => (t, Undefined)
  end.

Definition tell (t : list Event) : M unit := (t, Ok tt).
Definition fatalx {A} (msg : string) : M A := ([], Fatalx msg).
Definition undefined {A} : M A := ([], Undefined).

Definition trace {A} (m : M A) : list Event := fst m.
Definition outcome {A} (m : M A) : Outcome A := snd m.

Global Instance M_ret : MRet M := @ret.
Global Instance M_bind : MBind M := fun A B f m => bind m f.

(** [v[i]] and [v.back()] *)
Definition idx {A} (v : list A) (i : nat) : M A :=
  match v !! i with Some x => ret x | None => undefined end.

Definition back {A} (v : list A) : M A :=
  match last v with Some x => ret x | None => undefined end.

Definition deref {A} (o : option A) : M A :=
  match o with Some x => ret x | None => undefined end.

(** [for (int i = lo; i < lo + n; i++) body] with the variables the body
    updates threaded through as [s]. *)
Fixpoint for_loop {S} (body : nat -> S -> M S) (lo n : nat) (s : S) : M S :=
  match n with
  | O => ret s
  | Datatypes.S n' => s' ← body lo s; for_loop body (Datatypes.S lo) n' s'
  end.

(** ** [subtract_freqs] (lines 91-97)

    The body of the loop, [weights[s] = ref_freqs[r1][s] - ref_freqs[r2][s]]:
    the rows are looked up in every round, so row [r2] is read only when
    the loop runs. *)
Definition subtract_freqs_body (freqs : list (list double)) (r1 r2 : nat)
    (s : nat) (weights : list double) : M (list double) :=
  a ← idx freqs r1;
  x ← idx a s;
  b ← idx freqs r2;
  y ← idx b s;
  ret (<[s := PrimFloat.sub x y]> weights).

(** [vector <double> weights(ref_freqs[r1].size());] and the loop over
    [s < ref_freqs[r1].size()]. *)
Definition subtract_freqs (freqs : list (list double)) (r1 r2 : nat) : M (list double) :=
  a ← idx freqs r1;
  for_loop (subtract_freqs_body freqs r1 r2) 0 (length a) (replicate (length a) 0%float).

Variable pars : AlderParams.
Variable data : Data.

(** [int num_ref_freqs = ref_freqs.size();] *)
Definition num_ref_freqs : nat := length (ref_freqs data).

(** The call of [alder.run] with the parameters [main] always passes,
    together with its event. *)
Definition alder_run (num_alder_refs : Z) (ref_inds : list nat) (weights : list double)
    (fit_start_dis : double) : M (list Results * list Fit * nat) :=
  tell [AlderRun num_alder_refs ref_inds weights (maxdis pars) (binsize pars)
                 (mincount pars) (use_naive_algo pars) fit_start_dis];;
  mret (run alder num_alder_refs ref_inds weights (maxdis pars) (binsize pars)
            (mincount pars) (use_naive_algo pars) fit_start_dis).

(** [for (f = 0; f < fits.size(); f++) fits[f].print_fit(pars.print_jackknife_fits);] *)
Definition print_fits (fits : list Fit) : M unit :=
  tell ((fun f => PrintFit f (print_jackknife_fits pars)) <$> fits).

(** *** Lines 123 and 141-175: the number of references and the weights

    Returns [weights], [num_alder_refs] and [ref_inds]. *)
Definition msg_mincount_indivs : string := "mincount must be <= num mixed indivs" +:+ endl.
Definition msg_no_ref_data : string := "no data from ref populations" +:+ endl.
Definition msg_mincount_oneref : string :=
  "mincount must be >= 4 to compute single-reference LD (polyache)" +:+ endl.
Definition msg_need_chroms : string :=
  "cannot test for admixture: need >= 2 chroms to jackknife" +:+ endl.

Definition check_mincount : M unit :=
  if mincount pars >? num_mixed_indivs data then fatalx msg_mincount_indivs else mret tt.

Definition determine_refs : M (list double * Z * list nat) :=
  match weightname pars with
  | Some _ => mret (process_weights data, 2, [])
  | None =>
      r ← match num_ref_freqs with
          | 0%nat => fatalx msg_no_ref_data
          | 1%nat =>
              if mincount pars <? 4 then fatalx msg_mincount_oneref
              else w ← idx (ref_freqs data) 0; mret (w, 1, [0%nat])
          | 2%nat =>
              w ← subtract_freqs (ref_freqs data) 0 1; mret (w, 2, [0%nat; 1%nat])
          | _ =>
              match raw_outname pars with
              | Some file =>
                  tell [Cout "WARNING: raw output is not written when testing with >= 3 ref pops";
                        RawNotWritten file]
              | None => mret tt
              end;;
              mret ([], -1, [])
          end;
      tell [CoutNumRefs num_ref_freqs];;
      mret r
  end.

Definition msg_need_chroms_2ref : string :=
  "finished: cannot test for admixture (need >= 2 chroms to jackknife)".
Definition msg_need_ref_genos : string :=
  "finished: cannot test for admixture (need reference genotypes)".

(** *** Lines 236-274: the test for admixture with two references *)

(** One round of the loop over [r] in lines 240-249; the state is the
    pair of arrays [fits_all_starts_refs] and [fit_test_ind_refs], whose
    [int]s start uninitialised. *)
Definition fit_oneref (fit_starts : list double) (r : nat)
    (st : list (list Fit) * list (option nat)) : M (list (list Fit) * list (option nat)) :=
  tell [PrintHline];;
  freqs ← idx (ref_freqs data) r;
  fit_start ← idx fit_starts r;
  '(_, fits, ind) ← alder_run 1 [r] freqs fit_start;
  print_fits fits;;
  tell [CoutTime "run fits"];;
  mret (<[r := fits]> (fst st), <[r := Some ind]> (snd st)).

(** The selected fit of reference [r]:
    [fits_all_starts_refs[r][fit_test_ind_refs[r]]]. *)
Definition selected_fit (st : list (list Fit) * list (option nat)) (r : nat) : M Fit :=
  fits ← idx (fst st) r;
  oind ← idx (snd st) r;
  ind ← deref oind;
  idx fits ind.

(** One round of the loop over [f] in lines 257-267. *)
Definition print_fit_diffs (fits_all_starts : list Fit)
    (st : list (list Fit) * list (option nat)) (r1 r2 : nat) (f : nat) (_ : unit) : M unit :=
  fit ← idx fits_all_starts f;
  tell [PrintFitHeader fit];;
  fits1 ← idx (fst st) r1;
  fit1 ← idx fits1 f;
  fit ← idx fits_all_starts f;
  name1 ← idx (ref_pop_names data) r1;
  tell [PrintFitDiff fit1 fit "decay" 2 ("1-ref " +:+ name1) "2-ref"];;
  fits2 ← idx (fst st) r2;
  fit2 ← idx fits2 f;
  fit ← idx fits_all_starts f;
  name2 ← idx (ref_pop_names data) r2;
  tell [PrintFitDiff fit2 fit "decay" 2 ("1-ref " +:+ name2) "2-ref"];;
  fits2 ← idx (fst st) r2;
  fit2 ← idx fits2 f;
  fits1 ← idx (fst st) r1;
  fit1 ← idx fits1 f;
  name2 ← idx (ref_pop_names data) r2;
  name1 ← idx (ref_pop_names data) r1;
  tell [PrintFitDiff fit2 fit1 "decay" 2 ("1-ref " +:+ name2) ("1-ref " +:+ name1)];;
  tell [Cout endl].

Definition two_ref_test (fit_starts : list double) (fits_all_starts : list Fit)
    (fit_test_ind : nat) : M unit :=
  tell [PrintHline; Cout "*** Running test for admixture ***"];;
  st ← for_loop (fit_oneref fit_starts) 0 2 (replicate 2 [], replicate 2 None);
  tell [PrintHline; Cout "*** Comparing curves to test for admixture ***"];;
  let r1 := 0%nat in
  let r2 := 1%nat in
  for_loop (print_fit_diffs fits_all_starts st r1 r2) 0 (length fits_all_starts) tt;;
  fit ← idx fits_all_starts fit_test_ind;
  fit1 ← selected_fit st r1;
  fit2 ← selected_fit st r2;
  name1 ← idx (ref_pop_names data) r1;
  name2 ← idx (ref_pop_names data) r2;
  tell [RunAdmixtureTest fit fit1 fit2 (mixed_pop_name data) name1 name2 true 1%float;
        PrintDataHeader].

(** *** Lines 202-284: one or two references *)
Definition one_or_two_refs (weights : list double) (num_alder_refs : Z)
    (ref_inds : list nat) (fit_starts : list double) : M unit :=
  fit_start_dis ← deref (max_element fit_starts);
  tell [PrintHline];;
  '(results_jackknife, fits_all_starts, fit_test_ind) ←
    alder_run num_alder_refs ref_inds weights fit_start_dis;
  curve ← back results_jackknife;
  tell [OutputCurveData curve; PlotAsciiCurve curve fit_start_dis];;
  match raw_outname pars with
  | Some file => tell [WriteRawOutput file (print_raw_jackknife pars) results_jackknife]
  | None => mret tt
  end;;
  print_fits fits_all_starts;;
  tell [CoutTime "run fits"];;
  if num_alder_refs =? 2 then
    if get_num_chroms_used alder <? 2 then tell [Cout msg_need_chroms_2ref]
    else if bool_decide (ref_inds = []) then tell [Cout msg_need_ref_genos]
    else two_ref_test fit_starts fits_all_starts fit_test_ind
  else
    tell [ComputeOneRefF2Jacks 0];;
    fit ← idx fits_all_starts fit_test_ind;
    let alpha_mean_std := mix_frac_bound alder fit (compute_one_ref_f2_jacks alder 0) in
    tell [PrintMixFracBound (100 * fst alpha_mean_std)%float
                            (100 * snd alpha_mean_std)%float].

(** *** Lines 288-369: three or more references *)

(** The variables of the pre-test loop: [has_oneref_curve],
    [fits_all_starts_refs] and [fit_test_ind_refs]. *)
Record Pretest : Type := {
  has_oneref_curve : list bool;
  fits_all_starts_refs : list (list Fit);
  fit_test_ind_refs : list (option nat)
}.

Definition pretest_init : Pretest :=
  {| has_oneref_curve := replicate num_ref_freqs true;
     fits_all_starts_refs := replicate num_ref_freqs [];
     fit_test_ind_refs := replicate num_ref_freqs None |}.

Definition pretest_fits (st : Pretest) : list (list Fit) * list (option nat) :=
  (fits_all_starts_refs st, fit_test_ind_refs st).

(** One round of the loop in lines 302-319. *)
Definition pretest_ref (fit_starts : list double) (r : nat) (st : Pretest) : M Pretest :=
  fit_start ← idx fit_starts r;
  if Double.eq fit_start INFINITY then
    mret {| has_oneref_curve := <[r := false]> (has_oneref_curve st);
            fits_all_starts_refs := fits_all_starts_refs st;
            fit_test_ind_refs := fit_test_ind_refs st |}
  else
    tell [PrintHline];;
    freqs ← idx (ref_freqs data) r;
    '(_, fits, ind) ← alder_run 1 [r] freqs fit_start;
    print_fits fits;;
    tell [CoutTime "run fits"];;
    name ← idx (ref_pop_names data) r;
    tell [Cout ("Pre-test: Does " +:+ mixed_pop_name data +:+
                " have a 1-ref weighted LD curve with " +:+ name +:+ "?")];;
    fit ← idx fits ind;
    tell [TestAndPrintOnerefCurve fit];;
    mret {| has_oneref_curve :=
              <[r := test_and_print_oneref_curve alder fit]> (has_oneref_curve st);
            fits_all_starts_refs := <[r := fits]> (fits_all_starts_refs st);
            fit_test_ind_refs := <[r := Some ind]> (fit_test_ind_refs st) |}.

(** One round of the summary loop in lines 325-332. *)
Definition summary_ref (fit_starts : list double) (st : Pretest) (r : nat) (_ : unit) : M unit :=
  name ← idx (ref_pop_names data) r;
  has ← idx (has_oneref_curve st) r;
  tell [SummaryName name has];;
  fit_start ← idx fit_starts r;
  if Double.eq fit_start INFINITY then tell [SummaryLongRangeLD]
  else
    fit ← selected_fit (pretest_fits st) r;
    tell [SummaryZ (Double.min (zscore alder fit "decay") (zscore alder fit "amp_exp"))].

(** The body of the inner loop in lines 347-366: the test of the pair
    [r1], [r2]. *)
Definition pair_test (fit_starts : list double) (st : Pretest) (mult_hyp_corr : double)
    (r1 r2 : nat) : M unit :=
  tell [PrintHline];;
  start1 ← idx fit_starts r1;
  start2 ← idx fit_starts r2;
  let fit_start_dis := Double.max start1 start2 in
  weights ← subtract_freqs (ref_freqs data) r1 r2;
  '(results_jackknife, fits_all_starts, fit_test_ind) ←
    alder_run 2 [r1; r2] weights fit_start_dis;
  curve ← back results_jackknife;
  tell [PlotAsciiCurve curve fit_start_dis];;
  print_fits fits_all_starts;;
  tell [CoutTime "run fits"];;
  fit ← idx fits_all_starts fit_test_ind;
  fit1 ← selected_fit (pretest_fits st) r1;
  fit2 ← selected_fit (pretest_fits st) r2;
  name1 ← idx (ref_pop_names data) r1;
  name2 ← idx (ref_pop_names data) r2;
  tell [RunAdmixtureTest fit fit1 fit2 (mixed_pop_name data) name1 name2 false mult_hyp_corr].

(** Lines 342-368: the two nested loops with their [continue]s. *)
Definition pairs_inner (fit_starts : list double) (st : Pretest) (mult_hyp_corr : double)
    (r1 r2 : nat) (_ : unit) : M unit :=
  has2 ← idx (has_oneref_curve st) r2;
  if negb has2 then mret tt
  else pair_test fit_starts st mult_hyp_corr r1 r2.

Definition pairs_outer (fit_starts : list double) (st : Pretest) (mult_hyp_corr : double)
    (r1 : nat) (_ : unit) : M unit :=
  has1 ← idx (has_oneref_curve st) r1;
  if negb has1 then mret tt
  else for_loop (pairs_inner fit_starts st mult_hyp_corr r1)
                (S r1) (num_ref_freqs - S r1) tt.

Definition pretests (fit_starts : list double) : M Pretest :=
  for_loop (pretest_ref fit_starts) 0 num_ref_freqs pretest_init.

Definition multiple_refs (fit_starts : list double) : M unit :=
  (if get_num_chroms_used alder <? 2 then fatalx msg_need_chroms else mret tt);;
  tell [PrintHline; Cout "*** Running 1-ref pre-tests ***"];;
  st ← pretests fit_starts;
  tell [PrintHline; Cout "*** Summary of 1-ref pre-test results ***";
        Cout ("Pre-test: Does " +:+ mixed_pop_name data +:+
              " have a 1-ref weighted LD curve with...")];;
  for_loop (summary_ref fit_starts st) 0 num_ref_freqs tt;;
  tell [Cout endl];;
  let flags := replicate num_ref_freqs true in
  tell [ComputeMultHypCorr flags];;
  let mult_hyp_corr := compute_mult_hyp_corr alder flags in
  tell [PrintHline; PrintDataHeader];;
  for_loop (pairs_outer fit_starts st mult_hyp_corr) 0 num_ref_freqs tt.

(** *** [main] *)
Definition form_of_alder (num_alder_refs : Z) : string :=
  if (num_ref_freqs <=? 2)%nat then
    if num_alder_refs =? 1 then "1-reference weighted LD" else "2-reference weighted LD"
  else "3+ references (multiple admixture tests)".

Definition main : M unit :=
  tell [PrintHeader; Cout "*** Processing data ***"];;
  check_mincount;;
  '(weights, num_alder_refs, ref_inds) ← determine_refs;
  (if (get_num_chroms_used alder <? 2) && print_raw_jackknife pars
   then tell [Cout "WARNING: jackknife = YES, but need data from >= 2 chroms to jackknife"]
   else mret tt);;
  tell [Cout ("Form of ALDER to run: " +:+ form_of_alder num_alder_refs);
        CoutTime "process data"; PrintHline;
        FindLdCorrStops (binsize pars) (approx_ld_corr pars) (mindis pars)];;
  let fit_starts := find_ld_corr_stops alder (binsize pars) (approx_ld_corr pars) (mindis pars) in
  if (num_ref_freqs <=? 2)%nat
  then one_or_two_refs weights num_alder_refs ref_inds fit_starts
  else multiple_refs fit_starts.

End Driver.

Arguments PrintHeader {alder}.
Arguments Cout {alder} s.
Arguments CoutNumRefs {alder} n.
Arguments CoutTime {alder} what.
Arguments PrintHline {alder}.
Arguments RawNotWritten {alder} file.
Arguments FindLdCorrStops {alder} bin approx mind.
Arguments AlderRun {alder} num_alder_refs ref_inds weights maxd bin minc naive fit_start_dis.
Arguments OutputCurveData {alder} r.
Arguments PlotAsciiCurve {alder} r fit_start_dis.
Arguments WriteRawOutput {alder} file jackknife rs.
Arguments PrintFit {alder} f jackknife.
Arguments PrintFitHeader {alder} f.
Arguments PrintFitDiff {alder} self other param digits name1 name2.
Arguments RunAdmixtureTest {alder} fit fit1 fit2 mixed ref1 ref2 no_correction mult_hyp_corr.
Arguments PrintDataHeader {alder}.
Arguments ComputeOneRefF2Jacks {alder} r.
Arguments PrintMixFracBound {alder} mean std.
Arguments TestAndPrintOnerefCurve {alder} f.
Arguments SummaryName {alder} name has_curve.
Arguments SummaryLongRangeLD {alder}.
Arguments SummaryZ {alder} z.
Arguments ComputeMultHypCorr {alder} flags.
Arguments ret {alder A} a.
Arguments bind {alder A B} m f.
Arguments tell {alder} t.
Arguments fatalx {alder A} msg.
Arguments undefined {alder A}.
Arguments trace {alder A} m.
Arguments outcome {alder A} m.
Arguments idx {alder A} v i.
Arguments back {alder A} v.
Arguments deref {alder A} o.
Arguments for_loop {alder S} body lo n s.
Arguments has_oneref_curve {alder} p.
Arguments fits_all_starts_refs {alder} p.
Arguments fit_test_ind_refs {alder} p.

(** * The vocabulary of the statements *)

(** A specification float that is not NaN. *)
Definition sf_not_nan (x : spec_float) : Prop :=
  match x with S754_nan => False | _ => True end.

(** The three configurations that [main] refuses. *)
Definition config_error (pars : AlderParams) (data : Data) : Prop :=
  mincount pars > num_mixed_indivs data \/
  (weightname pars = None /\ num_ref_freqs data = 1%nat /\ mincount pars < 4) \/
  (weightname pars = None /\ num_ref_freqs data = 0%nat).

(** The messages of the three calls of [fatalx] in the configuration part
    of [main]. *)
Definition is_config_msg (msg : string) : Prop :=
  msg = msg_mincount_indivs \/ msg = msg_mincount_oneref \/ msg = msg_no_ref_data.

(** The events in which [Alder] computes something: the extent of correlated
    LD, a weighted LD curve and its fits, and the statistics derived from
    them. *)
Definition is_computation {alder : Alder} (e : Event alder) : bool :=
  match e with
  | FindLdCorrStops _ _ _ | AlderRun _ _ _ _ _ _ _ _
  | ComputeOneRefF2Jacks _ | ComputeMultHypCorr _ => true
  | _ => false
  end.

(** The events of the configuration part of [main]. *)
Definition is_config_event {alder : Alder} (e : Event alder) : bool :=
  match e with
  | PrintHeader | Cout _ | CoutNumRefs _ | CoutTime _ | PrintHline
  | RawNotWritten _ | FindLdCorrStops _ _ _ => true
  | _ => false
  end.

(** The last two arguments of a call of [ExpFitALD::run_admixture_test]. *)
Definition test_correction {alder : Alder} (e : Event alder) : option (bool * double) :=
  match e with
  | RunAdmixtureTest _ _ _ _ _ _ no_correction mult_hyp_corr =>
      Some (no_correction, mult_hyp_corr)
  | _ => None
  end.

Definition is_admixture_test {alder : Alder} (e : Event alder) : bool :=
  match e with RunAdmixtureTest _ _ _ _ _ _ _ _ => true | _ => false end.

(** The number of references, the reference indices and the fit start of a
    call of [alder.run]. *)
Definition run_start {alder : Alder} (e : Event alder) : option (Z * list nat * double) :=
  match e with
  | AlderRun n inds _ _ _ _ _ fit_start_dis => Some (n, inds, fit_start_dis)
  | _ => None
  end.

Definition is_two_ref_run {alder : Alder} (e : Event alder) : bool :=
  match e with AlderRun n _ _ _ _ _ _ _ => n =? 2 | _ => false end.

(** The references in [lo, lo + k) that are marked as having a 1-ref curve,
    in increasing order. *)
Definition eligible_refs (has : list bool) (lo k : nat) : list nat :=
  filter (fun r => has !! r = Some true) (seq lo k).

(** The pairs [r1 < r2] of marked references, in the order of the two
    nested loops. *)
Definition eligible_pairs (has : list bool) (n : nat) : list (nat * nat) :=
  r1 ← eligible_refs has 0 n; pair r1 <$> eligible_refs has (S r1) (n - S r1).

(** Where a run can end in [fatalx]. *)
Definition fatal_only {alder : Alder} {A} (Q : string -> Prop) (m : M alder A) : Prop :=
  forall msg, outcome m = Fatalx msg -> Q msg.

Section ConfigVocabulary.

Context (alder : Alder) (pars : AlderParams) (data : Data).

Local Abbreviation Fit := (ExpFitALD alder).
Local Abbreviation n_refs := (num_ref_freqs data).

(** What [determine_refs] returns, by configuration. *)
Inductive refs_spec : M alder (list double * Z * list nat) -> Prop :=
| refs_weights :
    weightname pars <> None ->
    refs_spec ([], Ok (process_weights data, 2, []))
| refs_none :
    weightname pars = None -> num_ref_freqs data = 0%nat ->
    refs_spec ([], Fatalx msg_no_ref_data)
| refs_one_bad :
    weightname pars = None -> num_ref_freqs data = 1%nat -> mincount pars < 4 ->
    refs_spec ([], Fatalx msg_mincount_oneref)
| refs_one w :
    weightname pars = None -> num_ref_freqs data = 1%nat -> 4 <= mincount pars ->
    ref_freqs data !! 0%nat = Some w ->
    refs_spec ([CoutNumRefs 1], Ok (w, 1, [0%nat]))
| refs_two w :
    weightname pars = None -> num_ref_freqs data = 2%nat ->
    subtract_freqs alder (ref_freqs data) 0 1 = ([], Ok w) ->
    refs_spec ([CoutNumRefs 2], Ok (w, 2, [0%nat; 1%nat]))
| refs_two_undefined :
    weightname pars = None -> num_ref_freqs data = 2%nat ->
    refs_spec ([], Undefined)
| refs_many t :
    weightname pars = None -> (2 < num_ref_freqs data)%nat ->
    Forall (fun e => is_config_event e = true) t ->
    refs_spec (t, Ok ([], -1, [])).

(** The events of the configuration part of a run that gets through
    it, up to and including the call of [find_ld_corr_stops]. *)
Definition config_trace (t : list (Event alder)) (num_alder_refs : Z) : list (Event alder) :=
  [PrintHeader; Cout "*** Processing data ***"] ++ t ++
  (if (get_num_chroms_used alder <? 2) && print_raw_jackknife pars
   then [Cout "WARNING: jackknife = YES, but need data from >= 2 chroms to jackknife"]
   else []) ++
  [Cout ("Form of ALDER to run: " +:+ form_of_alder data num_alder_refs);
   CoutTime "process data"; PrintHline;
   FindLdCorrStops (binsize pars) (approx_ld_corr pars) (mindis pars)].

Definition fit_starts : list double :=
  find_ld_corr_stops alder (binsize pars) (approx_ld_corr pars) (mindis pars).

(** The branch of [main] that follows the configuration part. *)
Definition analysis (weights : list double) (num_alder_refs : Z) (ref_inds : list nat)
    : M alder unit :=
  if (num_ref_freqs data <=? 2)%nat
  then one_or_two_refs alder pars data weights num_alder_refs ref_inds fit_starts
  else multiple_refs alder pars data fit_starts.

End ConfigVocabulary.

Section CurveVocabulary.

Context (alder : Alder) (pars : AlderParams) (data : Data).

Local Abbreviation Fit := (ExpFitALD alder).
Local Abbreviation n_refs := (num_ref_freqs data).

(** The events of lines 208-222: the curve is computed, fitted and
    reported. *)
Definition curve_trace (n : Z) (inds : list nat) (w : list double) (fsd : double)
    (curve : AlderResults alder) : list (Event alder) :=
  let '(results_jackknife, fits_all_starts, _) :=
    run alder n inds w (maxdis pars) (binsize pars) (mincount pars)
        (use_naive_algo pars) fsd in
  [PrintHline;
   AlderRun n inds w (maxdis pars) (binsize pars) (mincount pars) (use_naive_algo pars) fsd;
   OutputCurveData curve; PlotAsciiCurve curve fsd] ++
  match raw_outname pars with
  | Some file => [WriteRawOutput file (print_raw_jackknife pars) results_jackknife]
  | None => []
  end ++
  ((fun f => PrintFit f (print_jackknife_fits pars)) <$> fits_all_starts) ++
  [CoutTime "run fits"].

(** Lines 226-283: what follows the curve. *)
Definition after_curve (n : Z) (inds : list nat) (fs : list double)
    (fits_all_starts : list Fit) (fit_test_ind : nat) : M alder unit :=
  if n =? 2 then
    if get_num_chroms_used alder <? 2 then tell [Cout msg_need_chroms_2ref]
    else if bool_decide (inds = []) then tell [Cout msg_need_ref_genos]
    else two_ref_test alder pars data fs fits_all_starts fit_test_ind
  else
    tell [ComputeOneRefF2Jacks 0];;
    fit ← idx fits_all_starts fit_test_ind;
    let alpha_mean_std := mix_frac_bound alder fit (compute_one_ref_f2_jacks alder 0) in
    tell [PrintMixFracBound (100 * fst alpha_mean_std)%float
                            (100 * snd alpha_mean_std)%float].

End CurveVocabulary.

Section FitVocabulary.

Context (alder : Alder) (pars : AlderParams) (data : Data).

Local Abbreviation Fit := (ExpFitALD alder).
Local Abbreviation n_refs := (num_ref_freqs data).

(** The fits that [run] writes to [fits_all_starts]. *)
Definition fits_of_run (n : Z) (inds : list nat) (w : list double) (fsd : double) : list Fit :=
  (run alder n inds w (maxdis pars) (binsize pars) (mincount pars)
       (use_naive_algo pars) fsd).1.2.

(** The index that [run] writes to [fit_test_ind]. *)
Definition test_ind_of_run (n : Z) (inds : list nat) (w : list double) (fsd : double) : nat :=
  (run alder n inds w (maxdis pars) (binsize pars) (mincount pars)
       (use_naive_algo pars) fsd).2.

(** What lines 258-266 print for one tried fit start. *)
Definition diff_block (fit fit1 fit2 : Fit) (name1 name2 : string) : list (Event alder) :=
  [PrintFitHeader fit;
   PrintFitDiff fit1 fit "decay" 2 ("1-ref " +:+ name1) "2-ref";
   PrintFitDiff fit2 fit "decay" 2 ("1-ref " +:+ name2) "2-ref";
   PrintFitDiff fit2 fit1 "decay" 2 ("1-ref " +:+ name2) ("1-ref " +:+ name1);
   Cout endl].

End FitVocabulary.

Section PretestVocabulary.

Context (alder : Alder) (pars : AlderParams) (data : Data).

Local Abbreviation Fit := (ExpFitALD alder).
Local Abbreviation n_refs := (num_ref_freqs data).

(** The three vectors of the pre-test loop have one entry per reference. *)
Definition pretest_wf (st : Pretest alder) : Prop :=
  length (has_oneref_curve st) = n_refs /\
  length (fits_all_starts_refs st) = n_refs /\
  length (fit_test_ind_refs st) = n_refs.

Definition same_entries (st st' : Pretest alder) (r : nat) : Prop :=
  has_oneref_curve st' !! r = has_oneref_curve st !! r /\
  fits_all_starts_refs st' !! r = fits_all_starts_refs st !! r /\
  fit_test_ind_refs st' !! r = fit_test_ind_refs st !! r.

(** What the pre-test of reference [r] leaves in the three vectors: with an
    infinite start distance the reference is marked as having no curve and
    nothing is fitted; otherwise the 1-ref curve is fitted from the start
    distance of [r] and the mark is the verdict of
    [test_and_print_oneref_curve] on the selected fit. *)
Definition pretested (fs : list double) (r : nat) (st : Pretest alder) : Prop :=
  exists start, fs !! r = Some start /\
    if Double.eq start INFINITY then has_oneref_curve st !! r = Some false
    else exists freqs fit,
      ref_freqs data !! r = Some freqs /\
      fits_of_run alder pars 1 [r] freqs start !! test_ind_of_run alder pars 1 [r] freqs start
        = Some fit /\
      has_oneref_curve st !! r = Some (test_and_print_oneref_curve alder fit) /\
      fits_all_starts_refs st !! r = Some (fits_of_run alder pars 1 [r] freqs start) /\
      fit_test_ind_refs st !! r = Some (Some (test_ind_of_run alder pars 1 [r] freqs start)).

End PretestVocabulary.

Section PairVocabulary.

Context (alder : Alder) (pars : AlderParams) (data : Data).

Local Abbreviation Fit := (ExpFitALD alder).
Local Abbreviation n_refs := (num_ref_freqs data).

(** The events of the test of one pair (lines 347-366). *)
Definition pair_trace (fs : list double) (st : Pretest alder) (mult_hyp_corr : double)
    (r1 r2 : nat) (t : list (Event alder)) : Prop :=
  exists start1 start2 w curve fit fit1 fit2 name1 name2,
    fs !! r1 = Some start1 /\ fs !! r2 = Some start2 /\
    subtract_freqs alder (ref_freqs data) r1 r2 = ([], Ok w) /\
    fits_of_run alder pars 2 [r1; r2] w (Double.max start1 start2)
      !! test_ind_of_run alder pars 2 [r1; r2] w (Double.max start1 start2) = Some fit /\
    selected_fit alder (pretest_fits alder st) r1 = ([], Ok fit1) /\
    selected_fit alder (pretest_fits alder st) r2 = ([], Ok fit2) /\
    ref_pop_names data !! r1 = Some name1 /\ ref_pop_names data !! r2 = Some name2 /\
    t = [PrintHline;
         AlderRun 2 [r1; r2] w (maxdis pars) (binsize pars) (mincount pars)
                  (use_naive_algo pars) (Double.max start1 start2);
         PlotAsciiCurve curve (Double.max start1 start2)] ++
        ((fun f => PrintFit f (print_jackknife_fits pars)) <$>
           fits_of_run alder pars 2 [r1; r2] w (Double.max start1 start2)) ++
        [CoutTime "run fits";
         RunAdmixtureTest fit fit1 fit2 (mixed_pop_name data) name1 name2 false mult_hyp_corr].

End PairVocabulary.

Section QuietVocabulary.

Context (alder : Alder) (pars : AlderParams) (data : Data).

Local Abbreviation Fit := (ExpFitALD alder).
Local Abbreviation n_refs := (num_ref_freqs data).

(** Events that are neither a test for admixture nor the fit of a 2-ref
    curve. *)
Definition quiet (e : Event alder) : Prop :=
  is_admixture_test e = false /\ is_two_ref_run e = false.

End QuietVocabulary.

Section PairTestVocabulary.

Context (alder : Alder) (pars : AlderParams) (data : Data).

Local Abbreviation Fit := (ExpFitALD alder).
Local Abbreviation n_refs := (num_ref_freqs data).

(** The call of [run_admixture_test] for the pair [r1], [r2]. *)
Definition pair_test_event (st : Pretest alder) (r1 r2 : nat) (e : Event alder) : Prop :=
  exists fit fit1 fit2 name1 name2 mult_hyp_corr,
    e = RunAdmixtureTest fit fit1 fit2 (mixed_pop_name data) name1 name2 false mult_hyp_corr /\
    ref_pop_names data !! r1 = Some name1 /\ ref_pop_names data !! r2 = Some name2 /\
    selected_fit alder (pretest_fits alder st) r1 = ([], Ok fit1) /\
    selected_fit alder (pretest_fits alder st) r2 = ([], Ok fit2).

End PairTestVocabulary.

(** The reading of C2 as it is stated: with fewer than two chromosomes the
    run ends normally, a curve has been computed, no test for admixture has
    been run and the message that the test cannot be run has been printed. *)
Definition degrades_gracefully (alder : Alder) (pars : AlderParams) (data : Data) : Prop :=
  outcome (main alder pars data) = Ok tt /\
  (exists e, e ∈ trace (main alder pars data) /\ run_start e <> None) /\
  Forall (fun e => is_admixture_test e = false) (trace (main alder pars data)) /\
  Cout msg_need_chroms_2ref ∈ trace (main alder pars data).

(** The reading of C10 as it is stated: the run computes a 2-ref curve, runs
    no test for admixture and ends with the message that reference
    genotypes are needed. *)
Definition weights_run_needs_ref_genos (alder : Alder) (pars : AlderParams) (data : Data)
    : Prop :=
  outcome (main alder pars data) = Ok tt /\
  (exists e inds fsd, e ∈ trace (main alder pars data) /\ run_start e = Some (2, inds, fsd)) /\
  Forall (fun e => is_admixture_test e = false) (trace (main alder pars data)) /\
  Cout msg_need_ref_genos ∈ trace (main alder pars data).

(** The reading of C1 as it is stated: the flags given to
    [compute_mult_hyp_corr], and so the factor given to every pairwise
    test, are the marks [has_oneref_curve] left by the pre-tests. *)
Definition correction_from_eligible_refs (alder : Alder) (pars : AlderParams) (data : Data)
    : Prop :=
  forall st,
    outcome (pretests alder pars data (fit_starts alder pars)) = Ok st ->
    Forall (fun e =>
              (forall flags, e = ComputeMultHypCorr flags -> flags = has_oneref_curve st) /\
              (forall c, test_correction e = Some c ->
                 c.2 = compute_mult_hyp_corr alder (has_oneref_curve st)))
           (trace (main alder pars data)).



(** ** A small instance to run the model on

    [toy chroms starts failing] is an [Alder] with [chroms] chromosomes in
    which [find_ld_corr_stops] returns [starts], every [run] returns one
    jackknife result and three fits (a fit is the pair of the reference
    indices and the number of the tried fit start) and selects the second,
    the pre-test fails for the references in [failing] (whose fits have
    z-score 1.5, the others 3), and [compute_mult_hyp_corr] is the number of
    pairs of flagged references. *)
Module Toy.

Definition pair_count (flags : list bool) : double :=
  let k := Z.of_nat (length (List.filter id flags)) in
  PrimFloat.of_uint63 (Uint63.of_Z (k * (k - 1) / 2)).

Definition toy (chroms : Z) (starts : list double) (failing : list nat) : Alder := {|
  ExpFitALD := list nat * nat;
  AlderResults := unit;
  get_num_chroms_used := chroms;
  find_ld_corr_stops := fun _ _ _ => starts;
  run := fun _ inds _ _ _ _ _ _ => ([tt], [(inds, 0%nat); (inds, 1%nat); (inds, 2%nat)], 1%nat);
  compute_mult_hyp_corr := pair_count;
  compute_one_ref_f2_jacks := fun _ => [];
  mix_frac_bound := fun _ _ => (0.5%float, 0.25%float);
  test_and_print_oneref_curve := fun f => negb (bool_decide (f.1 ⊆ failing));
  zscore := fun f _ => if bool_decide (f.1 ⊆ failing) then 1.5%float else 3%float
|}.

(** Four references: the second has an infinite start distance and the
    third fails its pre-test. *)
Definition alder4 : Alder := toy 22 [0.5%float; infinity; 1%float; 0.75%float] [2%nat].

Definition pars (weights : option string) : AlderParams := {|
  mincount := 4;
  weightname := weights;
  raw_outname := None;
  print_raw_jackknife := false;
  print_jackknife_fits := false;
  maxdis := 0.5%float;
  binsize := 0.125%float;
  mindis := 0%float;
  approx_ld_corr := true;
  use_naive_algo := false
|}.

Definition no_refs : Data := {|
  num_mixed_indivs := 10;
  mixed_pop_name := "Mix";
  num_ref_indivs := [];
  ref_pop_names := [];
  ref_freqs := [];
  process_weights := [0.5%float; 0.25%float]
|}.

Definition one_ref : Data := {|
  num_mixed_indivs := 10;
  mixed_pop_name := "Mix";
  num_ref_indivs := [5];
  ref_pop_names := ["A"];
  ref_freqs := [[0.5%float; 0.25%float]];
  process_weights := []
|}.

Definition two_refs : Data := {|
  num_mixed_indivs := 10;
  mixed_pop_name := "Mix";
  num_ref_indivs := [5; 6];
  ref_pop_names := ["A"; "B"];
  ref_freqs := [[0.5%float; 0.25%float]; [0.25%float; 0.75%float]];
  process_weights := []
|}.

Definition three_refs : Data := {|
  num_mixed_indivs := 10;
  mixed_pop_name := "Mix";
  num_ref_indivs := [5; 6; 7];
  ref_pop_names := ["A"; "B"; "C"];
  ref_freqs := [[0.5%float; 0.25%float]; [0.25%float; 0.75%float]; [0.125%float; 0.5%float]];
  process_weights := []
|}.

Definition four_refs : Data := {|
  num_mixed_indivs := 10;
  mixed_pop_name := "Mix";
  num_ref_indivs := [5; 6; 7; 8];
  ref_pop_names := ["A"; "B"; "C"; "D"];
  ref_freqs := [[0.5%float; 0.25%float]; [0.25%float; 0.75%float];
                [0.125%float; 0.5%float]; [0.75%float; 0.5%float]];
  process_weights := []
|}.

End Toy.

(** ** Further vocabulary: the arguments of calls and the kinds of output *)

(** The number of references, the reference indices, the weights and the
    fit start of a call of [alder.run]. *)
Definition run_call {alder : Alder} (e : Event alder)
    : option (Z * list nat * list double * double) :=
  match e with
  | AlderRun n inds w _ _ _ _ fit_start_dis => Some (n, inds, w, fit_start_dis)
  | _ => None
  end.

(** The parameters that every call of [alder.run] takes from [pars]. *)
Definition run_pars {alder : Alder} (e : Event alder) : option (double * double * Z * bool) :=
  match e with
  | AlderRun _ _ _ maxd bin minc naive _ => Some (maxd, bin, minc, naive)
  | _ => None
  end.

(** [output_curve_data] and [write_raw_output]. *)
Definition is_curve_output {alder : Alder} (e : Event alder) : bool :=
  match e with OutputCurveData _ | WriteRawOutput _ _ _ => true | _ => false end.

(** The note that is written to the raw output file instead of the data. *)
Definition is_raw_note {alder : Alder} (e : Event alder) : bool :=
  match e with RawNotWritten _ => true | _ => false end.

(** The lines of the summary of the pre-tests. *)
Definition is_summary {alder : Alder} (e : Event alder) : bool :=
  match e with SummaryName _ _ | SummaryLongRangeLD | SummaryZ _ => true | _ => false end.

(** The four ways in which [main] ends in [fatalx], in the order in which
    they are tried. *)
Definition fatal_exit (alder : Alder) (pars : AlderParams) (data : Data) (msg : string)
    : Prop :=
  (msg = msg_mincount_indivs /\ mincount pars > num_mixed_indivs data) \/
  (msg = msg_no_ref_data /\ mincount pars <= num_mixed_indivs data /\
   weightname pars = None /\ num_ref_freqs data = 0%nat) \/
  (msg = msg_mincount_oneref /\ mincount pars <= num_mixed_indivs data /\
   weightname pars = None /\ num_ref_freqs data = 1%nat /\ mincount pars < 4) \/
  (msg = msg_need_chroms /\ mincount pars <= num_mixed_indivs data /\
   (2 < num_ref_freqs data)%nat /\ get_num_chroms_used alder < 2).

(** The weights that go with the reference indices of a call of
    [alder.run]: the external weights when there are no indices, the
    frequencies of the reference when there is one, the difference of the
    frequencies when there are two. *)
Definition weights_of_refs (alder : Alder) (pars : AlderParams) (data : Data)
    (n : Z) (inds : list nat) (w : list double) : Prop :=
  match inds with
  | [] => n = 2 /\ weightname pars <> None /\ w = process_weights data
  | [r] => n = 1 /\ ref_freqs data !! r = Some w
  | [r1; r2] => n = 2 /\ subtract_freqs alder (ref_freqs data) r1 r2 = ([], Ok w)
  | _ => False
  end.

(** The calls that give a verdict: [run_admixture_test] and
    [test_and_print_oneref_curve]. *)
Definition is_verdict {alder : Alder} (e : Event alder) : bool :=
  match e with
  | RunAdmixtureTest _ _ _ _ _ _ _ _ | TestAndPrintOnerefCurve _ => true
  | _ => false
  end.

(** The number of references that are marked as having a 1-ref curve. *)
Definition num_eligible (has : list bool) : nat := length (List.filter id has).

(** What a run with two references needs from the data and from [Alder] to
    get through the test for admixture: two rows of frequencies, the second
    at least as long as the first; two start distances and two population
    names; a non-empty vector of jackknife results for the 2-ref curve; in
    each of the three calls of [run] a selected fit that exists; and for
    each reference at least as many fits as for the 2-ref curve. *)
Definition two_ref_requirements (alder : Alder) (pars : AlderParams) (data : Data) : Prop :=
  mincount pars <= num_mixed_indivs data /\
  exists a b start1 start2 name1 name2 fsd,
    ref_freqs data !! 0%nat = Some a /\ ref_freqs data !! 1%nat = Some b /\
    (length a <= length b)%nat /\
    fit_starts alder pars !! 0%nat = Some start1 /\
    fit_starts alder pars !! 1%nat = Some start2 /\
    ref_pop_names data !! 0%nat = Some name1 /\
    ref_pop_names data !! 1%nat = Some name2 /\
    max_element (fit_starts alder pars) = Some fsd /\
    (run alder 2 [0%nat; 1%nat] (zip_with PrimFloat.sub a b) (maxdis pars) (binsize pars)
         (mincount pars) (use_naive_algo pars) fsd).1.1 <> [] /\
    (test_ind_of_run alder pars 2 [0%nat; 1%nat] (zip_with PrimFloat.sub a b) fsd
     < length (fits_of_run alder pars 2 [0%nat; 1%nat] (zip_with PrimFloat.sub a b) fsd))%nat /\
    (test_ind_of_run alder pars 1 [0%nat] a start1
     < length (fits_of_run alder pars 1 [0%nat] a start1))%nat /\
    (test_ind_of_run alder pars 1 [1%nat] b start2
     < length (fits_of_run alder pars 1 [1%nat] b start2))%nat /\
    (length (fits_of_run alder pars 2 [0%nat; 1%nat] (zip_with PrimFloat.sub a b) fsd)
     <= length (fits_of_run alder pars 1 [0%nat] a start1))%nat /\
    (length (fits_of_run alder pars 2 [0%nat; 1%nat] (zip_with PrimFloat.sub a b) fsd)
     <= length (fits_of_run alder pars 1 [1%nat] b start2))%nat.

(** The two lines that the summary of the pre-tests prints for reference
    [r] (lines 325-332): its name with the verdict of its pre-test, and
    either the note on long-range LD or the smaller of the two z-scores of
    the fit that its own pre-test selected. *)
Definition summary_lines (alder : Alder) (pars : AlderParams) (data : Data) (r : nat)
    (block : list (Event alder)) : Prop :=
  exists name start,
    ref_pop_names data !! r = Some name /\ fit_starts alder pars !! r = Some start /\
    if Double.eq start INFINITY then block = [SummaryName name false; SummaryLongRangeLD]
    else exists freqs fit,
      ref_freqs data !! r = Some freqs /\
      fits_of_run alder pars 1 [r] freqs start !! test_ind_of_run alder pars 1 [r] freqs start
        = Some fit /\
      block = [SummaryName name (test_and_print_oneref_curve alder fit);
               SummaryZ (Double.min (zscore alder fit "decay") (zscore alder fit "amp_exp"))].

(** * Facts about doubles

    ** The order of doubles that are not NaN

    [SFcompare] orders the specification floats lexicographically by sign,
    exponent and mantissa; away from NaN it is a total preorder. *)

Section SpecFloatOrder.

Ltac sf_cmp :=
  change (Pos.compare_cont Eq) with Pos.compare in *;
  repeat match goal with
  | |- context [Z.compare ?a ?b] => destruct (Z.compare_spec a b)
  | H : context [Z.compare ?a ?b] |- _ => destruct (Z.compare_spec a b)
  | |- context [Pos.compare ?a ?b] => destruct (Pos.compare_spec a b)
  | H : context [Pos.compare ?a ?b] |- _ => destruct (Pos.compare_spec a b)
  end; simpl in *; try done; try lia.

Ltac sf_cases :=
  repeat match goal with b : bool |- _ => destruct b end; simpl; try done; sf_cmp.

Lemma SFltb_false_leb (x y : spec_float) :
  sf_not_nan x -> sf_not_nan y -> SFltb x y = false -> SFleb y x = true.
Proof.
  unfold SFltb, SFleb.
  destruct x as [sx|sx| |sx mx ex], y as [sy|sy| |sy my ey]; simpl; try tauto;
    intros _ _; sf_cases.
Qed.

Lemma SFleb_trans (x y z : spec_float) :
  SFleb x y = true -> SFleb y z = true -> SFleb x z = true.
Proof.
  unfold SFleb.
  destruct x as [sx|sx| |sx mx ex], y as [sy|sy| |sy my ey],
           z as [sz|sz| |sz mz ez]; simpl; try done; sf_cases.
Qed.

Lemma SFltb_leb (x y : spec_float) : SFltb x y = true -> SFleb x y = true.
Proof. unfold SFltb, SFleb. by destruct (SFcompare x y) as [[]|]. Qed.

Lemma SFleb_refl (x : spec_float) : sf_not_nan x -> SFleb x x = true.
Proof.
  unfold SFleb. destruct x as [sx|sx| |sx mx ex]; simpl; try done; sf_cases.
Qed.

End SpecFloatOrder.

Lemma not_nan_sf (x : double) : is_nan x = false -> sf_not_nan (Prim2SF x).
Proof.
  unfold is_nan, PrimFloat.is_nan. rewrite FloatAxioms.eqb_spec. unfold SFeqb.
  by destruct (Prim2SF x).
Qed.

Lemma lt_false_le (x y : double) :
  is_nan x = false -> is_nan y = false -> lt x y = false -> le y x = true.
Proof.
  unfold lt, le. rewrite FloatAxioms.ltb_spec, FloatAxioms.leb_spec. intros Hx Hy.
  apply SFltb_false_leb; by apply not_nan_sf.
Qed.

Lemma le_trans (x y z : double) : le x y = true -> le y z = true -> le x z = true.
Proof. unfold le. rewrite !FloatAxioms.leb_spec. apply SFleb_trans. Qed.

Lemma lt_le (x y : double) : lt x y = true -> le x y = true.
Proof. unfold lt, le. rewrite FloatAxioms.ltb_spec, FloatAxioms.leb_spec. apply SFltb_leb. Qed.

Lemma le_refl (x : double) : is_nan x = false -> le x x = true.
Proof. unfold le. rewrite FloatAxioms.leb_spec. intros Hx. by apply SFleb_refl, not_nan_sf. Qed.

(** [std::max] of two doubles that are not NaN is one of them and bounds
    both. *)
Lemma max_is_max (a b : double) :
  is_nan a = false -> is_nan b = false ->
  le a (max a b) = true /\ le b (max a b) = true /\ (max a b = a \/ max a b = b).
Proof.
  intros Ha Hb. unfold max. destruct (lt a b) eqn:E.
  - split_and!; [by apply lt_le | by apply le_refl | by right].
  - split_and!; [by apply le_refl | by apply lt_false_le | by left].
Qed.

Lemma fold_max_is_max (v : list double) (x : double) :
  is_nan x = false -> Forall (fun y => is_nan y = false) v ->
  let m := fold_left (fun largest y => if lt largest y then y else largest) v x in
  is_nan m = false /\ le x m = true /\ Forall (fun y => le y m = true) v /\ m ∈ x :: v.
Proof.
  revert x. induction v as [|y v IH]; intros x Hx Hv; simpl.
  - split_and!; [done | by apply le_refl | constructor | apply list_elem_of_here].
  - inversion_clear Hv as [|? ? Hy Hv'].
    destruct (lt x y) eqn:E.
    + destruct (IH y Hy Hv') as (Hm & Hle & Hall & Hin).
      split_and!; [done | | | ].
      * eapply le_trans; [by apply lt_le | done].
      * by constructor.
      * by apply list_elem_of_further.
    + destruct (IH x Hx Hv') as (Hm & Hle & Hall & Hin).
      split_and!; [done | done | | ].
      * constructor; [|done]. apply (le_trans y x); [by apply lt_false_le | done].
      * apply elem_of_cons in Hin as [->|Hin]; [apply list_elem_of_here|].
        by do 2 apply list_elem_of_further.
Qed.

(** [max_element] of a non-empty vector of doubles without NaN is an element
    of the vector that bounds every element. *)
Lemma max_element_is_max (v : list double) (m : double) :
  Forall (fun y => is_nan y = false) v ->
  max_element v = Some m ->
  m ∈ v /\ Forall (fun y => le y m = true) v.
Proof.
  destruct v as [|x v]; [done|]. intros Hv [= <-].
  inversion_clear Hv as [|? ? Hx Hv'].
  destruct (fold_max_is_max v x Hx Hv') as (_ & Hle & Hall & Hin).
  split; [done | by constructor].
Qed.

(** * Facts about the driver

    ** The trace monad *)

Section MonadFacts.

Context {alder : Alder}.

Local Abbreviation M := (M alder).
Local Abbreviation Event := (Event alder).

Lemma outcome_bind {A B} (m : M A) (f : A -> M B) :
  outcome (m ≫= f) =
  match outcome m with
  | Ok a => outcome (f a)
  | Fatalx msg => Fatalx msg
  | Undefined => Undefined
  end.
Proof.
  destruct m as [t [a|msg|]]; simpl; try done.
  unfold mbind, M_bind, bind. by destruct (f a).
Qed.

Lemma trace_bind {A B} (m : M A) (f : A -> M B) :
  trace (m ≫= f) =
  trace m ++ match outcome m with Ok a => trace (f a) | _ => [] end.
Proof.
  destruct m as [t [a|msg|]]; simpl; try by rewrite app_nil_r.
  unfold mbind, M_bind, bind. by destruct (f a).
Qed.

Lemma bind_Ok_inv {A B} (m : M A) (f : A -> M B) (t : list Event) (b : B) :
  m ≫= f = (t, Ok b) ->
  exists t1 a t2, m = (t1, Ok a) /\ f a = (t2, Ok b) /\ t = t1 ++ t2.
Proof.
  destruct m as [t1 [a|msg|]]; unfold mbind, M_bind, bind; try done.
  destruct (f a) as [t2 r] eqn:E. intros [= <- ->]. by exists t1, a, t2.
Qed.

Lemma ret_Ok_inv {A} (a b : A) (t : list Event) :
  mret a = (t, Ok b) :> M A -> t = [] /\ a = b.
Proof. by intros [= <- <-]. Qed.

Lemma tell_Ok_inv (l t : list Event) (u : unit) :
  tell l = (t, Ok u) -> t = l.
Proof. by intros [= <-]. Qed.

Lemma idx_Ok_inv {A} (v : list A) (i : nat) (t : list Event) (x : A) :
  idx v i = (t, Ok x) -> t = [] /\ v !! i = Some x.
Proof. unfold idx. destruct (v !! i); [|done]. by intros [= <- <-]. Qed.

Lemma back_Ok_inv {A} (v : list A) (t : list Event) (x : A) :
  back v = (t, Ok x) -> t = [] /\ last v = Some x.
Proof. unfold back. destruct (last v); [|done]. by intros [= <- <-]. Qed.

Lemma deref_Ok_inv {A} (o : option A) (t : list Event) (x : A) :
  deref o = (t, Ok x) -> t = [] /\ o = Some x.
Proof. unfold deref. destruct o; [|done]. by intros [= <- <-]. Qed.

Lemma surjective_run {A} (m : M A) : m = (trace m, outcome m).
Proof. by destruct m. Qed.

(** A run that ends normally went through every round of a loop, and
    its trace is the concatenation of the rounds' traces. *)
Lemma for_loop_Ok_inv {St} (body : nat -> St -> M St) (lo n : nat) (s s' : St)
    (t : list Event) :
  for_loop body lo n s = (t, Ok s') ->
  exists (ts : list (list Event)) (ss : list St),
    length ts = n /\ length ss = S n /\
    ss !! 0%nat = Some s /\ ss !! n = Some s' /\
    t = concat ts /\
    forall i, (i < n)%nat ->
      exists si si' ti, ss !! i = Some si /\ ss !! (S i) = Some si' /\
        ts !! i = Some ti /\ body (lo + i)%nat si = (ti, Ok si').
Proof.
  revert lo s t. induction n as [|n IH]; intros lo s t; simpl.
  - intros [-> <-]%ret_Ok_inv. exists [], [s]. split_and!; try done. lia.
  - intros (t1 & s1 & t2 & Hb & Hl & ->)%bind_Ok_inv.
    destruct (IH _ _ _ Hl) as (ts & ss & Hts & Hss & H0 & Hn & -> & Hi).
    exists (t1 :: ts), (s :: ss). split_and!; simpl; try done; try lia.
    intros [|i] Hlt.
    + exists s, s1, t1. rewrite Nat.add_0_r. by split_and!.
    + destruct (Hi i) as (si & si' & ti & ? & ? & ? & Hbi); [lia|].
      exists si, si', ti. split_and!; try done.
      by replace (lo + S i)%nat with (S lo + i)%nat by lia.
Qed.

(** *** Properties of every event of a trace, whatever the outcome *)

Lemma Forall_trace_bind {A B} (P : Event -> Prop) (m : M A) (f : A -> M B) :
  Forall P (trace m) ->
  (forall a, outcome m = Ok a -> Forall P (trace (f a))) ->
  Forall P (trace (m ≫= f)).
Proof.
  intros Hm Hf. rewrite trace_bind. apply Forall_app. split; [done|].
  destruct (outcome m) eqn:E; auto.
Qed.

Lemma Forall_trace_for_loop {St} (P : Event -> Prop) (body : nat -> St -> M St)
    (lo n : nat) (s : St) :
  (forall i s, (lo <= i < lo + n)%nat -> Forall P (trace (body i s))) ->
  Forall P (trace (for_loop body lo n s)).
Proof.
  revert lo s. induction n as [|n IH]; intros lo s Hb; simpl; [constructor|].
  apply Forall_trace_bind; [apply Hb; lia|].
  intros s' _. apply IH. intros i s'' Hi. apply Hb. lia.
Qed.

Lemma Forall_trace_idx {A} (P : Event -> Prop) (v : list A) (i : nat) :
  Forall P (trace (idx v i)).
Proof. unfold idx. destruct (v !! i); constructor. Qed.

Lemma Forall_trace_back {A} (P : Event -> Prop) (v : list A) :
  Forall P (trace (back v)).
Proof. unfold back. destruct (last v); constructor. Qed.

Lemma Forall_trace_deref {A} (P : Event -> Prop) (o : option A) :
  Forall P (trace (deref o)).
Proof. destruct o; constructor. Qed.

(** *** Where a run can end in [fatalx] *)

Lemma fatal_only_bind {A B} (Q : string -> Prop) (m : M A) (f : A -> M B) :
  fatal_only Q m -> (forall a, outcome m = Ok a -> fatal_only Q (f a)) ->
  fatal_only Q (m ≫= f).
Proof.
  intros Hm Hf msg. rewrite outcome_bind.
  destruct (outcome m) eqn:E; try done.
  - by apply Hf.
  - intros [= <-]. by apply Hm.
Qed.

Lemma fatal_only_for_loop {St} (Q : string -> Prop) (body : nat -> St -> M St)
    (lo n : nat) (s : St) :
  (forall i s, fatal_only Q (body i s)) ->
  fatal_only Q (for_loop body lo n s).
Proof.
  intros Hb. revert lo s. induction n as [|n IH]; intros lo s; simpl; [done|].
  apply fatal_only_bind; [apply Hb|]. intros s' _. apply IH.
Qed.

Lemma fatal_only_idx {A} (Q : string -> Prop) (v : list A) (i : nat) :
  fatal_only (alder := alder) Q (idx v i).
Proof. unfold idx. by destruct (v !! i). Qed.

Lemma fatal_only_back {A} (Q : string -> Prop) (v : list A) :
  fatal_only (alder := alder) Q (back v).
Proof. unfold back. by destruct (last v). Qed.

Lemma fatal_only_deref {A} (Q : string -> Prop) (o : option A) :
  fatal_only (alder := alder) Q (deref o).
Proof. by destruct o. Qed.

End MonadFacts.

(** ** [subtract_freqs] *)

Section SubtractFreqs.

Context (alder : Alder).

Lemma bind_nil_Ok {A B} (m : M alder A) (f : A -> M alder B) (x : A) :
  m = ([], Ok x) -> m ≫= f = f x.
Proof. intros ->. unfold mbind, M_bind, bind. by destruct (f x). Qed.

Lemma bind_nil_Undefined {A B} (m : M alder A) (f : A -> M alder B) :
  m = ([], Undefined) -> m ≫= f = ([], Undefined).
Proof. by intros ->. Qed.

Lemma idx_Some {A} (v : list A) (i : nat) (x : A) :
  v !! i = Some x -> idx (alder := alder) v i = ([], Ok x).
Proof. intros H. unfold idx. by rewrite H. Qed.

Lemma idx_None {A} (v : list A) (i : nat) :
  v !! i = None -> idx (alder := alder) v i = ([], Undefined).
Proof. intros H. unfold idx. by rewrite H. Qed.

(** One round of the loop. *)
Lemma subtract_freqs_body_Some freqs r1 r2 a b s x y ws :
  freqs !! r1 = Some a -> freqs !! r2 = Some b -> a !! s = Some x -> b !! s = Some y ->
  subtract_freqs_body alder freqs r1 r2 s ws = ([], Ok (<[s := PrimFloat.sub x y]> ws)).
Proof.
  intros Ha Hb Hx Hy. unfold subtract_freqs_body.
  rewrite (bind_nil_Ok _ _ a) by by apply idx_Some.
  rewrite (bind_nil_Ok _ _ x) by by apply idx_Some.
  rewrite (bind_nil_Ok _ _ b) by by apply idx_Some.
  by rewrite (bind_nil_Ok _ _ y) by by apply idx_Some.
Qed.

Lemma subtract_freqs_body_short freqs r1 r2 a b s x ws :
  freqs !! r1 = Some a -> freqs !! r2 = Some b -> a !! s = Some x -> b !! s = None ->
  subtract_freqs_body alder freqs r1 r2 s ws = ([], Undefined).
Proof.
  intros Ha Hb Hx Hy. unfold subtract_freqs_body.
  rewrite (bind_nil_Ok _ _ a) by by apply idx_Some.
  rewrite (bind_nil_Ok _ _ x) by by apply idx_Some.
  rewrite (bind_nil_Ok _ _ b) by by apply idx_Some.
  by rewrite bind_nil_Undefined by by apply idx_None.
Qed.

Lemma subtract_freqs_body_None_r freqs r1 r2 a s x ws :
  freqs !! r1 = Some a -> a !! s = Some x -> freqs !! r2 = None ->
  subtract_freqs_body alder freqs r1 r2 s ws = ([], Undefined).
Proof.
  intros Ha Hx Hb. unfold subtract_freqs_body.
  rewrite (bind_nil_Ok _ _ a) by by apply idx_Some.
  rewrite (bind_nil_Ok _ _ x) by by apply idx_Some.
  by rewrite bind_nil_Undefined by by apply idx_None.
Qed.

(** The rounds of the loop from [lo] on fill in the differences of the
    rows when both rows are long enough. *)
Lemma subtract_freqs_loop freqs r1 r2 a b :
  freqs !! r1 = Some a -> freqs !! r2 = Some b ->
  forall n lo ws,
    (lo + n <= length a)%nat -> (lo + n <= length b)%nat -> (lo + n <= length ws)%nat ->
    for_loop (subtract_freqs_body alder freqs r1 r2) lo n ws
    = ([], Ok (take lo ws ++
               zip_with PrimFloat.sub (take n (drop lo a)) (take n (drop lo b)) ++
               drop (lo + n) ws)).
Proof.
  intros Ha Hb. induction n as [|n IH]; intros lo ws Hla Hlb Hlw.
  - cbn [for_loop]. rewrite !take_0. cbn [zip_with app].
    by rewrite Nat.add_0_r, take_drop.
  - destruct (lookup_lt_is_Some_2 a lo) as [x Hx]; [lia|].
    destruct (lookup_lt_is_Some_2 b lo) as [y Hy]; [lia|].
    cbn [for_loop].
    rewrite (bind_nil_Ok _ _ _ (subtract_freqs_body_Some _ _ _ _ _ _ _ _ ws Ha Hb Hx Hy)).
    rewrite IH by (rewrite ?length_insert; lia).
    rewrite (drop_S a x lo Hx), (drop_S b y lo Hy). rewrite !firstn_cons. cbn [zip_with].
    rewrite (take_S_r _ lo (PrimFloat.sub x y)) by (apply list_lookup_insert_eq; lia).
    rewrite take_insert_ge by lia. rewrite drop_insert_lt by lia.
    rewrite <- app_assoc. cbn [app].
    by replace (S lo + n)%nat with (lo + S n)%nat by lia.
Qed.

(** They read row [r2] out of range when it is shorter than row [r1]. *)
Lemma subtract_freqs_loop_short freqs r1 r2 a b :
  freqs !! r1 = Some a -> freqs !! r2 = Some b ->
  forall n lo ws,
    (lo + n <= length a)%nat -> (lo <= length b)%nat -> (length b < lo + n)%nat ->
    for_loop (subtract_freqs_body alder freqs r1 r2) lo n ws = ([], Undefined).
Proof.
  intros Ha Hb. induction n as [|n IH]; intros lo ws Hla Hlb Hshort; [lia|].
  destruct (lookup_lt_is_Some_2 a lo) as [x Hx]; [lia|].
  cbn [for_loop].
  destruct (b !! lo) as [y|] eqn:Hy.
  - rewrite (bind_nil_Ok _ _ _ (subtract_freqs_body_Some _ _ _ _ _ _ _ _ ws Ha Hb Hx Hy)).
    apply lookup_lt_Some in Hy. apply IH; lia.
  - by rewrite (bind_nil_Undefined _ _ (subtract_freqs_body_short _ _ _ _ _ _ _ ws Ha Hb Hx Hy)).
Qed.

Lemma subtract_freqs_None_l freqs r1 r2 :
  freqs !! r1 = None -> subtract_freqs alder freqs r1 r2 = ([], Undefined).
Proof. intros H. unfold subtract_freqs, idx. by rewrite H. Qed.

Lemma subtract_freqs_nil freqs r1 r2 :
  freqs !! r1 = Some [] -> subtract_freqs alder freqs r1 r2 = ([], Ok []).
Proof. intros H. unfold subtract_freqs, idx. by rewrite H. Qed.

Lemma subtract_freqs_None_r freqs r1 r2 a :
  freqs !! r1 = Some a -> a <> [] -> freqs !! r2 = None ->
  subtract_freqs alder freqs r1 r2 = ([], Undefined).
Proof.
  intros Ha Hne Hb. unfold subtract_freqs.
  rewrite (bind_nil_Ok _ _ a) by by apply idx_Some.
  destruct a as [|x a]; [done|]. cbn [length for_loop].
  by rewrite (bind_nil_Undefined _ _
                (subtract_freqs_body_None_r _ _ _ _ 0%nat x _ Ha eq_refl Hb)).
Qed.

Lemma subtract_freqs_Some freqs r1 r2 a b :
  freqs !! r1 = Some a -> freqs !! r2 = Some b ->
  subtract_freqs alder freqs r1 r2
  = ([], if (length a <=? length b)%nat then Ok (zip_with PrimFloat.sub a b) else Undefined).
Proof.
  intros Ha Hb. unfold subtract_freqs.
  rewrite (bind_nil_Ok _ _ a) by by apply idx_Some.
  destruct (length a <=? length b)%nat eqn:E.
  - apply Nat.leb_le in E.
    rewrite (subtract_freqs_loop freqs r1 r2 a b Ha Hb)
      by (rewrite ?length_replicate; lia).
    cbn. rewrite (take_ge a) by lia. rewrite zip_with_take_r.
    rewrite take_0, drop_0.
    rewrite (drop_ge (replicate _ _)) by (by rewrite length_replicate).
    cbn [app]. by rewrite app_nil_r.
  - apply Nat.leb_gt in E.
    by rewrite (subtract_freqs_loop_short freqs r1 r2 a b Ha Hb) by lia.
Qed.

End SubtractFreqs.

(** ** Which runs end in [fatalx] *)

Ltac fatal_step :=
  match goal with
  | |- fatal_only _ (_ ≫= _) => apply fatal_only_bind; [| intros ? _]
  | |- fatal_only _ (idx _ _) => apply fatal_only_idx
  | |- fatal_only _ (back _) => apply fatal_only_back
  | |- fatal_only _ (deref _) => apply fatal_only_deref
  | |- fatal_only _ (for_loop _ _ _ _) => apply fatal_only_for_loop; intros ? ?
  | |- fatal_only _ (mret _) => by intros ? ?
  | |- fatal_only _ (tell _) => by intros ? ?
  | |- fatal_only _ undefined => by intros ? ?
  | |- fatal_only _ (fatalx _) => by intros ? [= <-]
  | |- fatal_only _ (if ?b then _ else _) => destruct b
  | |- fatal_only _ (match ?o with Some _ => _ | None => _ end) => destruct o
  | |- fatal_only _ (let '(_, _) := ?x in _) => destruct x
  | |- fatal_only _ (let (_, _) := ?x in _) => destruct x
  | |- fatal_only _ _ => by intros ? ?
  end.

Section Fatal.

Context (alder : Alder) (pars : AlderParams) (data : Data).

(** The 1-ref and 2-ref branch never calls [fatalx]. *)
Lemma fatal_only_one_or_two_refs (Q : string -> Prop) w n inds fs :
  fatal_only Q (one_or_two_refs alder pars data w n inds fs).
Proof.
  unfold one_or_two_refs, two_ref_test, print_fit_diffs, fit_oneref, print_fits,
    selected_fit, alder_run.
  repeat (fatal_step || done).
Qed.

(** The branch for three or more references calls [fatalx] only for want
    of chromosomes. *)
Lemma fatal_only_multiple_refs fs :
  fatal_only (fun msg => msg = msg_need_chroms /\ get_num_chroms_used alder < 2)
             (multiple_refs alder pars data fs).
Proof.
  unfold multiple_refs, pretests, pairs_outer, pairs_inner, pair_test, summary_ref,
    pretest_ref, print_fits, selected_fit, subtract_freqs, subtract_freqs_body, alder_run.
  apply fatal_only_bind.
  { destruct (get_num_chroms_used alder <? 2) eqn:E; [|done].
    intros ? [= <-]. split; [done|]. lia. }
  intros _ _. repeat (fatal_step || done).
Qed.

End Fatal.

(** ** Fatal configuration errors (lines 123 and 149-159) *)

Section Config.

Context (alder : Alder) (pars : AlderParams) (data : Data).

Lemma main_unfold :
  main alder pars data =
  tell [PrintHeader; Cout "*** Processing data ***"] ≫= fun _ =>
  check_mincount alder pars data ≫= fun _ =>
  determine_refs alder pars data ≫= fun '(weights, num_alder_refs, ref_inds) =>
  (if (get_num_chroms_used alder <? 2) && print_raw_jackknife pars
   then tell [Cout "WARNING: jackknife = YES, but need data from >= 2 chroms to jackknife"]
   else mret tt) ≫= fun _ =>
  tell [Cout ("Form of ALDER to run: " +:+ form_of_alder data num_alder_refs);
        CoutTime "process data"; PrintHline;
        FindLdCorrStops (binsize pars) (approx_ld_corr pars) (mindis pars)] ≫= fun _ =>
  let fit_starts := find_ld_corr_stops alder (binsize pars) (approx_ld_corr pars) (mindis pars) in
  if (num_ref_freqs data <=? 2)%nat
  then one_or_two_refs alder pars data weights num_alder_refs ref_inds fit_starts
  else multiple_refs alder pars data fit_starts.
Proof. reflexivity. Qed.

Lemma subtract_freqs_cases freqs r1 r2 :
  (exists w, subtract_freqs alder freqs r1 r2 = ([], Ok w)) \/
  subtract_freqs alder freqs r1 r2 = ([], Undefined).
Proof.
  destruct (freqs !! r1) as [a|] eqn:Ha; [|right; by apply subtract_freqs_None_l].
  destruct (freqs !! r2) as [b|] eqn:Hb.
  - rewrite (subtract_freqs_Some alder freqs r1 r2 a b Ha Hb).
    destruct (length a <=? length b)%nat; [left; by eexists|by right].
  - destruct a as [|x a].
    + left. exists []. by apply subtract_freqs_nil.
    + right. by eapply subtract_freqs_None_r.
Qed.

Lemma determine_refs_spec : refs_spec alder pars data (determine_refs alder pars data).
Proof.
  unfold determine_refs.
  destruct (weightname pars) as [file|] eqn:Ew; [apply refs_weights; by rewrite Ew|].
  destruct (num_ref_freqs data) as [|[|[|n]]] eqn:En.
  - by apply refs_none.
  - destruct (mincount pars <? 4) eqn:Em.
    + apply refs_one_bad; [done..|lia].
    + destruct (lookup_lt_is_Some_2 (ref_freqs data) 0) as [w Hw].
      { unfold num_ref_freqs in En. lia. }
      unfold idx. rewrite Hw. apply refs_one; [done..|lia|done].
  - destruct (subtract_freqs_cases (ref_freqs data) 0 1) as [[w Hw]|Hu].
    + rewrite Hw. by apply refs_two.
    + rewrite Hu. by apply refs_two_undefined.
  - destruct (raw_outname pars); apply refs_many; try done; try lia;
      repeat constructor.
Qed.

Lemma main_after_config t weights num_alder_refs ref_inds :
  mincount pars <= num_mixed_indivs data ->
  determine_refs alder pars data = (t, Ok (weights, num_alder_refs, ref_inds)) ->
  main alder pars data =
  (config_trace alder pars data t num_alder_refs ++ trace (analysis alder pars data weights num_alder_refs ref_inds),
   outcome (analysis alder pars data weights num_alder_refs ref_inds)).
Proof.
  intros Hm Hd. rewrite main_unfold, Hd. unfold check_mincount.
  destruct (mincount pars >? num_mixed_indivs data) eqn:E; [lia|].
  unfold config_trace, analysis, fit_starts.
  cbv beta iota zeta delta [mbind M_bind bind mret M_ret ret tell trace outcome fst snd].
  set (a := if (num_ref_freqs data <=? 2)%nat then _ else _).
  clearbody a. destruct a as [ta ra].
  destruct ((get_num_chroms_used alder <? 2) && print_raw_jackknife pars); simpl;
    by rewrite <- ?app_assoc.
Qed.

Lemma main_config_failed t (o : Outcome (list double * Z * list nat)) :
  mincount pars <= num_mixed_indivs data ->
  determine_refs alder pars data = (t, o) ->
  (forall r, o <> Ok r) ->
  main alder pars data =
  ([PrintHeader; Cout "*** Processing data ***"] ++ t,
   match o with Fatalx msg => Fatalx msg | _ => Undefined end).
Proof.
  intros Hm Hd Ho. rewrite main_unfold, Hd. unfold check_mincount.
  destruct (mincount pars >? num_mixed_indivs data) eqn:E; [lia|].
  destruct o as [r| |]; [by destruct (Ho r)|done..].
Qed.

Lemma main_mincount_failed :
  mincount pars > num_mixed_indivs data ->
  main alder pars data =
  ([PrintHeader; Cout "*** Processing data ***"], Fatalx msg_mincount_indivs).
Proof.
  intros Hm. rewrite main_unfold. unfold check_mincount.
  destruct (mincount pars >? num_mixed_indivs data) eqn:E; [done|lia].
Qed.

Lemma analysis_fatal weights num_alder_refs ref_inds msg :
  outcome (analysis alder pars data weights num_alder_refs ref_inds) = Fatalx msg ->
  msg = msg_need_chroms /\ get_num_chroms_used alder < 2 /\ (2 < num_ref_freqs data)%nat.
Proof.
  unfold analysis. destruct (num_ref_freqs data <=? 2)%nat eqn:E.
  - intros H. by destruct (fatal_only_one_or_two_refs alder pars data (fun _ => False) _ _ _ _ _ H).
  - intros H. destruct (fatal_only_multiple_refs alder pars data _ _ H) as [-> ?].
    split_and!; [done..|]. apply Nat.leb_gt in E. lia.
Qed.

Lemma config_trace_computes t n t' :
  ~ Forall (fun e => is_computation e = false) (config_trace alder pars data t n ++ t').
Proof.
  unfold config_trace. rewrite !Forall_app. intros [(_ & _ & _ & H) _].
  do 3 apply Forall_cons in H as [_ H]. by apply Forall_cons in H as [H _].
Qed.

End Config.

Lemma need_chroms_not_config_msg : ~ is_config_msg msg_need_chroms.
Proof. intros [H|[H|H]]; vm_compute in H; discriminate H. Qed.

(** C3.  [main] ends in one of its three fatal configuration errors exactly
    when [mincount] exceeds the number of mixed individuals, or there is a
    single reference population with genotype data, no external weights and
    [mincount < 4], or there are no external weights and no reference
    population with genotype data.  These are also exactly the runs that
    end in [fatalx] before [Alder] has computed anything (no call of
    [find_ld_corr_stops] or [run] has been made). *)
Theorem fatal_config_error_iff (alder : Alder) (pars : AlderParams) (data : Data) :
  (config_error pars data <->
   exists msg, outcome (main alder pars data) = Fatalx msg /\ is_config_msg msg) /\
  (config_error pars data <->
   exists msg, outcome (main alder pars data) = Fatalx msg /\
     Forall (fun e => is_computation e = false) (trace (main alder pars data))).
Proof.
  destruct (Z_gt_le_dec (mincount pars) (num_mixed_indivs data)) as [Hm|Hm].
  { rewrite (main_mincount_failed alder pars data Hm). simpl.
    split; (split; [intros _|intros _; by left]).
    - exists msg_mincount_indivs. split; [done|by left].
    - exists msg_mincount_indivs. split; [done|]. by repeat constructor. }
  assert (forall t w n inds,
    determine_refs alder pars data = (t, Ok (w, n, inds)) ->
    ~ config_error pars data ->
    (config_error pars data <->
     exists msg, outcome (main alder pars data) = Fatalx msg /\ is_config_msg msg) /\
    (config_error pars data <->
     exists msg, outcome (main alder pars data) = Fatalx msg /\
       Forall (fun e => is_computation e = false) (trace (main alder pars data)))) as Hok.
  { intros t w n inds Hd Hc. rewrite (main_after_config alder pars data _ _ _ _ Hm Hd). simpl.
    split; (split; [done|]).
    - intros (msg & (-> & _)%analysis_fatal & Hmsg). by apply need_chroms_not_config_msg in Hmsg.
    - intros (msg & _ & Hall). by apply config_trace_computes in Hall. }
  assert (forall t msg,
    determine_refs alder pars data = (t, Fatalx msg) ->
    t = [] -> is_config_msg msg -> config_error pars data ->
    (config_error pars data <->
     exists msg, outcome (main alder pars data) = Fatalx msg /\ is_config_msg msg) /\
    (config_error pars data <->
     exists msg, outcome (main alder pars data) = Fatalx msg /\
       Forall (fun e => is_computation e = false) (trace (main alder pars data)))) as Hfatal.
  { intros t msg Hd -> Hmsg Hc.
    rewrite (main_config_failed alder pars data _ _ Hm Hd) by done. simpl.
    split; (split; [intros _|done]).
    - by exists msg.
    - exists msg. split; [done|]. by repeat constructor. }
  pose proof (determine_refs_spec alder pars data) as Hspec.
  inversion Hspec as [Hw Hd|Hw Hn Hd|Hw Hn Hlt Hd|w Hw Hn Hle Hf Hd|w Hw Hn Hs Hd|Hw Hn Hd
                     |t Hw Hn Ht Hd]; symmetry in Hd.
  - eapply Hok; [done|]. intros [?|[(? & _)|(? & _)]]; [lia|done..].
  - eapply Hfatal; [done..| |].
    + by right; right.
    + by right; right.
  - eapply Hfatal; [done..| |].
    + by right; left.
    + by right; left.
  - eapply Hok; [done|]. intros [?|[(_ & _ & ?)|(_ & ?)]]; solve [lia|congruence].
  - eapply Hok; [done|]. intros [?|[(_ & ? & _)|(_ & ?)]]; solve [lia|congruence].
  - rewrite (main_config_failed alder pars data _ _ Hm Hd) by done. simpl.
    split; (split; [|by intros (? & ? & _)]);
      intros [?|[(_ & ? & _)|(_ & ?)]]; solve [lia|congruence].
  - eapply Hok; [done|]. intros [?|[(_ & ? & _)|(_ & ?)]]; lia.
Qed.

(** ** Properties of every event of a run *)

Lemma Forall_trace_main (alder : Alder) (pars : AlderParams) (data : Data)
    (P : Event alder -> Prop) :
  (forall e, is_config_event e = true -> P e) ->
  (forall t w n inds,
     mincount pars <= num_mixed_indivs data ->
     determine_refs alder pars data = (t, Ok (w, n, inds)) ->
     Forall P (trace (analysis alder pars data w n inds))) ->
  Forall P (trace (main alder pars data)).
Proof.
  intros Hc Ha.
  destruct (Z_gt_le_dec (mincount pars) (num_mixed_indivs data)) as [Hm|Hm].
  { rewrite (main_mincount_failed alder pars data Hm). simpl.
    repeat constructor; by apply Hc. }
  assert (Forall P (fst (determine_refs alder pars data))) as Hd.
  { destruct (determine_refs_spec alder pars data); simpl; repeat constructor; try by apply Hc.
    eapply Forall_impl; [done|]. intros e He. by apply Hc. }
  destruct (determine_refs alder pars data) as [t [[[w n] inds]|msg|]] eqn:Ed.
  - rewrite (main_after_config alder pars data _ _ _ _ Hm Ed). cbn [trace fst].
    apply Forall_app. split; [|by eapply Ha].
    unfold config_trace. rewrite !Forall_app. split_and!; [| done | |].
    + repeat constructor; by apply Hc.
    + destruct (_ && _); repeat constructor; by apply Hc.
    + repeat constructor; by apply Hc.
  - rewrite (main_config_failed alder pars data _ _ Hm Ed) by done. simpl.
    repeat constructor; try by apply Hc. done.
  - rewrite (main_config_failed alder pars data _ _ Hm Ed) by done. simpl.
    repeat constructor; try by apply Hc. done.
Qed.

Lemma Forall_trace_print_fits (alder : Alder) (pars : AlderParams) (P : Event alder -> Prop)
    (fits : list (ExpFitALD alder)) :
  (forall f jk, P (PrintFit f jk)) -> Forall P (trace (print_fits alder pars fits)).
Proof. intros H. unfold print_fits. simpl. apply Forall_fmap, Forall_forall. intros f _. apply H. Qed.

Ltac trace_step :=
  match goal with
  | |- Forall _ (trace (_ ≫= _)) => apply Forall_trace_bind; [| intros ? ?]
  | |- Forall _ (trace (idx _ _)) => apply Forall_trace_idx
  | |- Forall _ (trace (back _)) => apply Forall_trace_back
  | |- Forall _ (trace (deref _)) => apply Forall_trace_deref
  | |- Forall _ (trace (for_loop _ _ _ _)) => apply Forall_trace_for_loop; intros ? ? ?
  | |- Forall _ (trace (print_fits _ _ _)) => apply Forall_trace_print_fits; intros ? ?
  | |- Forall _ (trace (if ?b then _ else _)) => destruct b eqn:?
  | |- Forall _ (trace (match ?o with Some _ => _ | None => _ end)) => destruct o eqn:?
  | |- Forall _ (trace (let '(_, _) := ?x in _)) => destruct x eqn:?
  | |- Forall _ (trace (let (_, _) := ?x in _)) => destruct x eqn:?
  | |- Forall _ (trace (tell _)) => simpl; repeat apply Forall_cons_2; try apply Forall_nil_2
  | |- Forall _ (trace _) => by apply Forall_nil_2
  end.

(** ** The correction passed to the test for admixture *)

Section Correction.

Context (alder : Alder) (pars : AlderParams) (data : Data).

Lemma one_or_two_refs_correction w n inds fs :
  Forall (fun e => forall c, test_correction e = Some c -> c = (true, 1%float))
         (trace (one_or_two_refs alder pars data w n inds fs)).
Proof.
  unfold one_or_two_refs, two_ref_test, print_fit_diffs, fit_oneref, selected_fit, alder_run.
  repeat (trace_step; try done). by intros c [= <-].
Qed.

Lemma multiple_refs_correction fs :
  Forall (fun e => forall c, test_correction e = Some c ->
            c = (false, compute_mult_hyp_corr alder (replicate (num_ref_freqs data) true)))
         (trace (multiple_refs alder pars data fs)).
Proof.
  unfold multiple_refs, pretests, pairs_outer, pairs_inner, pair_test, summary_ref,
    pretest_ref, selected_fit, subtract_freqs, subtract_freqs_body, alder_run.
  repeat (trace_step; try done). by intros c [= <-].
Qed.

End Correction.

(** ** Runs that end normally *)

Ltac list_norm :=
  repeat (rewrite <- app_assoc || rewrite <- app_comm_cons); simpl.

Ltac inv_ok :=
  repeat match goal with
  | H : _ ≫= _ = (_, Ok _) |- _ =>
      let t1 := fresh "t" in let t2 := fresh "t" in
      apply bind_Ok_inv in H as (t1 & ? & t2 & ? & ? & ->)
  | H : idx _ _ = (_, Ok _) |- _ => apply idx_Ok_inv in H as [-> ?]
  | H : back _ = (_, Ok _) |- _ => apply back_Ok_inv in H as [-> ?]
  | H : deref _ = (_, Ok _) |- _ => apply deref_Ok_inv in H as [-> ?]
  | H : tell _ = (_, Ok _) |- _ => apply tell_Ok_inv in H as ->
  | H : print_fits _ _ _ = (_, Ok _) |- _ => apply tell_Ok_inv in H as ->
  | H : mret _ = (_, Ok _) |- _ => apply ret_Ok_inv in H as [-> ?]
  | H : ret _ = (_, Ok _) |- _ => apply ret_Ok_inv in H as [-> ?]
  | H : undefined = (_, Ok _) |- _ => discriminate H
  | H : fatalx _ = (_, Ok _) |- _ => discriminate H
  | H : (let '(_, _) := ?x in _) = (_, Ok _) |- _ => destruct x
  | H : (let (_, _) := ?x in _) = (_, Ok _) |- _ => destruct x
  | u : unit |- _ => destruct u
  end.

Section OkRuns.

Context (alder : Alder) (pars : AlderParams) (data : Data).

Local Abbreviation Fit := (ExpFitALD alder).

Lemma alder_run_Ok_inv n inds w fs t r :
  alder_run alder pars n inds w fs = (t, Ok r) ->
  t = [AlderRun n inds w (maxdis pars) (binsize pars) (mincount pars)
                (use_naive_algo pars) fs] /\
  r = run alder n inds w (maxdis pars) (binsize pars) (mincount pars)
          (use_naive_algo pars) fs.
Proof. unfold alder_run. intros H. inv_ok. by subst. Qed.

Lemma selected_fit_Ok_inv st r t (fit : Fit) :
  selected_fit alder st r = (t, Ok fit) ->
  exists fits ind,
    st.1 !! r = Some fits /\ st.2 !! r = Some (Some ind) /\ fits !! ind = Some fit /\ t = [].
Proof.
  unfold selected_fit. intros H.
  apply bind_Ok_inv in H as (? & fits & ? & [-> Hfits]%idx_Ok_inv & H & ->).
  apply bind_Ok_inv in H as (? & oind & ? & [-> Hoind]%idx_Ok_inv & H & ->).
  apply bind_Ok_inv in H as (? & ind & ? & [-> ->]%deref_Ok_inv & [-> Hfit]%idx_Ok_inv & ->).
  by exists fits, ind.
Qed.

Lemma selected_fit_intro st r fits ind (fit : Fit) :
  st.1 !! r = Some fits -> st.2 !! r = Some (Some ind) -> fits !! ind = Some fit ->
  selected_fit alder st r = ([], Ok fit).
Proof.
  intros H1 H2 H3. unfold selected_fit, idx. rewrite H1. simpl. rewrite H2. simpl.
  by rewrite H3.
Qed.

Lemma two_ref_test_Ok_inv fs fits ind t :
  two_ref_test alder pars data fs fits ind = (t, Ok tt) ->
  exists st t_fit t_diff fit fit1 fit2 name1 name2,
    for_loop (fit_oneref alder pars data fs) 0 2 (replicate 2 [], replicate 2 None)
      = (t_fit, Ok st) /\
    for_loop (print_fit_diffs alder data fits st 0 1) 0 (length fits) tt = (t_diff, Ok tt) /\
    fits !! ind = Some fit /\
    selected_fit alder st 0 = ([], Ok fit1) /\
    selected_fit alder st 1 = ([], Ok fit2) /\
    ref_pop_names data !! 0%nat = Some name1 /\
    ref_pop_names data !! 1%nat = Some name2 /\
    t = [PrintHline; Cout "*** Running test for admixture ***"] ++ t_fit ++
        [PrintHline; Cout "*** Comparing curves to test for admixture ***"] ++ t_diff ++
        [RunAdmixtureTest fit fit1 fit2 (mixed_pop_name data) name1 name2 true 1%float;
         PrintDataHeader].
Proof.
  unfold two_ref_test. intros H.
  apply bind_Ok_inv in H as (? & ? & ? & ->%tell_Ok_inv & H & ->).
  apply bind_Ok_inv in H as (t_fit & st & ? & Hfit & H & ->).
  apply bind_Ok_inv in H as (? & ? & ? & ->%tell_Ok_inv & H & ->).
  apply bind_Ok_inv in H as (t_diff & [] & ? & Hdiff & H & ->).
  apply bind_Ok_inv in H as (? & fit & ? & [-> Hfit0]%idx_Ok_inv & H & ->).
  apply bind_Ok_inv in H as (t1 & fit1 & ? & Hs1 & H & ->).
  apply bind_Ok_inv in H as (t2 & fit2 & ? & Hs2 & H & ->).
  apply bind_Ok_inv in H as (? & name1 & ? & [-> Hn1]%idx_Ok_inv & H & ->).
  apply bind_Ok_inv in H as (? & name2 & ? & [-> Hn2]%idx_Ok_inv & ->%tell_Ok_inv & ->).
  assert (t1 = []) as -> by (by apply selected_fit_Ok_inv in Hs1 as (? & ? & _ & _ & _ & ->)).
  assert (t2 = []) as -> by (by apply selected_fit_Ok_inv in Hs2 as (? & ? & _ & _ & _ & ->)).
  exists st, t_fit, t_diff, fit, fit1, fit2, name1, name2.
  by split_and!.
Qed.

Lemma one_or_two_refs_Ok_inv w n inds fs t :
  one_or_two_refs alder pars data w n inds fs = (t, Ok tt) ->
  exists fsd curve t_end,
    max_element fs = Some fsd /\
    last (run alder n inds w (maxdis pars) (binsize pars) (mincount pars)
              (use_naive_algo pars) fsd).1.1 = Some curve /\
    after_curve alder pars data n inds fs
      (run alder n inds w (maxdis pars) (binsize pars) (mincount pars)
           (use_naive_algo pars) fsd).1.2
      (run alder n inds w (maxdis pars) (binsize pars) (mincount pars)
           (use_naive_algo pars) fsd).2 = (t_end, Ok tt) /\
    t = curve_trace alder pars n inds w fsd curve ++ t_end.
Proof.
  unfold one_or_two_refs. intros H.
  apply bind_Ok_inv in H as (? & fsd & ? & [-> Hmax]%deref_Ok_inv & H & ->).
  apply bind_Ok_inv in H as (? & ? & ? & ->%tell_Ok_inv & H & ->).
  apply bind_Ok_inv in H as (? & r & ? & [-> ->]%alder_run_Ok_inv & H & ->).
  destruct (run alder n inds w (maxdis pars) (binsize pars) (mincount pars)
                (use_naive_algo pars) fsd) as [[res fits] ind] eqn:Erun.
  apply bind_Ok_inv in H as (? & curve & ? & [-> Hlast]%back_Ok_inv & H & ->).
  apply bind_Ok_inv in H as (? & ? & ? & ->%tell_Ok_inv & H & ->).
  apply bind_Ok_inv in H as (t_raw & ? & ? & Hraw & H & ->).
  apply bind_Ok_inv in H as (? & ? & ? & ->%tell_Ok_inv & H & ->).
  apply bind_Ok_inv in H as (? & [] & t_end & ->%tell_Ok_inv & H & ->).
  exists fsd, curve, t_end. unfold curve_trace. rewrite Erun.
  split_and!; [done..|].
  destruct (raw_outname pars); apply tell_Ok_inv in Hraw as ->; simpl;
    by rewrite <- ?app_assoc.
Qed.

(** The events of a trace that satisfy a boolean test. *)
Lemma filter_none {A} (f : A -> bool) (l : list A) :
  Forall (fun x => f x = false) l -> List.filter f l = [].
Proof. induction 1 as [|x l Hx _ IH]; simpl; [done|]. by rewrite Hx. Qed.

Lemma curve_trace_no_test n inds w fsd curve :
  Forall (fun e => is_admixture_test e = false) (curve_trace alder pars n inds w fsd curve).
Proof.
  unfold curve_trace. destruct (run alder _ _ _ _ _ _ _ _) as [[res fits] ind].
  rewrite !Forall_app. split_and!; [by repeat constructor| | |by repeat constructor].
  - destruct (raw_outname pars); by repeat constructor.
  - by apply Forall_fmap, Forall_forall.
Qed.

End OkRuns.

Section MainRuns.

Context (alder : Alder) (pars : AlderParams) (data : Data).

Lemma main_Ok_inv :
  outcome (main alder pars data) = Ok tt ->
  mincount pars <= num_mixed_indivs data /\
  exists t w n inds ta,
    determine_refs alder pars data = (t, Ok (w, n, inds)) /\
    analysis alder pars data w n inds = (ta, Ok tt) /\
    trace (main alder pars data) = config_trace alder pars data t n ++ ta.
Proof.
  intros Hok.
  destruct (Z_gt_le_dec (mincount pars) (num_mixed_indivs data)) as [Hm|Hm].
  { by rewrite (main_mincount_failed alder pars data Hm) in Hok. }
  split; [done|].
  destruct (determine_refs alder pars data) as [t [[[w n] inds]|msg|]] eqn:Ed.
  - rewrite (main_after_config alder pars data _ _ _ _ Hm Ed) in Hok |- *.
    cbn [outcome trace fst snd] in Hok |- *.
    exists t, w, n, inds, (analysis alder pars data w n inds).1.
    split_and!; [done| |done].
    rewrite <- Hok. by destruct (analysis alder pars data w n inds).
  - by rewrite (main_config_failed alder pars data _ _ Hm Ed) in Hok.
  - by rewrite (main_config_failed alder pars data _ _ Hm Ed) in Hok.
Qed.

Lemma determine_refs_weights :
  weightname pars <> None ->
  determine_refs alder pars data = ([], Ok (process_weights data, 2, [])).
Proof. unfold determine_refs. by destruct (weightname pars). Qed.

Lemma determine_refs_two t w n inds :
  weightname pars = None -> num_ref_freqs data = 2%nat ->
  determine_refs alder pars data = (t, Ok (w, n, inds)) ->
  t = [CoutNumRefs 2] /\ n = 2 /\ inds = [0%nat; 1%nat] /\
  subtract_freqs alder (ref_freqs data) 0 1 = ([], Ok w).
Proof.
  intros Hw Hn Hd. pose proof (determine_refs_spec alder pars data) as Hspec.
  rewrite Hd in Hspec. inversion Hspec; subst; try done; try lia.
Qed.

Lemma determine_refs_many t w n inds :
  (2 < num_ref_freqs data)%nat ->
  determine_refs alder pars data = (t, Ok (w, n, inds)) ->
  Forall (fun e => is_config_event e = true) t.
Proof.
  intros Hn Hd. pose proof (determine_refs_spec alder pars data) as Hspec.
  rewrite Hd in Hspec. inversion Hspec; subst; try done; try lia; by repeat constructor.
Qed.

Lemma config_trace_no_test t n :
  Forall (fun e => is_config_event e = true) t ->
  Forall (fun e => is_config_event e = true) (config_trace alder pars data t n).
Proof.
  intros Ht. unfold config_trace. rewrite !Forall_app.
  split_and!; [by repeat constructor|done| |by repeat constructor].
  destruct (_ && _); by repeat constructor.
Qed.

(** The trace of a run with two references that gets to the test for
    admixture. *)
Lemma two_refs_run_trace :
  weightname pars = None -> num_ref_freqs data = 2%nat ->
  2 <= get_num_chroms_used alder ->
  outcome (main alder pars data) = Ok tt ->
  exists w fsd curve t_test,
    subtract_freqs alder (ref_freqs data) 0 1 = ([], Ok w) /\
    max_element (fit_starts alder pars) = Some fsd /\
    two_ref_test alder pars data (fit_starts alder pars)
      (run alder 2 [0%nat; 1%nat] w (maxdis pars) (binsize pars) (mincount pars)
           (use_naive_algo pars) fsd).1.2
      (run alder 2 [0%nat; 1%nat] w (maxdis pars) (binsize pars) (mincount pars)
           (use_naive_algo pars) fsd).2 = (t_test, Ok tt) /\
    trace (main alder pars data) =
      config_trace alder pars data [CoutNumRefs 2] 2 ++
      curve_trace alder pars 2 [0%nat; 1%nat] w fsd curve ++ t_test.
Proof.
  intros Hw Hn Hc (Hm & t & w & n & inds & ta & Hd & Ha & ->)%main_Ok_inv.
  destruct (determine_refs_two _ _ _ _ Hw Hn Hd) as (-> & -> & -> & Hs).
  unfold analysis in Ha. rewrite Hn in Ha. simpl in Ha.
  apply one_or_two_refs_Ok_inv in Ha as (fsd & curve & t_end & Hmax & _ & Hend & ->).
  unfold after_curve in Hend. simpl in Hend.
  destruct (get_num_chroms_used alder <? 2) eqn:E; [lia|].
  by exists w, fsd, curve, t_end.
Qed.

End MainRuns.

(** ** The test for admixture with two references *)

Section TwoRefs.

Context (alder : Alder) (pars : AlderParams) (data : Data).

Local Abbreviation Fit := (ExpFitALD alder).

Lemma fit_oneref_loop_no_test fs st :
  Forall (fun e => is_admixture_test e = false)
         (trace (for_loop (fit_oneref alder pars data fs) 0 2 st)).
Proof. unfold fit_oneref, alder_run. repeat (trace_step; try done). Qed.

Lemma print_fit_diffs_loop_no_test fits st n :
  Forall (fun e => is_admixture_test e = false)
         (trace (for_loop (print_fit_diffs alder data fits st 0 1) 0 n tt)).
Proof. unfold print_fit_diffs. repeat (trace_step; try done). Qed.

Lemma fit_oneref_Ok_inv fs r st t st' :
  fit_oneref alder pars data fs r st = (t, Ok st') ->
  exists freqs start,
    ref_freqs data !! r = Some freqs /\ fs !! r = Some start /\
    st' = (<[r := fits_of_run alder pars 1 [r] freqs start]> st.1,
           <[r := Some (test_ind_of_run alder pars 1 [r] freqs start)]> st.2).
Proof.
  unfold fit_oneref, fits_of_run, test_ind_of_run. intros H.
  apply bind_Ok_inv in H as (? & ? & ? & ->%tell_Ok_inv & H & ->).
  apply bind_Ok_inv in H as (? & freqs & ? & [-> Hf]%idx_Ok_inv & H & ->).
  apply bind_Ok_inv in H as (? & start & ? & [-> Hs]%idx_Ok_inv & H & ->).
  apply bind_Ok_inv in H as (? & ? & ? & [-> ->]%alder_run_Ok_inv & H & ->).
  destruct (run alder _ _ _ _ _ _ _ _) as [[res fits] ind] eqn:Erun.
  inv_ok. subst. exists freqs, start. by rewrite Erun.
Qed.

Lemma fit_oneref_loop_Ok_inv fs t st :
  for_loop (fit_oneref alder pars data fs) 0 2 (replicate 2 [], replicate 2 None)
    = (t, Ok st) ->
  exists freqs1 freqs2 start1 start2,
    ref_freqs data !! 0%nat = Some freqs1 /\ ref_freqs data !! 1%nat = Some freqs2 /\
    fs !! 0%nat = Some start1 /\ fs !! 1%nat = Some start2 /\
    st = ([fits_of_run alder pars 1 [0%nat] freqs1 start1; fits_of_run alder pars 1 [1%nat] freqs2 start2],
          [Some (test_ind_of_run alder pars 1 [0%nat] freqs1 start1);
           Some (test_ind_of_run alder pars 1 [1%nat] freqs2 start2)]).
Proof.
  simpl. intros H.
  apply bind_Ok_inv in H as (? & s1 & ? & H1 & H & ->).
  apply bind_Ok_inv in H as (? & s2 & ? & H2 & [_ <-]%ret_Ok_inv & ->).
  apply fit_oneref_Ok_inv in H1 as (freqs1 & start1 & ? & ? & ->).
  apply fit_oneref_Ok_inv in H2 as (freqs2 & start2 & ? & ? & ->).
  by exists freqs1, freqs2, start1, start2.
Qed.

Lemma print_fit_diffs_Ok_inv fits st f t :
  print_fit_diffs alder data fits st 0 1 f tt = (t, Ok tt) ->
  exists fit fits1 fits2 fit1 fit2 name1 name2,
    fits !! f = Some fit /\
    st.1 !! 0%nat = Some fits1 /\ st.1 !! 1%nat = Some fits2 /\
    fits1 !! f = Some fit1 /\ fits2 !! f = Some fit2 /\
    ref_pop_names data !! 0%nat = Some name1 /\
    ref_pop_names data !! 1%nat = Some name2 /\
    t = diff_block alder fit fit1 fit2 name1 name2.
Proof.
  unfold print_fit_diffs. intros H.
  apply bind_Ok_inv in H as (? & fit & ? & [-> Hfit]%idx_Ok_inv & H & ->).
  apply bind_Ok_inv in H as (? & ? & ? & ->%tell_Ok_inv & H & ->).
  apply bind_Ok_inv in H as (? & fits1 & ? & [-> Hfits1]%idx_Ok_inv & H & ->).
  apply bind_Ok_inv in H as (? & fit1 & ? & [-> Hfit1]%idx_Ok_inv & H & ->).
  apply bind_Ok_inv in H as (? & fit' & ? & [-> Hfit']%idx_Ok_inv & H & ->).
  apply bind_Ok_inv in H as (? & name1 & ? & [-> Hn1]%idx_Ok_inv & H & ->).
  apply bind_Ok_inv in H as (? & ? & ? & ->%tell_Ok_inv & H & ->).
  apply bind_Ok_inv in H as (? & fits2 & ? & [-> Hfits2]%idx_Ok_inv & H & ->).
  apply bind_Ok_inv in H as (? & fit2 & ? & [-> Hfit2]%idx_Ok_inv & H & ->).
  apply bind_Ok_inv in H as (? & fit'' & ? & [-> Hfit'']%idx_Ok_inv & H & ->).
  apply bind_Ok_inv in H as (? & name2 & ? & [-> Hn2]%idx_Ok_inv & H & ->).
  apply bind_Ok_inv in H as (? & ? & ? & ->%tell_Ok_inv & H & ->).
  apply bind_Ok_inv in H as (? & fits2' & ? & [-> Hfits2']%idx_Ok_inv & H & ->).
  apply bind_Ok_inv in H as (? & fit2' & ? & [-> Hfit2']%idx_Ok_inv & H & ->).
  apply bind_Ok_inv in H as (? & fits1' & ? & [-> Hfits1']%idx_Ok_inv & H & ->).
  apply bind_Ok_inv in H as (? & fit1' & ? & [-> Hfit1']%idx_Ok_inv & H & ->).
  apply bind_Ok_inv in H as (? & name2' & ? & [-> Hn2']%idx_Ok_inv & H & ->).
  apply bind_Ok_inv in H as (? & name1' & ? & [-> Hn1']%idx_Ok_inv & H & ->).
  apply bind_Ok_inv in H as (? & ? & ? & ->%tell_Ok_inv & ->%tell_Ok_inv & ->).
  simplify_eq. by exists fit, fits1, fits2, fit1, fit2, name1, name2.
Qed.

Lemma print_fit_diffs_loop_Ok_inv fits fits1 fits2 inds name1 name2 t :
  ref_pop_names data !! 0%nat = Some name1 ->
  ref_pop_names data !! 1%nat = Some name2 ->
  for_loop (print_fit_diffs alder data fits ([fits1; fits2], inds) 0 1)
           0 (length fits) tt = (t, Ok tt) ->
  exists blocks,
    t = concat blocks /\ length blocks = length fits /\
    forall f fit, fits !! f = Some fit ->
      exists fit1 fit2, fits1 !! f = Some fit1 /\ fits2 !! f = Some fit2 /\
        blocks !! f = Some (diff_block alder fit fit1 fit2 name1 name2).
Proof.
  intros Hn1 Hn2 (blocks & ss & Hlen & _ & _ & _ & -> & Hround)%for_loop_Ok_inv.
  exists blocks. split_and!; [done..|]. intros f fit Hf.
  destruct (Hround f) as ([] & [] & ti & _ & _ & Hti & Hbody).
  { by eapply lookup_lt_Some. }
  apply print_fit_diffs_Ok_inv in Hbody
    as (fit' & fits1' & fits2' & fit1 & fit2 & name1' & name2' &
        Hf' & [= <-] & [= <-] & Hf1 & Hf2 & Hn1' & Hn2' & ->).
  simpl in *. exists fit1, fit2. split_and!; [done..|]. congruence.
Qed.

(** The trace of a run with two references that gets to the test for
    admixture, in full. *)
Lemma two_refs_run_full :
  weightname pars = None -> num_ref_freqs data = 2%nat ->
  2 <= get_num_chroms_used alder ->
  outcome (main alder pars data) = Ok tt ->
  exists w fsd freqs1 freqs2 start1 start2 name1 name2 pre blocks fit fit1 fit2,
    subtract_freqs alder (ref_freqs data) 0 1 = ([], Ok w) /\
    max_element (fit_starts alder pars) = Some fsd /\
    ref_freqs data !! 0%nat = Some freqs1 /\ ref_freqs data !! 1%nat = Some freqs2 /\
    fit_starts alder pars !! 0%nat = Some start1 /\
    fit_starts alder pars !! 1%nat = Some start2 /\
    ref_pop_names data !! 0%nat = Some name1 /\
    ref_pop_names data !! 1%nat = Some name2 /\
    fits_of_run alder pars 2 [0%nat; 1%nat] w fsd !! test_ind_of_run alder pars 2 [0%nat; 1%nat] w fsd = Some fit /\
    fits_of_run alder pars 1 [0%nat] freqs1 start1 !! test_ind_of_run alder pars 1 [0%nat] freqs1 start1
      = Some fit1 /\
    fits_of_run alder pars 1 [1%nat] freqs2 start2 !! test_ind_of_run alder pars 1 [1%nat] freqs2 start2
      = Some fit2 /\
    Forall (fun e => is_admixture_test e = false) pre /\
    length blocks = length (fits_of_run alder pars 2 [0%nat; 1%nat] w fsd) /\
    (forall f fit, fits_of_run alder pars 2 [0%nat; 1%nat] w fsd !! f = Some fit ->
       exists fit1 fit2,
         fits_of_run alder pars 1 [0%nat] freqs1 start1 !! f = Some fit1 /\
         fits_of_run alder pars 1 [1%nat] freqs2 start2 !! f = Some fit2 /\
         blocks !! f = Some (diff_block alder fit fit1 fit2 name1 name2)) /\
    trace (main alder pars data) =
      pre ++ concat blocks ++
      [RunAdmixtureTest fit fit1 fit2 (mixed_pop_name data) name1 name2 true 1%float;
       PrintDataHeader].
Proof.
  intros Hw Hn Hc Hok.
  destruct (two_refs_run_trace alder pars data Hw Hn Hc Hok)
    as (w & fsd & curve & t_test & Hs & Hmax & Htest & ->).
  apply two_ref_test_Ok_inv in Htest
    as (st & t_fit & t_diff & fit & fit1 & fit2 & name1 & name2 &
        Hfit & Hdiff & Hf & Hf1 & Hf2 & Hn1 & Hn2 & ->).
  pose proof (fit_oneref_loop_no_test (fit_starts alder pars)
                (replicate 2 [], replicate 2 None)) as Hnt.
  rewrite Hfit in Hnt. cbn [trace fst] in Hnt.
  apply fit_oneref_loop_Ok_inv in Hfit
    as (freqs1 & freqs2 & start1 & start2 & Hq1 & Hq2 & Hs1 & Hs2 & ->).
  apply (print_fit_diffs_loop_Ok_inv _ _ _ _ name1 name2) in Hdiff
    as (blocks & -> & Hlen & Hblocks); [|done..].
  apply selected_fit_Ok_inv in Hf1 as (? & ? & [= <-] & [= <-] & Hf1 & _).
  apply selected_fit_Ok_inv in Hf2 as (? & ? & [= <-] & [= <-] & Hf2 & _).
  exists w, fsd, freqs1, freqs2, start1, start2, name1, name2.
  exists (config_trace alder pars data [CoutNumRefs 2] 2 ++
          curve_trace alder pars 2 [0%nat; 1%nat] w fsd curve ++
          [PrintHline; Cout "*** Running test for admixture ***"] ++ t_fit ++
          [PrintHline; Cout "*** Comparing curves to test for admixture ***"]).
  exists blocks, fit, fit1, fit2. split_and!; try done.
  - rewrite !Forall_app. split_and!; try done; try by repeat constructor.
    + eapply Forall_impl; [apply config_trace_no_test; by repeat constructor|].
      intros e He. by destruct e.
    + apply curve_trace_no_test.
  - by rewrite <- !app_assoc.
Qed.

End TwoRefs.


(** C7.  In a run with two references that gets to the test for admixture
    (no external weights, two chromosomes or more, normal end), for every
    tried fit start [f] the three differences of the decay rate are
    printed: each 1-ref curve against the 2-ref curve, and the two 1-ref
    curves against each other.  They are all printed before
    [run_admixture_test] is called, so whatever that test decides. *)
Theorem two_ref_decay_diffs_reported (alder : Alder) (pars : AlderParams) (data : Data) :
  weightname pars = None -> num_ref_freqs data = 2%nat ->
  2 <= get_num_chroms_used alder ->
  outcome (main alder pars data) = Ok tt ->
  exists w fsd freqs1 freqs2 start1 start2 name1 name2 pre blocks test,
    subtract_freqs alder (ref_freqs data) 0 1 = ([], Ok w) /\
    max_element (fit_starts alder pars) = Some fsd /\
    ref_freqs data !! 0%nat = Some freqs1 /\ ref_freqs data !! 1%nat = Some freqs2 /\
    fit_starts alder pars !! 0%nat = Some start1 /\
    fit_starts alder pars !! 1%nat = Some start2 /\
    ref_pop_names data !! 0%nat = Some name1 /\
    ref_pop_names data !! 1%nat = Some name2 /\
    trace (main alder pars data) = pre ++ concat blocks ++ [test; PrintDataHeader] /\
    is_admixture_test test = true /\
    Forall (fun e => is_admixture_test e = false) pre /\
    length blocks = length (fits_of_run alder pars 2 [0%nat; 1%nat] w fsd) /\
    forall f fit, fits_of_run alder pars 2 [0%nat; 1%nat] w fsd !! f = Some fit ->
      exists fit1 fit2,
        fits_of_run alder pars 1 [0%nat] freqs1 start1 !! f = Some fit1 /\
        fits_of_run alder pars 1 [1%nat] freqs2 start2 !! f = Some fit2 /\
        blocks !! f =
          Some [PrintFitHeader fit;
                PrintFitDiff fit1 fit "decay" 2 ("1-ref " +:+ name1) "2-ref";
                PrintFitDiff fit2 fit "decay" 2 ("1-ref " +:+ name2) "2-ref";
                PrintFitDiff fit2 fit1 "decay" 2 ("1-ref " +:+ name2) ("1-ref " +:+ name1);
                Cout endl].
Proof.
  intros Hw Hn Hc Hok.
  destruct (two_refs_run_full alder pars data Hw Hn Hc Hok)
    as (w & fsd & freqs1 & freqs2 & start1 & start2 & name1 & name2 & pre & blocks &
        fit & fit1 & fit2 & Hs & Hmax & Hq1 & Hq2 & Hs1 & Hs2 & Hn1 & Hn2 & _ & _ & _ &
        Hpre & Hlen & Hblocks & Htrace).
  exists w, fsd, freqs1, freqs2, start1, start2, name1, name2, pre, blocks.
  exists (RunAdmixtureTest fit fit1 fit2 (mixed_pop_name data) name1 name2 true 1%float).
  by split_and!.
Qed.

Lemma two_ref_decay_diffs_reported_witness :
  exists w fsd freqs1 freqs2 start1 start2 name1 name2 pre blocks test,
    let alder := Toy.toy 22 [0.5%float; 0.75%float] [] in
    let pars := Toy.pars None in
    let data := Toy.two_refs in
    subtract_freqs alder (ref_freqs data) 0 1 = ([], Ok w) /\
    max_element (fit_starts alder pars) = Some fsd /\
    ref_freqs data !! 0%nat = Some freqs1 /\ ref_freqs data !! 1%nat = Some freqs2 /\
    fit_starts alder pars !! 0%nat = Some start1 /\
    fit_starts alder pars !! 1%nat = Some start2 /\
    ref_pop_names data !! 0%nat = Some name1 /\
    ref_pop_names data !! 1%nat = Some name2 /\
    trace (main alder pars data) = pre ++ concat blocks ++ [test; PrintDataHeader] /\
    is_admixture_test test = true /\
    Forall (fun e => is_admixture_test e = false) pre /\
    length blocks = length (fits_of_run alder pars 2 [0%nat; 1%nat] w fsd) /\
    forall f fit, fits_of_run alder pars 2 [0%nat; 1%nat] w fsd !! f = Some fit ->
      exists fit1 fit2,
        fits_of_run alder pars 1 [0%nat] freqs1 start1 !! f = Some fit1 /\
        fits_of_run alder pars 1 [1%nat] freqs2 start2 !! f = Some fit2 /\
        blocks !! f =
          Some [PrintFitHeader fit;
                PrintFitDiff fit1 fit "decay" 2 ("1-ref " +:+ name1) "2-ref";
                PrintFitDiff fit2 fit "decay" 2 ("1-ref " +:+ name2) "2-ref";
                PrintFitDiff fit2 fit1 "decay" 2 ("1-ref " +:+ name2) ("1-ref " +:+ name1);
                Cout endl].
Proof.
  apply (two_ref_decay_diffs_reported (Toy.toy 22 [0.5%float; 0.75%float] [])
           (Toy.pars None) Toy.two_refs).
  - reflexivity.
  - reflexivity.
  - vm_compute. discriminate.
  - vm_compute. reflexivity.
Defined.

(** ** The fit start of a 2-ref curve *)

Section FitStart.

Context (alder : Alder) (pars : AlderParams) (data : Data).

Lemma outcome_idx_Ok {A} (v : list A) (i : nat) (x : A) :
  outcome (idx (alder := alder) v i) = Ok x -> v !! i = Some x.
Proof. unfold idx. destruct (v !! i); [|done]. by intros [= <-]. Qed.

Lemma outcome_deref_Ok {A} (o : option A) (x : A) :
  outcome (deref (alder := alder) o) = Ok x -> o = Some x.
Proof. destruct o; [|done]. by intros [= <-]. Qed.

Lemma one_or_two_refs_fit_start w n inds fs :
  Forall (fun x => is_nan x = false) fs ->
  Forall (fun e => forall inds' fsd, run_start e = Some (2, inds', fsd) ->
            max_element fs = Some fsd /\ fsd ∈ fs /\ Forall (fun y => le y fsd = true) fs)
         (trace (one_or_two_refs alder pars data w n inds fs)).
Proof.
  intros Hnan.
  unfold one_or_two_refs, two_ref_test, print_fit_diffs, fit_oneref, selected_fit, alder_run.
  repeat (trace_step; try done).
  all: intros inds' fsd [= -> <- <-].
  all: match goal with H : outcome (deref _) = Ok _ |- _ => apply outcome_deref_Ok in H end.
  all: split; [done|]; by apply max_element_is_max.
Qed.

Lemma multiple_refs_fit_start fs :
  Forall (fun x => is_nan x = false) fs ->
  Forall (fun e => forall inds fsd, run_start e = Some (2, inds, fsd) ->
            exists r1 r2 start1 start2,
              inds = [r1; r2] /\ fs !! r1 = Some start1 /\ fs !! r2 = Some start2 /\
              fsd = Double.max start1 start2 /\
              le start1 fsd = true /\ le start2 fsd = true /\
              (fsd = start1 \/ fsd = start2))
         (trace (multiple_refs alder pars data fs)).
Proof.
  intros Hnan.
  unfold multiple_refs, pretests, pairs_outer, pairs_inner, pair_test, summary_ref,
    pretest_ref, selected_fit, subtract_freqs, subtract_freqs_body, alder_run.
  repeat (trace_step; try done).
  intros inds fsd [= <- <-].
  repeat match goal with H : outcome (idx _ _) = Ok _ |- _ => apply outcome_idx_Ok in H end.
  match goal with
  | H1 : fs !! ?r1 = Some ?a, H2 : fs !! ?r2 = Some ?b |- context [Double.max ?a ?b] =>
      exists r1, r2, a, b;
      destruct (max_is_max a b) as (? & ? & ?);
      [ by eapply (proj1 (Forall_lookup _ _) Hnan)
      | by eapply (proj1 (Forall_lookup _ _) Hnan)
      | by split_and! ]
  end.
Qed.

End FitStart.

(** C9.  Every 2-ref curve is fitted from the maximum of the start
    distances of the references involved: with at most two reference
    populations [run] is given [max_element] of all the start distances
    that [find_ld_corr_stops] returned, which is one of them and bounds them
    all; with three or more, the test of the pair [r1], [r2] is given
    [max] of the start distances of [r1] and [r2].  The start distances are
    taken not to be NaN. *)
Theorem two_ref_fit_start_is_max (alder : Alder) (pars : AlderParams) (data : Data) :
  Forall (fun x => is_nan x = false) (fit_starts alder pars) ->
  Forall (fun e => forall inds fsd, run_start e = Some (2, inds, fsd) ->
            if (num_ref_freqs data <=? 2)%nat then
              max_element (fit_starts alder pars) = Some fsd /\
              fsd ∈ fit_starts alder pars /\
              Forall (fun y => le y fsd = true) (fit_starts alder pars)
            else
              exists r1 r2 start1 start2,
                inds = [r1; r2] /\
                fit_starts alder pars !! r1 = Some start1 /\
                fit_starts alder pars !! r2 = Some start2 /\
                fsd = Double.max start1 start2 /\
                le start1 fsd = true /\ le start2 fsd = true /\
                (fsd = start1 \/ fsd = start2))
         (trace (main alder pars data)).
Proof.
  intros Hnan. apply Forall_trace_main.
  - intros e He inds fsd Hr. by destruct e.
  - intros t w n inds _ _. unfold analysis.
    destruct (num_ref_freqs data <=? 2)%nat.
    + by apply one_or_two_refs_fit_start.
    + by apply multiple_refs_fit_start.
Qed.

Lemma two_ref_fit_start_is_max_witness :
  Forall (fun e => forall inds fsd, run_start e = Some (2, inds, fsd) ->
            exists r1 r2 start1 start2,
              inds = [r1; r2] /\
              [0.5%float; 0.75%float; 1%float] !! r1 = Some start1 /\
              [0.5%float; 0.75%float; 1%float] !! r2 = Some start2 /\
              fsd = Double.max start1 start2 /\
              le start1 fsd = true /\ le start2 fsd = true /\
              (fsd = start1 \/ fsd = start2))
         (trace (main (Toy.toy 22 [0.5%float; 0.75%float; 1%float] []) (Toy.pars None)
                   Toy.three_refs)).
Proof.
  apply (two_ref_fit_start_is_max (Toy.toy 22 [0.5%float; 0.75%float; 1%float] [])
           (Toy.pars None) Toy.three_refs).
  repeat constructor.
Defined.

(** ** Runs with fewer than two chromosomes, and runs with external weights *)

Section Degraded.

Context (alder : Alder) (pars : AlderParams) (data : Data).

(** With at most two reference populations [main] calls [fatalx] only in
    its configuration part. *)
Lemma main_not_fatal msg :
  ~ config_error pars data -> (num_ref_freqs data <= 2)%nat ->
  outcome (main alder pars data) <> Fatalx msg.
Proof.
  intros Hc Hn Hf. apply Hc.
  destruct (Z_gt_le_dec (mincount pars) (num_mixed_indivs data)) as [Hm|Hm]; [by left|].
  destruct (determine_refs alder pars data) as [t [[[w n] inds]|msg'|]] eqn:Ed.
  - rewrite (main_after_config alder pars data _ _ _ _ Hm Ed) in Hf.
    apply analysis_fatal in Hf. lia.
  - pose proof (determine_refs_spec alder pars data) as Hspec. rewrite Ed in Hspec.
    inversion Hspec; [by right; right | by right; left].
  - by rewrite (main_config_failed alder pars data _ _ Hm Ed) in Hf.
Qed.

Lemma main_Ok_or_Undefined :
  ~ config_error pars data -> (num_ref_freqs data <= 2)%nat ->
  outcome (main alder pars data) <> Undefined ->
  outcome (main alder pars data) = Ok tt.
Proof.
  intros Hc Hn Hu. destruct (outcome (main alder pars data)) as [[]|msg|] eqn:E; [done| |done].
  by apply main_not_fatal in E.
Qed.

(** Without two chromosomes, or without the genotypes of the references,
    lines 226-231 end the run with a message. *)
Lemma finished_without_test w inds fs t :
  one_or_two_refs alder pars data w 2 inds fs = (t, Ok tt) ->
  get_num_chroms_used alder < 2 \/ inds = [] ->
  exists fsd curve,
    max_element fs = Some fsd /\
    t = curve_trace alder pars 2 inds w fsd curve ++
        [Cout (if get_num_chroms_used alder <? 2
               then msg_need_chroms_2ref else msg_need_ref_genos)].
Proof.
  intros (fsd & curve & t_end & Hmax & _ & Hend & ->)%one_or_two_refs_Ok_inv Hor.
  exists fsd, curve. split; [done|]. f_equal.
  unfold after_curve in Hend. simpl in Hend.
  destruct (get_num_chroms_used alder <? 2) eqn:E.
  - by apply tell_Ok_inv in Hend.
  - destruct Hor as [?| ->]; [lia|]. by apply tell_Ok_inv in Hend.
Qed.

Lemma one_or_two_refs_few_chroms_no_test w n inds fs :
  get_num_chroms_used alder < 2 ->
  Forall (fun e => is_admixture_test e = false)
         (trace (one_or_two_refs alder pars data w n inds fs)).
Proof.
  intros Hc. unfold one_or_two_refs, alder_run.
  repeat (trace_step; try done; try lia).
Qed.

Lemma one_or_two_refs_no_inds_no_test w n fs :
  Forall (fun e => is_admixture_test e = false)
         (trace (one_or_two_refs alder pars data w n [] fs)).
Proof.
  unfold one_or_two_refs, alder_run.
  repeat (trace_step; try done).
Qed.

Lemma multiple_refs_few_chroms fs :
  get_num_chroms_used alder < 2 ->
  multiple_refs alder pars data fs = ([], Fatalx msg_need_chroms).
Proof.
  intros Hc. unfold multiple_refs.
  by destruct (get_num_chroms_used alder <? 2) eqn:E; [|lia].
Qed.

End Degraded.

Section DegradedRuns.

Context (alder : Alder) (pars : AlderParams) (data : Data).

Lemma curve_trace_has_run n inds w fsd curve :
  AlderRun n inds w (maxdis pars) (binsize pars) (mincount pars) (use_naive_algo pars) fsd
    ∈ curve_trace alder pars n inds w fsd curve.
Proof.
  unfold curve_trace. destruct (run alder _ _ _ _ _ _ _ _) as [[res fits] ind].
  apply list_elem_of_further, list_elem_of_here.
Qed.

Lemma config_trace_no_run t n :
  Forall (fun e => is_config_event e = true) t ->
  Forall (fun e => run_start e = None) (config_trace alder pars data t n).
Proof.
  intros Ht. eapply Forall_impl; [by apply config_trace_no_test|].
  intros e He. by destruct e.
Qed.

Lemma determine_refs_config_events t r :
  determine_refs alder pars data = (t, r) ->
  Forall (fun e => is_config_event e = true) t.
Proof.
  intros Hd. pose proof (determine_refs_spec alder pars data) as Hspec.
  rewrite Hd in Hspec. inversion Hspec; subst; by repeat constructor.
Qed.

(** The run of the 1-ref and 2-ref branch with fewer than two chromosomes. *)
Lemma few_chroms_at_most_two_refs :
  get_num_chroms_used alder < 2 -> ~ config_error pars data ->
  (num_ref_freqs data <= 2)%nat -> outcome (main alder pars data) <> Undefined ->
  outcome (main alder pars data) = Ok tt /\
  Forall (fun e => is_admixture_test e = false) (trace (main alder pars data)) /\
  (exists e, e ∈ trace (main alder pars data) /\ run_start e <> None) /\
  (weightname pars <> None \/ num_ref_freqs data = 2%nat ->
   last (trace (main alder pars data)) = Some (Cout msg_need_chroms_2ref)).
Proof.
  intros Hc Hcfg Hn Hu.
  pose proof (main_Ok_or_Undefined alder pars data Hcfg Hn Hu) as Hok.
  split; [done|].
  destruct (main_Ok_inv alder pars data Hok) as (Hm & t & w & n & inds & ta & Hd & Ha & ->).
  unfold analysis in Ha.
  destruct (num_ref_freqs data <=? 2)%nat eqn:E; [|apply Nat.leb_gt in E; lia].
  pose proof (one_or_two_refs_few_chroms_no_test alder pars data w n inds
                (fit_starts alder pars) Hc) as Hnt.
  rewrite Ha in Hnt. cbn [trace fst] in Hnt.
  split_and!.
  - apply Forall_app. split; [|done].
    eapply Forall_impl; [eapply config_trace_no_test, determine_refs_config_events; done|].
    intros e He. by destruct e.
  - pose proof Ha as (fsd & curve & t_end & _ & _ & _ & ->)%one_or_two_refs_Ok_inv.
    eexists. split.
    + apply elem_of_app. right. apply elem_of_app. left. apply curve_trace_has_run.
    + done.
  - intros Hor.
    assert (n = 2) as ->.
    { destruct (weightname pars) eqn:Ew.
      - rewrite determine_refs_weights in Hd by congruence. by injection Hd.
      - destruct Hor as [?|Hn2]; [done|].
        by destruct (determine_refs_two alder pars data _ _ _ _ Ew Hn2 Hd) as (_ & -> & _). }
    destruct (finished_without_test alder pars data _ _ _ _ Ha) as (fsd & curve & _ & ->);
      [by left|].
    rewrite !app_assoc, last_snoc.
    by destruct (get_num_chroms_used alder <? 2) eqn:E'; [|lia].
Qed.

(** The run of the branch for three or more references with fewer than two
    chromosomes. *)
Lemma few_chroms_many_refs :
  get_num_chroms_used alder < 2 -> ~ config_error pars data ->
  (2 < num_ref_freqs data)%nat ->
  outcome (main alder pars data) = Fatalx msg_need_chroms /\
  Forall (fun e => run_start e = None) (trace (main alder pars data)).
Proof.
  intros Hc Hcfg Hn.
  destruct (Z_gt_le_dec (mincount pars) (num_mixed_indivs data)) as [Hm|Hm].
  { destruct Hcfg. by left. }
  pose proof (determine_refs_spec alder pars data) as Hspec.
  destruct (determine_refs alder pars data) as [t r] eqn:Ed.
  pose proof (determine_refs_config_events _ _ Ed) as Ht.
  inversion Hspec; subst; try lia.
  - rewrite (main_after_config alder pars data _ _ _ _ Hm Ed).
    unfold analysis.
    destruct (num_ref_freqs data <=? 2)%nat eqn:E; [apply Nat.leb_le in E; lia|].
    rewrite multiple_refs_few_chroms by done. cbn [trace outcome fst snd].
    split; [done|]. rewrite app_nil_r. by apply config_trace_no_run.
  - rewrite (main_after_config alder pars data _ _ _ _ Hm Ed).
    unfold analysis.
    destruct (num_ref_freqs data <=? 2)%nat eqn:E; [apply Nat.leb_le in E; lia|].
    rewrite multiple_refs_few_chroms by done. cbn [trace outcome fst snd].
    split; [done|]. rewrite app_nil_r. by apply config_trace_no_run.
Qed.

End DegradedRuns.

(** C2, counterexample.  Three reference populations, one chromosome and a
    valid configuration: the run ends in [fatalx] and no curve is
    computed. *)
Lemma few_chroms_fatal_with_three_refs :
  get_num_chroms_used (Toy.toy 1 [0.5%float; 0.75%float; 1%float] []) < 2 /\
  ~ config_error (Toy.pars None) Toy.three_refs /\
  main (Toy.toy 1 [0.5%float; 0.75%float; 1%float] []) (Toy.pars None) Toy.three_refs =
    ([PrintHeader; Cout "*** Processing data ***"; CoutNumRefs 3;
      Cout "Form of ALDER to run: 3+ references (multiple admixture tests)";
      CoutTime "process data"; PrintHline; FindLdCorrStops 0.125%float true 0%float],
     Fatalx msg_need_chroms) /\
  ~ degrades_gracefully (Toy.toy 1 [0.5%float; 0.75%float; 1%float] [])
      (Toy.pars None) Toy.three_refs.
Proof.
  split_and!.
  - reflexivity.
  - intros [H|[(_ & H & _)|(_ & H)]]; vm_compute in H; discriminate H.
  - vm_compute. reflexivity.
  - intros (H & _). vm_compute in H. discriminate H.
Qed.

(** C2, as amended.  With fewer than two chromosomes and a valid
    configuration: with at most two reference populations the run is not
    aborted (it ends normally unless it runs into undefined behaviour), a
    curve is computed, no test for admixture is run, and in the 2-ref form
    (two references, or external weights) the run ends with the message
    that the test cannot be run; with three or more reference populations
    the run ends in [fatalx] before any weighted LD curve is computed. *)
Theorem few_chroms_outcome (alder : Alder) (pars : AlderParams) (data : Data) :
  get_num_chroms_used alder < 2 -> ~ config_error pars data ->
  ((num_ref_freqs data <= 2)%nat -> outcome (main alder pars data) <> Undefined ->
   outcome (main alder pars data) = Ok tt /\
   Forall (fun e => is_admixture_test e = false) (trace (main alder pars data)) /\
   (exists e, e ∈ trace (main alder pars data) /\ run_start e <> None) /\
   (weightname pars <> None \/ num_ref_freqs data = 2%nat ->
    last (trace (main alder pars data)) = Some (Cout msg_need_chroms_2ref))) /\
  ((2 < num_ref_freqs data)%nat ->
   outcome (main alder pars data) = Fatalx msg_need_chroms /\
   Forall (fun e => run_start e = None) (trace (main alder pars data))).
Proof.
  intros Hc Hcfg. split.
  - by apply few_chroms_at_most_two_refs.
  - by apply few_chroms_many_refs.
Qed.

Lemma few_chroms_outcome_witness :
  (outcome (main (Toy.toy 1 [0.5%float; 0.75%float] []) (Toy.pars None) Toy.two_refs) = Ok tt /\
   last (trace (main (Toy.toy 1 [0.5%float; 0.75%float] []) (Toy.pars None) Toy.two_refs))
     = Some (Cout msg_need_chroms_2ref)) /\
  outcome (main (Toy.toy 1 [0.5%float; 0.75%float; 1%float] []) (Toy.pars None) Toy.three_refs)
    = Fatalx msg_need_chroms.
Proof.
  assert (~ config_error (Toy.pars None) Toy.two_refs) as H2.
  { intros [H|[(_ & H & _)|(_ & H)]]; vm_compute in H; discriminate H. }
  assert (~ config_error (Toy.pars None) Toy.three_refs) as H3.
  { intros [H|[(_ & H & _)|(_ & H)]]; vm_compute in H; discriminate H. }
  split.
  - destruct (few_chroms_outcome (Toy.toy 1 [0.5%float; 0.75%float] []) (Toy.pars None)
                Toy.two_refs eq_refl H2) as [H _].
    destruct H as (Hok & _ & _ & Hlast).
    + vm_compute. lia.
    + vm_compute. discriminate.
    + split; [exact Hok|]. apply Hlast. right. reflexivity.
  - apply (few_chroms_outcome (Toy.toy 1 [0.5%float; 0.75%float; 1%float] []) (Toy.pars None)
             Toy.three_refs eq_refl H3).
    vm_compute. lia.
Defined.

(** C10, counterexample.  External weights, no reference population with
    genotype data and one chromosome: the run ends with the message about
    chromosomes, and the message about reference genotypes is not
    printed. *)
Lemma weights_run_one_chrom :
  weightname (Toy.pars (Some "weights.txt")) <> None /\
  num_ref_freqs Toy.no_refs = 0%nat /\
  main (Toy.toy 1 [0.5%float] []) (Toy.pars (Some "weights.txt")) Toy.no_refs =
    ([PrintHeader (alder := Toy.toy 1 [0.5%float] []); Cout "*** Processing data ***";
      Cout "Form of ALDER to run: 2-reference weighted LD";
      CoutTime "process data"; PrintHline; FindLdCorrStops 0.125%float true 0%float;
      PrintHline;
      AlderRun 2 [] [0.5%float; 0.25%float] 0.5%float 0.125%float 4 false 0.5%float;
      OutputCurveData (alder := Toy.toy 1 [0.5%float] []) tt;
      PlotAsciiCurve (alder := Toy.toy 1 [0.5%float] []) tt 0.5%float;
      PrintFit (alder := Toy.toy 1 [0.5%float] []) ([], 0%nat) false;
      PrintFit (alder := Toy.toy 1 [0.5%float] []) ([], 1%nat) false;
      PrintFit (alder := Toy.toy 1 [0.5%float] []) ([], 2%nat) false;
      CoutTime "run fits"; Cout msg_need_chroms_2ref],
     Ok tt) /\
  ~ weights_run_needs_ref_genos (Toy.toy 1 [0.5%float] []) (Toy.pars (Some "weights.txt"))
      Toy.no_refs.
Proof.
  split_and!.
  - discriminate.
  - reflexivity.
  - vm_compute. reflexivity.
  - intros (_ & _ & _ & H). vm_compute in H.
    repeat (apply elem_of_cons in H as [H|H]; [discriminate H|]).
    by apply elem_of_nil in H.
Qed.

(** C10, as amended.  With external weights and no reference population
    with genotype data, a run that gets past the check of [mincount] (and
    does not run into undefined behaviour) computes and fits the curve with
    [num_alder_refs = 2], runs no test for admixture, and ends with a
    message: that reference genotypes are needed when there are two
    chromosomes or more, and that two chromosomes are needed otherwise. *)
Theorem external_weights_run (alder : Alder) (pars : AlderParams) (data : Data) :
  weightname pars <> None -> num_ref_freqs data = 0%nat ->
  mincount pars <= num_mixed_indivs data ->
  outcome (main alder pars data) <> Undefined ->
  exists fsd curve,
    max_element (fit_starts alder pars) = Some fsd /\
    main alder pars data =
      (config_trace alder pars data [] 2 ++
       curve_trace alder pars 2 [] (process_weights data) fsd curve ++
       [Cout (if get_num_chroms_used alder <? 2
              then msg_need_chroms_2ref else msg_need_ref_genos)],
       Ok tt) /\
    AlderRun 2 [] (process_weights data) (maxdis pars) (binsize pars) (mincount pars)
             (use_naive_algo pars) fsd ∈ trace (main alder pars data) /\
    Forall (fun e => is_admixture_test e = false) (trace (main alder pars data)).
Proof.
  intros Hw Hn Hm Hu.
  assert (~ config_error pars data) as Hcfg.
  { intros [?|[(? & _)|(? & _)]]; [lia|done..]. }
  assert (outcome (main alder pars data) = Ok tt) as Hok.
  { apply main_Ok_or_Undefined; [done|lia|done]. }
  destruct (main_Ok_inv alder pars data Hok) as (_ & t & w & n & inds & ta & Hd & Ha & Ht).
  rewrite determine_refs_weights in Hd by done. injection Hd as <- <- <- <-.
  unfold analysis in Ha. rewrite Hn in Ha. simpl in Ha.
  pose proof (one_or_two_refs_no_inds_no_test alder pars data (process_weights data) 2
                (fit_starts alder pars)) as Hnt.
  rewrite Ha in Hnt. cbn [trace fst] in Hnt.
  destruct (finished_without_test alder pars data _ _ _ _ Ha) as (fsd & curve & Hmax & ->);
    [by right|].
  exists fsd, curve. split_and!; [done| | |].
  - rewrite (surjective_run (main alder pars data)), Hok, Ht. done.
  - rewrite Ht. apply elem_of_app. right. apply elem_of_app. left.
    apply curve_trace_has_run.
  - rewrite Ht. apply Forall_app. split; [|done].
    eapply Forall_impl; [apply config_trace_no_test; constructor|].
    intros e He. by destruct e.
Qed.

Lemma external_weights_run_witness :
  exists fsd curve,
    let alder := Toy.toy 22 [0.5%float] [] in
    let pars := Toy.pars (Some "weights.txt") in
    let data := Toy.no_refs in
    max_element (fit_starts alder pars) = Some fsd /\
    main alder pars data =
      (config_trace alder pars data [] 2 ++
       curve_trace alder pars 2 [] (process_weights data) fsd curve ++
       [Cout (if get_num_chroms_used alder <? 2
              then msg_need_chroms_2ref else msg_need_ref_genos)],
       Ok tt) /\
    AlderRun 2 [] (process_weights data) (maxdis pars) (binsize pars) (mincount pars)
             (use_naive_algo pars) fsd ∈ trace (main alder pars data) /\
    Forall (fun e => is_admixture_test e = false) (trace (main alder pars data)).
Proof.
  apply (external_weights_run (Toy.toy 22 [0.5%float] []) (Toy.pars (Some "weights.txt"))
           Toy.no_refs).
  - discriminate.
  - reflexivity.
  - vm_compute. discriminate.
  - vm_compute. discriminate.
Defined.

(** ** Three or more references: the pre-tests *)

Section Pretests.

Context (alder : Alder) (pars : AlderParams) (data : Data).

Local Abbreviation Fit := (ExpFitALD alder).
Local Abbreviation n_refs := (num_ref_freqs data).

Lemma pretested_same fs r st st' :
  same_entries alder st st' r -> pretested alder pars data fs r st -> pretested alder pars data fs r st'.
Proof.
  intros (Hh & Hf & Hi) (start & Hs & H). exists start. split; [done|].
  destruct (Double.eq start INFINITY); [by rewrite Hh|].
  destruct H as (freqs & fit & ? & ? & ? & ? & ?). exists freqs, fit.
  by rewrite Hh, Hf, Hi.
Qed.

Lemma pretest_ref_Ok_inv fs r st t st' :
  pretest_ref alder pars data fs r st = (t, Ok st') ->
  pretest_wf alder data st -> (r < n_refs)%nat ->
  pretest_wf alder data st' /\ pretested alder pars data fs r st' /\
  (forall r', r' <> r -> same_entries alder st st' r').
Proof.
  unfold pretest_ref. intros H (Hl1 & Hl2 & Hl3) Hr.
  apply bind_Ok_inv in H as (? & start & ? & [-> Hs]%idx_Ok_inv & H & ->).
  destruct (Double.eq start INFINITY) eqn:Einf.
  - apply ret_Ok_inv in H as [-> <-]. split_and!.
    + unfold pretest_wf. simpl. by rewrite length_insert.
    + exists start. split; [done|]. rewrite Einf. simpl.
      apply list_lookup_insert_eq. lia.
    + intros r' Hne. unfold same_entries. simpl.
      by rewrite list_lookup_insert_ne.
  - apply bind_Ok_inv in H as (? & ? & ? & ->%tell_Ok_inv & H & ->).
    apply bind_Ok_inv in H as (? & freqs & ? & [-> Hf]%idx_Ok_inv & H & ->).
    apply bind_Ok_inv in H as (? & ? & ? & [-> ->]%alder_run_Ok_inv & H & ->).
    pose proof (eq_refl : fits_of_run alder pars 1 [r] freqs start = _) as Efits.
    pose proof (eq_refl : test_ind_of_run alder pars 1 [r] freqs start = _) as Eind.
    unfold fits_of_run in Efits at 2. unfold test_ind_of_run in Eind at 2.
    destruct (run alder _ _ _ _ _ _ _ _) as [[res fits] ind]. simpl in Efits, Eind.
    apply bind_Ok_inv in H as (? & ? & ? & ->%tell_Ok_inv & H & ->).
    apply bind_Ok_inv in H as (? & ? & ? & ->%tell_Ok_inv & H & ->).
    apply bind_Ok_inv in H as (? & name & ? & [-> Hname]%idx_Ok_inv & H & ->).
    apply bind_Ok_inv in H as (? & ? & ? & ->%tell_Ok_inv & H & ->).
    apply bind_Ok_inv in H as (? & fit & ? & [-> Hfit]%idx_Ok_inv & H & ->).
    apply bind_Ok_inv in H as (? & ? & ? & ->%tell_Ok_inv & [-> <-]%ret_Ok_inv & ->).
    split_and!.
    + unfold pretest_wf. simpl. by rewrite !length_insert.
    + exists start. split; [done|]. rewrite Einf. exists freqs, fit. simpl.
      rewrite Efits, Eind. split_and!; try done; apply list_lookup_insert_eq; lia.
    + intros r' Hne. unfold same_entries. simpl.
      by rewrite !list_lookup_insert_ne.
Qed.

Lemma pretest_loop_Ok_inv fs lo k st t st' :
  for_loop (pretest_ref alder pars data fs) lo k st = (t, Ok st') ->
  pretest_wf alder data st -> (lo + k <= n_refs)%nat ->
  pretest_wf alder data st' /\
  (forall r, (lo <= r < lo + k)%nat -> pretested alder pars data fs r st') /\
  (forall r, (r < lo \/ lo + k <= r)%nat -> same_entries alder st st' r).
Proof.
  revert lo st t. induction k as [|k IH]; intros lo st t; simpl.
  - intros [-> <-]%ret_Ok_inv Hwf _. split_and!; [done| |done].
    intros r ?. lia.
  - intros (t1 & s1 & t2 & Hb & Hl & ->)%bind_Ok_inv Hwf Hle.
    destruct (pretest_ref_Ok_inv _ _ _ _ _ Hb Hwf) as (Hwf1 & Hp1 & Hs1); [lia|].
    destruct (IH _ _ _ Hl Hwf1) as (Hwf' & Hp' & Hs'); [lia|].
    split_and!; [done| |].
    + intros r Hr. destruct (decide (r = lo)) as [->|Hne].
      * eapply pretested_same; [apply Hs'; lia|done].
      * apply Hp'. lia.
    + intros r Hr. destruct (Hs1 r) as (? & ? & ?); [lia|].
      destruct (Hs' r) as (? & ? & ?); [lia|].
      unfold same_entries. split_and!; congruence.
Qed.

Lemma pretest_init_wf : pretest_wf alder data (pretest_init alder data).
Proof. unfold pretest_wf, pretest_init. simpl. by rewrite !length_replicate. Qed.

Lemma pretests_Ok_inv fs t st :
  pretests alder pars data fs = (t, Ok st) ->
  pretest_wf alder data st /\ (forall r, (r < n_refs)%nat -> pretested alder pars data fs r st).
Proof.
  unfold pretests. intros H.
  destruct (pretest_loop_Ok_inv _ _ _ _ _ _ H pretest_init_wf) as (Hwf & Hp & _); [lia|].
  split; [done|]. intros r Hr. apply Hp. lia.
Qed.

End Pretests.

(** ** Three or more references: the pairwise tests *)

Lemma eligible_refs_cons_true has lo k :
  has !! lo = Some true -> eligible_refs has lo (S k) = lo :: eligible_refs has (S lo) k.
Proof. intros H. unfold eligible_refs. simpl. by rewrite filter_cons_True. Qed.

Lemma eligible_refs_cons_false has lo k :
  has !! lo <> Some true -> eligible_refs has lo (S k) = eligible_refs has (S lo) k.
Proof. intros H. unfold eligible_refs. simpl. by rewrite filter_cons_False. Qed.

Lemma elem_of_eligible_refs has lo k r :
  r ∈ eligible_refs has lo k <-> (lo <= r < lo + k)%nat /\ has !! r = Some true.
Proof. unfold eligible_refs. rewrite list_elem_of_filter, elem_of_seq. tauto. Qed.

Lemma elem_of_eligible_pairs has n r1 r2 :
  (r1, r2) ∈ eligible_pairs has n <->
  (r1 < r2 < n)%nat /\ has !! r1 = Some true /\ has !! r2 = Some true.
Proof.
  unfold eligible_pairs. rewrite list_elem_of_bind. split.
  - intros (r & (r' & [= -> ->] & Hr2%elem_of_eligible_refs)%list_elem_of_fmap
              & Hr1%elem_of_eligible_refs).
    split_and!; [lia..|tauto|tauto].
  - intros (Hlt & H1 & H2). exists r1. split.
    + apply list_elem_of_fmap. exists r2. split; [done|].
      apply elem_of_eligible_refs. split; [lia|done].
    + apply elem_of_eligible_refs. split; [lia|done].
Qed.

Lemma NoDup_eligible_pairs has n : NoDup (eligible_pairs has n).
Proof.
  unfold eligible_pairs. apply NoDup_bind.
  - intros r1 r1' [a b] _ _ (? & [= -> ->] & _)%list_elem_of_fmap
      (? & [= -> ->] & _)%list_elem_of_fmap. done.
  - intros r1 _. apply NoDup_fmap_2; [by intros ? ? [= ->]|].
    apply NoDup_filter, NoDup_seq.
  - apply NoDup_filter, NoDup_seq.
Qed.

Section Pairs.

Context (alder : Alder) (pars : AlderParams) (data : Data).

Local Abbreviation Fit := (ExpFitALD alder).
Local Abbreviation n_refs := (num_ref_freqs data).

Lemma subtract_freqs_Ok_inv freqs r1 r2 t w :
  subtract_freqs alder freqs r1 r2 = (t, Ok w) -> t = [].
Proof.
  intros H. destruct (subtract_freqs_cases alder freqs r1 r2) as [[w' Hw]|Hu]; congruence.
Qed.

Lemma pair_test_Ok_inv fs st c r1 r2 t :
  pair_test alder pars data fs st c r1 r2 = (t, Ok tt) -> pair_trace alder pars data fs st c r1 r2 t.
Proof.
  unfold pair_test, pair_trace. intros H.
  apply bind_Ok_inv in H as (? & ? & ? & ->%tell_Ok_inv & H & ->).
  apply bind_Ok_inv in H as (? & start1 & ? & [-> Hs1]%idx_Ok_inv & H & ->).
  apply bind_Ok_inv in H as (? & start2 & ? & [-> Hs2]%idx_Ok_inv & H & ->).
  apply bind_Ok_inv in H as (tw & w & ? & Hw & H & ->).
  pose proof (subtract_freqs_Ok_inv _ _ _ _ _ Hw) as ->.
  apply bind_Ok_inv in H as (? & ? & ? & [-> ->]%alder_run_Ok_inv & H & ->).
  pose proof (eq_refl : fits_of_run alder pars 2 [r1; r2] w (Double.max start1 start2) = _)
    as Efits.
  pose proof (eq_refl : test_ind_of_run alder pars 2 [r1; r2] w (Double.max start1 start2) = _)
    as Eind.
  unfold fits_of_run in Efits at 2. unfold test_ind_of_run in Eind at 2.
  destruct (run alder _ _ _ _ _ _ _ _) as [[res fits] ind]. simpl in Efits, Eind.
  apply bind_Ok_inv in H as (? & curve & ? & [-> Hlast]%back_Ok_inv & H & ->).
  apply bind_Ok_inv in H as (? & ? & ? & ->%tell_Ok_inv & H & ->).
  apply bind_Ok_inv in H as (? & ? & ? & ->%tell_Ok_inv & H & ->).
  apply bind_Ok_inv in H as (? & ? & ? & ->%tell_Ok_inv & H & ->).
  apply bind_Ok_inv in H as (? & fit & ? & [-> Hfit]%idx_Ok_inv & H & ->).
  apply bind_Ok_inv in H as (t1 & fit1 & ? & Hf1 & H & ->).
  apply bind_Ok_inv in H as (t2 & fit2 & ? & Hf2 & H & ->).
  apply bind_Ok_inv in H as (? & name1 & ? & [-> Hn1]%idx_Ok_inv & H & ->).
  apply bind_Ok_inv in H as (? & name2 & ? & [-> Hn2]%idx_Ok_inv & ->%tell_Ok_inv & ->).
  assert (t1 = []) as -> by (by pose proof Hf1 as (? & ? & _ & _ & _ & ->)%selected_fit_Ok_inv).
  assert (t2 = []) as -> by (by pose proof Hf2 as (? & ? & _ & _ & _ & ->)%selected_fit_Ok_inv).
  exists start1, start2, w, curve, fit, fit1, fit2, name1, name2.
  rewrite Efits, Eind. by split_and!.
Qed.

Lemma pairs_inner_loop_Ok_inv fs st c r1 lo k t :
  for_loop (pairs_inner alder pars data fs st c r1) lo k tt = (t, Ok tt) ->
  exists ts, t = concat ts /\
    Forall2 (fun r2 t2 => pair_trace alder pars data fs st c r1 r2 t2)
            (eligible_refs (has_oneref_curve st) lo k) ts.
Proof.
  revert lo t. induction k as [|k IH]; intros lo t; simpl.
  - intros [-> _]%ret_Ok_inv. exists []. split; [done|]. constructor.
  - intros (t1 & [] & t2 & Hb & (ts & -> & Hts)%IH & ->)%bind_Ok_inv.
    unfold pairs_inner in Hb.
    apply bind_Ok_inv in Hb as (? & has2 & tb & [-> Hh]%idx_Ok_inv & Hb & ->).
    destruct has2; simpl in Hb.
    + rewrite eligible_refs_cons_true by done.
      exists (tb :: ts). split; [done|]. constructor; [|done].
      by apply pair_test_Ok_inv.
    + rewrite eligible_refs_cons_false by congruence.
      apply ret_Ok_inv in Hb as [-> _]. by exists ts.
Qed.

Lemma pairs_outer_loop_Ok_inv fs st c lo k t :
  for_loop (pairs_outer alder pars data fs st c) lo k tt = (t, Ok tt) ->
  exists ts, t = concat ts /\
    Forall2 (fun '(r1, r2) t2 => pair_trace alder pars data fs st c r1 r2 t2)
            (r1 ← eligible_refs (has_oneref_curve st) lo k;
             pair r1 <$> eligible_refs (has_oneref_curve st) (S r1) (n_refs - S r1)) ts.
Proof.
  revert lo t. induction k as [|k IH]; intros lo t; simpl.
  - intros [-> _]%ret_Ok_inv. exists []. split; [done|]. constructor.
  - intros (t1 & [] & t2 & Hb & (ts & -> & Hts)%IH & ->)%bind_Ok_inv.
    unfold pairs_outer in Hb.
    apply bind_Ok_inv in Hb as (? & has1 & tb & [-> Hh]%idx_Ok_inv & Hb & ->).
    destruct has1; simpl in Hb.
    + rewrite eligible_refs_cons_true by done. rewrite bind_cons.
      apply pairs_inner_loop_Ok_inv in Hb as (ts1 & -> & Hts1).
      exists (ts1 ++ ts). split; [by rewrite concat_app|].
      apply Forall2_app; [|done]. by apply Forall2_fmap_l.
    + rewrite eligible_refs_cons_false by congruence.
      apply ret_Ok_inv in Hb as [-> _]. by exists ts.
Qed.

End Pairs.

Section MultipleRefs.

Context (alder : Alder) (pars : AlderParams) (data : Data).

Local Abbreviation n_refs := (num_ref_freqs data).

Lemma pretests_quiet fs : Forall (quiet alder) (trace (pretests alder pars data fs)).
Proof.
  unfold pretests, pretest_ref, alder_run.
  repeat (trace_step; try done).
Qed.

Lemma summary_quiet fs st :
  Forall (quiet alder) (trace (for_loop (summary_ref alder data fs st) 0 n_refs tt)).
Proof.
  unfold summary_ref, selected_fit.
  repeat (trace_step; try done).
Qed.

Lemma quiet_filter_test t : Forall (quiet alder) t -> List.filter is_admixture_test t = [].
Proof. intros H. apply filter_none. eapply Forall_impl; [done|]. by intros e []. Qed.

Lemma quiet_filter_run t : Forall (quiet alder) t -> List.filter is_two_ref_run t = [].
Proof. intros H. apply filter_none. eapply Forall_impl; [done|]. by intros e []. Qed.

Lemma config_event_quiet t :
  Forall (fun e : Event alder => is_config_event e = true) t -> Forall (quiet alder) t.
Proof. intros H. eapply Forall_impl; [done|]. intros e He. by destruct e. Qed.

Lemma multiple_refs_Ok_inv fs t :
  multiple_refs alder pars data fs = (t, Ok tt) ->
  2 <= get_num_chroms_used alder /\
  exists st t_pre head ts,
    pretests alder pars data fs = (t_pre, Ok st) /\
    Forall (quiet alder) head /\
    ComputeMultHypCorr (replicate n_refs true) ∈ head /\
    Forall2 (fun '(r1, r2) t2 =>
               pair_trace alder pars data fs st
                 (compute_mult_hyp_corr alder (replicate n_refs true)) r1 r2 t2)
            (eligible_pairs (has_oneref_curve st) n_refs) ts /\
    t = head ++ concat ts.
Proof.
  unfold multiple_refs. intros H.
  apply bind_Ok_inv in H as (? & ? & ? & Hc & H & ->).
  destruct (get_num_chroms_used alder <? 2) eqn:E; [done|].
  apply ret_Ok_inv in Hc as [-> _].
  apply bind_Ok_inv in H as (? & ? & ? & ->%tell_Ok_inv & H & ->).
  apply bind_Ok_inv in H as (t_pre & st & ? & Hpre & H & ->).
  apply bind_Ok_inv in H as (? & ? & ? & ->%tell_Ok_inv & H & ->).
  apply bind_Ok_inv in H as (t_sum & [] & ? & Hsum & H & ->).
  apply bind_Ok_inv in H as (? & ? & ? & ->%tell_Ok_inv & H & ->).
  apply bind_Ok_inv in H as (? & ? & ? & ->%tell_Ok_inv & H & ->).
  apply bind_Ok_inv in H as (? & ? & ? & ->%tell_Ok_inv & H & ->).
  apply pairs_outer_loop_Ok_inv in H as (ts & -> & Hts).
  split; [lia|].
  pose proof (pretests_quiet fs) as Hq1. rewrite Hpre in Hq1.
  pose proof (summary_quiet fs st) as Hq2. rewrite Hsum in Hq2.
  cbn [trace fst] in Hq1, Hq2.
  exists st, t_pre.
  exists ([PrintHline; Cout "*** Running 1-ref pre-tests ***"] ++ t_pre ++
          [PrintHline; Cout "*** Summary of 1-ref pre-test results ***";
           Cout ("Pre-test: Does " +:+ mixed_pop_name data +:+
                 " have a 1-ref weighted LD curve with...")] ++ t_sum ++
          [Cout endl; ComputeMultHypCorr (replicate n_refs true);
           PrintHline; PrintDataHeader]), ts.
  split_and!; [done| | |done|].
  - rewrite !Forall_app. split_and!; try done;
      repeat apply Forall_cons_2; try apply Forall_nil_2; by split.
  - rewrite !elem_of_app. do 4 right. apply list_elem_of_further, list_elem_of_here.
  - by list_norm.
Qed.

(** A run with three or more references that ends normally. *)
Lemma multiple_refs_run :
  (2 < n_refs)%nat -> outcome (main alder pars data) = Ok tt ->
  exists st t_pre head ts,
    pretests alder pars data (fit_starts alder pars) = (t_pre, Ok st) /\
    Forall (quiet alder) head /\
    ComputeMultHypCorr (replicate n_refs true) ∈ head /\
    Forall2 (fun '(r1, r2) t2 =>
               pair_trace alder pars data (fit_starts alder pars) st
                 (compute_mult_hyp_corr alder (replicate n_refs true)) r1 r2 t2)
            (eligible_pairs (has_oneref_curve st) n_refs) ts /\
    trace (main alder pars data) = head ++ concat ts.
Proof.
  intros Hn (Hm & t & w & n & inds & ta & Hd & Ha & ->)%main_Ok_inv.
  unfold analysis in Ha.
  destruct (num_ref_freqs data <=? 2)%nat eqn:E; [apply Nat.leb_le in E; lia|].
  apply multiple_refs_Ok_inv in Ha
    as (_ & st & t_pre & head & ts & Hpre & Hq & Hin & Hts & ->).
  exists st, t_pre, (config_trace alder pars data t n ++ head), ts.
  split_and!; [done| | |done|by rewrite app_assoc].
  - apply Forall_app. split; [|done].
    apply config_event_quiet, config_trace_no_test.
    by eapply determine_refs_many.
  - apply elem_of_app. by right.
Qed.

End MultipleRefs.

Section PairwiseTests.

Context (alder : Alder) (pars : AlderParams) (data : Data).

Local Abbreviation n_refs := (num_ref_freqs data).

Lemma print_fits_quiet (fits : list (ExpFitALD alder)) (jk : bool) :
  Forall (quiet alder) ((fun f => PrintFit f jk) <$> fits).
Proof. apply Forall_fmap, Forall_forall. by intros f _. Qed.

Lemma pair_trace_filter_test fs st c r1 r2 t :
  pair_trace alder pars data fs st c r1 r2 t ->
  exists e, List.filter is_admixture_test t = [e] /\ pair_test_event alder data st r1 r2 e.
Proof.
  intros (start1 & start2 & w & curve & fit & fit1 & fit2 & name1 & name2 &
          _ & _ & _ & _ & Hf1 & Hf2 & Hn1 & Hn2 & ->).
  eexists. split.
  - rewrite !List.filter_app, (quiet_filter_test alder _ (print_fits_quiet _ _)). simpl. done.
  - by exists fit, fit1, fit2, name1, name2, c.
Qed.

Lemma pair_trace_filter_run fs st c r1 r2 t :
  pair_trace alder pars data fs st c r1 r2 t ->
  exists e fsd, List.filter is_two_ref_run t = [e] /\ run_start e = Some (2, [r1; r2], fsd).
Proof.
  intros (start1 & start2 & w & curve & fit & fit1 & fit2 & name1 & name2 &
          _ & _ & _ & _ & _ & _ & _ & _ & ->).
  eexists _, _. split.
  - rewrite !List.filter_app, (quiet_filter_run alder _ (print_fits_quiet _ _)). simpl. done.
  - done.
Qed.

Lemma pairs_filter_test fs st c pairs ts :
  Forall2 (fun '(r1, r2) t2 => pair_trace alder pars data fs st c r1 r2 t2) pairs ts ->
  Forall2 (fun '(r1, r2) e => pair_test_event alder data st r1 r2 e) pairs
          (List.filter is_admixture_test (concat ts)).
Proof.
  induction 1 as [|[r1 r2] t2 pairs ts Ht _ IH]; simpl; [constructor|].
  apply pair_trace_filter_test in Ht as (e & He & Hev).
  rewrite List.filter_app, He. by constructor.
Qed.

Lemma pairs_filter_run fs st c pairs ts :
  Forall2 (fun '(r1, r2) t2 => pair_trace alder pars data fs st c r1 r2 t2) pairs ts ->
  Forall2 (fun '(r1, r2) e => exists fsd, run_start e = Some (2, [r1; r2], fsd)) pairs
          (List.filter is_two_ref_run (concat ts)).
Proof.
  induction 1 as [|[r1 r2] t2 pairs ts Ht _ IH]; simpl; [constructor|].
  apply pair_trace_filter_run in Ht as (e & fsd & He & Hev).
  rewrite List.filter_app, He. constructor; [by exists fsd|done].
Qed.

Lemma pair_trace_filter_correction fs st c r1 r2 t :
  pair_trace alder pars data fs st c r1 r2 t ->
  exists e, List.filter is_admixture_test t = [e] /\ test_correction e = Some (false, c).
Proof.
  intros (start1 & start2 & w & curve & fit & fit1 & fit2 & name1 & name2 &
          _ & _ & _ & _ & _ & _ & _ & _ & ->).
  eexists. split.
  - rewrite !List.filter_app, (quiet_filter_test alder _ (print_fits_quiet _ _)). simpl. done.
  - done.
Qed.

Lemma pairs_filter_correction fs st c pairs ts :
  Forall2 (fun '(r1, r2) t2 => pair_trace alder pars data fs st c r1 r2 t2) pairs ts ->
  Forall2 (fun (_ : nat * nat) e => test_correction e = Some (false, c)) pairs
          (List.filter is_admixture_test (concat ts)).
Proof.
  induction 1 as [|[r1 r2] t2 pairs ts Ht _ IH]; simpl; [constructor|].
  apply pair_trace_filter_correction in Ht as (e & He & Hev).
  rewrite List.filter_app, He. by constructor.
Qed.

End PairwiseTests.

(** C4.  With at most two reference populations every call of
    [run_admixture_test] is made with the flag [true] and the correction
    factor [1.0]; a run with exactly two references (and no external
    weights) that has two chromosomes or more and ends normally makes
    exactly one such call.  With three or more references every call is
    made with the flag [false] and the factor that [compute_mult_hyp_corr]
    returns for the vector of [num_ref_freqs] flags [true]; a run that ends
    normally computes that factor and makes one such call for every pair of
    references that the pre-tests left marked, and no other. *)
Theorem admixture_test_correction (alder : Alder) (pars : AlderParams) (data : Data) :
  ((num_ref_freqs data <= 2)%nat ->
   Forall (fun e => forall c, test_correction e = Some c -> c = (true, 1%float))
          (trace (main alder pars data))) /\
  (weightname pars = None -> num_ref_freqs data = 2%nat ->
   2 <= get_num_chroms_used alder -> outcome (main alder pars data) = Ok tt ->
   exists e, List.filter is_admixture_test (trace (main alder pars data)) = [e] /\
             test_correction e = Some (true, 1%float)) /\
  ((2 < num_ref_freqs data)%nat ->
   Forall (fun e => forall c, test_correction e = Some c ->
             c = (false, compute_mult_hyp_corr alder (replicate (num_ref_freqs data) true)))
          (trace (main alder pars data))) /\
  ((2 < num_ref_freqs data)%nat -> outcome (main alder pars data) = Ok tt ->
   exists st,
     outcome (pretests alder pars data (fit_starts alder pars)) = Ok st /\
     ComputeMultHypCorr (replicate (num_ref_freqs data) true)
       ∈ trace (main alder pars data) /\
     Forall2 (fun (_ : nat * nat) e =>
                test_correction e
                = Some (false,
                        compute_mult_hyp_corr alder (replicate (num_ref_freqs data) true)))
             (eligible_pairs (has_oneref_curve st) (num_ref_freqs data))
             (List.filter is_admixture_test (trace (main alder pars data)))).
Proof.
  split_and!.
  - intros Hn. apply Forall_trace_main.
    + intros e He c Hc. by destruct e.
    + intros t w n inds _ _. unfold analysis.
      destruct (num_ref_freqs data <=? 2)%nat eqn:E; [|apply Nat.leb_gt in E; lia].
      apply one_or_two_refs_correction.
  - intros Hw Hn Hc Hok.
    destruct (two_refs_run_full alder pars data Hw Hn Hc Hok)
      as (w & fsd & freqs1 & freqs2 & start1 & start2 & name1 & name2 & pre & blocks &
          fit & fit1 & fit2 & _ & _ & _ & _ & _ & _ & Hn1 & Hn2 & _ & _ & _ & Hpre & Hlen &
          Hblocks & ->).
    exists (RunAdmixtureTest fit fit1 fit2 (mixed_pop_name data) name1 name2 true 1%float).
    split; [|reflexivity].
    rewrite !List.filter_app, (filter_none _ _ Hpre). simpl.
    rewrite filter_none; [done|].
    apply Forall_concat, Forall_forall. intros block [f Hf]%list_elem_of_lookup.
    destruct (lookup_lt_is_Some_2 (fits_of_run alder pars 2 [0%nat; 1%nat] w fsd) f)
      as [fit' Hfit'].
    { rewrite <- Hlen. by eapply lookup_lt_Some. }
    destruct (Hblocks f fit' Hfit') as (fit1' & fit2' & _ & _ & Hb).
    assert (block = diff_block alder fit' fit1' fit2' name1 name2) as -> by congruence.
    by repeat constructor.
  - intros Hn. apply Forall_trace_main.
    + intros e He c Hc. by destruct e.
    + intros t w n inds _ _. unfold analysis.
      destruct (num_ref_freqs data <=? 2)%nat eqn:E; [apply Nat.leb_le in E; lia|].
      apply multiple_refs_correction.
  - intros Hn Hok.
    destruct (multiple_refs_run alder pars data Hn Hok)
      as (st & t_pre & head & ts & Hpre & Hq & Hin & Hts & ->).
    exists st. split_and!.
    + by rewrite Hpre.
    + apply elem_of_app. by left.
    + rewrite List.filter_app, (quiet_filter_test alder _ Hq). simpl.
      by eapply pairs_filter_correction.
Qed.

Lemma admixture_test_correction_witness :
  Forall (fun e => forall c, test_correction e = Some c -> c = (true, 1%float))
         (trace (main (Toy.toy 22 [0.5%float; 0.75%float] []) (Toy.pars None) Toy.two_refs)) /\
  (exists e,
     List.filter is_admixture_test
       (trace (main (Toy.toy 22 [0.5%float; 0.75%float] []) (Toy.pars None) Toy.two_refs)) = [e] /\
     test_correction e = Some (true, 1%float)) /\
  Forall (fun e => forall c, test_correction e = Some c ->
            c = (false, compute_mult_hyp_corr Toy.alder4 (replicate 4 true)))
         (trace (main Toy.alder4 (Toy.pars None) Toy.four_refs)) /\
  (exists st,
     outcome (pretests Toy.alder4 (Toy.pars None) Toy.four_refs
                (fit_starts Toy.alder4 (Toy.pars None))) = Ok st /\
     ComputeMultHypCorr (replicate 4 true)
       ∈ trace (main Toy.alder4 (Toy.pars None) Toy.four_refs) /\
     Forall2 (fun (_ : nat * nat) e =>
                test_correction e
                = Some (false, compute_mult_hyp_corr Toy.alder4 (replicate 4 true)))
             (eligible_pairs (has_oneref_curve st) 4)
             (List.filter is_admixture_test
                (trace (main Toy.alder4 (Toy.pars None) Toy.four_refs)))).
Proof.
  split_and!.
  - apply (admixture_test_correction (Toy.toy 22 [0.5%float; 0.75%float] [])
             (Toy.pars None) Toy.two_refs).
    vm_compute. lia.
  - apply (admixture_test_correction (Toy.toy 22 [0.5%float; 0.75%float] [])
             (Toy.pars None) Toy.two_refs).
    + reflexivity.
    + reflexivity.
    + vm_compute. discriminate.
    + vm_compute. reflexivity.
  - apply (admixture_test_correction Toy.alder4 (Toy.pars None) Toy.four_refs).
    vm_compute. lia.
  - apply (admixture_test_correction Toy.alder4 (Toy.pars None) Toy.four_refs).
    + vm_compute. lia.
    + vm_compute. reflexivity.
Defined.

(** C5.  In a run with three or more references that ends normally, the
    calls of [run_admixture_test], in order, are in one-to-one
    correspondence with the pairs [r1 < r2] of references that are both
    marked as having a 1-ref curve after the pre-tests, and so are the fits
    of 2-ref curves ([run] with two references).  The list of these pairs
    has no duplicates.  A reference is marked by the pre-test as [pretested]
    says: not marked when its start distance is infinite, and otherwise
    marked with the verdict of [test_and_print_oneref_curve]; a reference
    that is not marked is in no pair. *)
Theorem pairwise_tests_of_eligible_refs (alder : Alder) (pars : AlderParams) (data : Data) :
  (2 < num_ref_freqs data)%nat -> outcome (main alder pars data) = Ok tt ->
  exists st pairs,
    outcome (pretests alder pars data (fit_starts alder pars)) = Ok st /\
    (forall r, (r < num_ref_freqs data)%nat ->
       pretested alder pars data (fit_starts alder pars) r st) /\
    NoDup pairs /\
    (forall r1 r2, (r1, r2) ∈ pairs <->
       (r1 < r2 < num_ref_freqs data)%nat /\
       has_oneref_curve st !! r1 = Some true /\ has_oneref_curve st !! r2 = Some true) /\
    Forall2 (fun '(r1, r2) e => pair_test_event alder data st r1 r2 e) pairs
            (List.filter is_admixture_test (trace (main alder pars data))) /\
    Forall2 (fun '(r1, r2) e => exists fsd, run_start e = Some (2, [r1; r2], fsd)) pairs
            (List.filter is_two_ref_run (trace (main alder pars data))).
Proof.
  intros Hn Hok.
  destruct (multiple_refs_run alder pars data Hn Hok)
    as (st & t_pre & head & ts & Hpre & Hq & _ & Hts & ->).
  exists st, (eligible_pairs (has_oneref_curve st) (num_ref_freqs data)).
  split_and!.
  - by rewrite Hpre.
  - by apply pretests_Ok_inv in Hpre as [_ ?].
  - apply NoDup_eligible_pairs.
  - apply elem_of_eligible_pairs.
  - rewrite List.filter_app, (quiet_filter_test alder _ Hq). simpl.
    by eapply pairs_filter_test.
  - rewrite List.filter_app, (quiet_filter_run alder _ Hq). simpl.
    by eapply pairs_filter_run.
Qed.

Lemma pairwise_tests_of_eligible_refs_witness :
  exists st pairs,
    outcome (pretests Toy.alder4 (Toy.pars None) Toy.four_refs
               (fit_starts Toy.alder4 (Toy.pars None))) = Ok st /\
    (forall r, (r < num_ref_freqs Toy.four_refs)%nat ->
       pretested Toy.alder4 (Toy.pars None) Toy.four_refs
         (fit_starts Toy.alder4 (Toy.pars None)) r st) /\
    NoDup pairs /\
    (forall r1 r2, (r1, r2) ∈ pairs <->
       (r1 < r2 < num_ref_freqs Toy.four_refs)%nat /\
       has_oneref_curve st !! r1 = Some true /\ has_oneref_curve st !! r2 = Some true) /\
    Forall2 (fun '(r1, r2) e => pair_test_event Toy.alder4 Toy.four_refs st r1 r2 e) pairs
            (List.filter is_admixture_test
               (trace (main Toy.alder4 (Toy.pars None) Toy.four_refs))) /\
    Forall2 (fun '(r1, r2) e => exists fsd, run_start e = Some (2, [r1; r2], fsd)) pairs
            (List.filter is_two_ref_run
               (trace (main Toy.alder4 (Toy.pars None) Toy.four_refs))).
Proof.
  apply (pairwise_tests_of_eligible_refs Toy.alder4 (Toy.pars None) Toy.four_refs).
  - vm_compute. lia.
  - vm_compute. reflexivity.
Defined.

Example four_refs_tests :
  List.filter is_admixture_test
    (trace (main Toy.alder4 (Toy.pars None) Toy.four_refs)) =
  [RunAdmixtureTest (alder := Toy.alder4)
     ([0%nat; 3%nat], 1%nat) ([0%nat], 1%nat) ([3%nat], 1%nat) "Mix" "A" "D" false 6%float].
Proof. vm_compute. reflexivity. Qed.

(** ** The multiple-hypothesis correction *)

(** C1, counterexample.  Four references, of which the second has an
    infinite start distance and the third fails its pre-test: the marks are
    [true; false; false; true], but [compute_mult_hyp_corr] is given
    [true; true; true; true], and the one pairwise test is run with the
    factor for six pairs. *)
Lemma correction_ignores_pretests :
  (exists st,
     outcome (pretests Toy.alder4 (Toy.pars None) Toy.four_refs
                (fit_starts Toy.alder4 (Toy.pars None))) = Ok st /\
     has_oneref_curve st = [true; false; false; true]) /\
  ComputeMultHypCorr [true; true; true; true]
    ∈ trace (main Toy.alder4 (Toy.pars None) Toy.four_refs) /\
  compute_mult_hyp_corr Toy.alder4 [true; true; true; true] = 6%float /\
  compute_mult_hyp_corr Toy.alder4 [true; false; false; true] = 1%float /\
  ~ correction_from_eligible_refs Toy.alder4 (Toy.pars None) Toy.four_refs.
Proof.
  assert (ComputeMultHypCorr [true; true; true; true]
            ∈ trace (main Toy.alder4 (Toy.pars None) Toy.four_refs)) as Hin.
  { vm_compute. repeat first [apply list_elem_of_here | apply list_elem_of_further]. }
  split_and!.
  - eexists. split; [vm_compute; reflexivity|reflexivity].
  - exact Hin.
  - vm_compute. reflexivity.
  - vm_compute. reflexivity.
  - intros H. specialize (H _ eq_refl).
    apply (proj1 (Forall_forall _ _)) with (x := ComputeMultHypCorr [true; true; true; true])
      in H; [|exact Hin].
    destruct H as [H _]. specialize (H _ eq_refl). vm_compute in H. discriminate H.
Qed.

Section Correction1.

Context (alder : Alder) (pars : AlderParams) (data : Data).

Lemma multiple_refs_flags fs :
  Forall (fun e =>
            (forall flags, e = ComputeMultHypCorr flags ->
               flags = replicate (num_ref_freqs data) true) /\
            (forall c, test_correction e = Some c ->
               c.2 = compute_mult_hyp_corr alder (replicate (num_ref_freqs data) true)))
         (trace (multiple_refs alder pars data fs)).
Proof.
  unfold multiple_refs, pretests, pairs_outer, pairs_inner, pair_test, summary_ref,
    pretest_ref, selected_fit, subtract_freqs, subtract_freqs_body, alder_run.
  repeat (trace_step; try done).
  - split; [by intros flags [= <-]|done].
  - split; [done|by intros c [= <-]].
Qed.

End Correction1.

(** C1, as amended.  With three or more references, [compute_mult_hyp_corr]
    is given a vector with one [true] per reference population with
    genotype data, whatever the pre-tests found, and every pairwise test is
    run with the factor computed from that vector: the factor depends on
    the number of references only.  A run that ends normally makes that
    call. *)
Theorem correction_from_all_refs (alder : Alder) (pars : AlderParams) (data : Data) :
  (2 < num_ref_freqs data)%nat ->
  Forall (fun e =>
            (forall flags, e = ComputeMultHypCorr flags ->
               flags = replicate (num_ref_freqs data) true) /\
            (forall c, test_correction e = Some c ->
               c.2 = compute_mult_hyp_corr alder (replicate (num_ref_freqs data) true)))
         (trace (main alder pars data)) /\
  (outcome (main alder pars data) = Ok tt ->
   ComputeMultHypCorr (replicate (num_ref_freqs data) true) ∈ trace (main alder pars data)).
Proof.
  intros Hn. split.
  - apply Forall_trace_main.
    + intros e He. by destruct e.
    + intros t w n inds _ _. unfold analysis.
      destruct (num_ref_freqs data <=? 2)%nat eqn:E; [apply Nat.leb_le in E; lia|].
      apply multiple_refs_flags.
  - intros Hok.
    destruct (multiple_refs_run alder pars data Hn Hok)
      as (st & t_pre & head & ts & _ & _ & Hin & _ & ->).
    apply elem_of_app. by left.
Qed.

Lemma correction_from_all_refs_witness :
  Forall (fun e =>
            (forall flags, e = ComputeMultHypCorr flags -> flags = replicate 4 true) /\
            (forall c, test_correction e = Some c ->
               c.2 = compute_mult_hyp_corr Toy.alder4 (replicate 4 true)))
         (trace (main Toy.alder4 (Toy.pars None) Toy.four_refs)) /\
  ComputeMultHypCorr (replicate 4 true) ∈ trace (main Toy.alder4 (Toy.pars None) Toy.four_refs).
Proof.
  destruct (correction_from_all_refs Toy.alder4 (Toy.pars None) Toy.four_refs) as [H1 H2].
  - vm_compute. lia.
  - split; [exact H1|]. apply H2. vm_compute. reflexivity.
Defined.

(** ** The single-reference verdict *)




(** * Further properties of the driver *)

(** ** All the fatal exits *)

(** X1.  [main] ends in [fatalx] in exactly four ways, tried in this order:
    [mincount] above the number of mixed individuals; no external weights
    and no reference population with genotype data; no external weights,
    one reference population and [mincount < 4]; three or more reference
    populations and fewer than two chromosomes.  Each has its own
    message. *)
Theorem main_fatal_exits (alder : Alder) (pars : AlderParams) (data : Data) (msg : string) :
  outcome (main alder pars data) = Fatalx msg <-> fatal_exit alder pars data msg.
Proof.
  unfold fatal_exit.
  destruct (Z_gt_le_dec (mincount pars) (num_mixed_indivs data)) as [Hm|Hm].
  { rewrite (main_mincount_failed alder pars data Hm). simpl. split.
    - intros [= <-]. by left.
    - intros [[-> _]|[(_ & ? & _)|[(_ & ? & _)|(_ & ? & _)]]]; [done|lia..]. }
  pose proof (determine_refs_spec alder pars data) as Hspec.
  destruct (determine_refs alder pars data) as [t r] eqn:Ed.
  assert (forall w n inds, r = Ok (w, n, inds) ->
            ~ (weightname pars = None /\ num_ref_freqs data = 0%nat) /\
            ~ (weightname pars = None /\ num_ref_freqs data = 1%nat /\ mincount pars < 4))
    as Hno.
  { intros w n inds ->. inversion Hspec; subst; split; intros ?; try tauto; try lia;
      destruct_and?; congruence || lia. }
  destruct r as [[[w n] inds]|msg'|].
  - rewrite (main_after_config alder pars data _ _ _ _ Hm Ed). cbn [outcome snd].
    destruct (Hno _ _ _ eq_refl) as [Hn0 Hn1]. split.
    + intros (-> & Hc & Hn)%analysis_fatal. do 3 right. by split_and!.
    + intros [[_ ?]|[(_ & _ & ? & ?)|[(_ & _ & ? & ? & ?)|(-> & _ & Hn & Hc)]]];
        [lia|tauto|tauto|].
      unfold analysis.
      destruct (num_ref_freqs data <=? 2)%nat eqn:E; [apply Nat.leb_le in E; lia|].
      by rewrite multiple_refs_few_chroms.
  - rewrite (main_config_failed alder pars data _ _ Hm Ed) by done. cbn [outcome snd].
    inversion Hspec; subst.
    + split.
      * intros [= <-]. right. left. by split_and!.
      * intros [[_ ?]|[(-> & _)|[(_ & _ & _ & ? & _)|(_ & _ & ? & _)]]]; [lia|done|lia..].
    + split.
      * intros [= <-]. right. right. left. by split_and!.
      * intros [[_ ?]|[(_ & _ & _ & ?)|[(-> & _)|(_ & _ & ? & _)]]]; [lia|lia|done|lia].
  - rewrite (main_config_failed alder pars data _ _ Hm Ed) by done. cbn [outcome snd].
    inversion Hspec; subst. split; [done|].
    intros [[_ ?]|[(_ & _ & _ & ?)|[(_ & _ & _ & ? & _)|(_ & _ & ? & _)]]]; lia.
Qed.

(** ** [subtract_freqs] *)

(** X2.  [subtract_freqs(ref_freqs, r1, r2)] has one entry per entry of row
    [r1], the difference of the two frequencies of that marker, whenever
    both rows exist and row [r2] is at least as long as row [r1].  When row
    [r1] is empty the loop does not run, row [r2] is not read and the result
    is empty, whether row [r2] exists or not.  The function reads out of
    range exactly when row [r1] is missing, or row [r1] is not empty and row
    [r2] is missing or shorter than row [r1]. *)
Theorem subtract_freqs_pointwise (alder : Alder) (freqs : list (list double)) (r1 r2 : nat) :
  (forall a b, freqs !! r1 = Some a -> freqs !! r2 = Some b ->
     (length a <= length b)%nat ->
     exists w, subtract_freqs alder freqs r1 r2 = ([], Ok w) /\
       length w = length a /\
       forall s x, a !! s = Some x ->
         exists y, b !! s = Some y /\ w !! s = Some (PrimFloat.sub x y)) /\
  (freqs !! r1 = Some [] -> subtract_freqs alder freqs r1 r2 = ([], Ok [])) /\
  (outcome (subtract_freqs alder freqs r1 r2) = Undefined <->
   freqs !! r1 = None \/
   exists a, freqs !! r1 = Some a /\ a <> [] /\
     (freqs !! r2 = None \/
      exists b, freqs !! r2 = Some b /\ (length b < length a)%nat)).
Proof.
  split_and!.
  - intros a b Ha Hb Hle. rewrite (subtract_freqs_Some alder freqs r1 r2 a b Ha Hb).
    destruct (length a <=? length b)%nat eqn:E; [|apply Nat.leb_gt in E; lia].
    eexists. split; [reflexivity|]. split.
    + rewrite length_zip_with. lia.
    + intros s x Hx.
      destruct (lookup_lt_is_Some_2 b s) as [y Hy].
      { apply lookup_lt_Some in Hx. lia. }
      exists y. split; [done|]. by rewrite lookup_zip_with, Hx, Hy.
  - apply subtract_freqs_nil.
  - destruct (freqs !! r1) as [a|] eqn:Ha.
    2:{ rewrite (subtract_freqs_None_l alder freqs r1 r2 Ha). split; [by left|done]. }
    destruct a as [|x a].
    { rewrite (subtract_freqs_nil alder freqs r1 r2 Ha). split; [done|].
      intros [?|(a' & [= <-] & ? & _)]; done. }
    destruct (freqs !! r2) as [b|] eqn:Hb.
    + rewrite (subtract_freqs_Some alder freqs r1 r2 _ b Ha Hb).
      destruct (length (x :: a) <=? length b)%nat eqn:E; cbn [outcome snd].
      * apply Nat.leb_le in E. split; [done|].
        intros [?|(a' & [= <-] & _ & [?|(b' & [= <-] & ?)])]; [done..|lia].
      * apply Nat.leb_gt in E. split; [|done]. intros _. right.
        exists (x :: a). split_and!; [done..|]. right. by exists b.
    + rewrite (subtract_freqs_None_r alder freqs r1 r2 (x :: a) Ha) by done.
      split; [|done]. intros _. right. exists (x :: a). split_and!; [done..|]. by left.
Qed.

Lemma subtract_freqs_pointwise_witness :
  (exists w,
     subtract_freqs (Toy.toy 22 [] []) (ref_freqs Toy.two_refs) 0 1 = ([], Ok w) /\
     length w = length [0.5%float; 0.25%float] /\
     forall s x, [0.5%float; 0.25%float] !! s = Some x ->
       exists y, [0.25%float; 0.75%float] !! s = Some y /\ w !! s = Some (PrimFloat.sub x y)) /\
  subtract_freqs (Toy.toy 22 [] []) [[]] 0 1 = ([], Ok []).
Proof.
  split.
  - apply (proj1 (subtract_freqs_pointwise (Toy.toy 22 [] []) (ref_freqs Toy.two_refs) 0 1)
             [0.5%float; 0.25%float] [0.25%float; 0.75%float] eq_refl eq_refl).
    simpl. lia.
  - apply (proj1 (proj2 (subtract_freqs_pointwise (Toy.toy 22 [] []) [[]] 0 1)) eq_refl).
Defined.

(** ** The arguments of [alder.run] *)

Section RunArguments.

Context (alder : Alder) (pars : AlderParams) (data : Data).

Lemma trace_subtract_freqs freqs r1 r2 : trace (subtract_freqs alder freqs r1 r2) = [].
Proof. by destruct (subtract_freqs_cases alder freqs r1 r2) as [[w ->]| ->]. Qed.

Lemma one_or_two_refs_weights w n inds fs :
  weights_of_refs alder pars data n inds w ->
  Forall (fun e => forall n' inds' w' fsd, run_call e = Some (n', inds', w', fsd) ->
            weights_of_refs alder pars data n' inds' w')
         (trace (one_or_two_refs alder pars data w n inds fs)).
Proof.
  intros Hw.
  unfold one_or_two_refs, two_ref_test, print_fit_diffs, fit_oneref, selected_fit, alder_run.
  repeat (trace_step; try done).
  - by intros n' inds' w' fsd [= <- <- <- <-].
  - intros n' inds' w' fsd [= <- <- <- <-]. simpl. split; [done|].
    by match goal with H : outcome (idx (ref_freqs data) _) = Ok _ |- _ =>
         apply outcome_idx_Ok in H end.
Qed.

Lemma multiple_refs_weights fs :
  Forall (fun e => forall n' inds' w' fsd, run_call e = Some (n', inds', w', fsd) ->
            weights_of_refs alder pars data n' inds' w')
         (trace (multiple_refs alder pars data fs)).
Proof.
  unfold multiple_refs, pretests, pairs_outer, pairs_inner, pair_test, summary_ref,
    pretest_ref, selected_fit, alder_run.
  repeat (trace_step; try done).
  - intros n' inds' w' fsd [= <- <- <- <-]. simpl. split; [done|].
    by match goal with H : outcome (idx (ref_freqs data) _) = Ok _ |- _ =>
         apply outcome_idx_Ok in H end.
  - rewrite trace_subtract_freqs. apply Forall_nil_2.
  - intros n' inds' w' fsd [= <- <- <- <-]. simpl. split; [done|].
    match goal with H : outcome (subtract_freqs _ _ ?a ?b) = Ok _ |- _ =>
      destruct (subtract_freqs_cases alder (ref_freqs data) a b) as [[w Hw]|Hu];
      [rewrite Hw in H |- *; by injection H as -> | by rewrite Hu in H] end.
Qed.

Lemma determine_refs_weights_of_refs t w n inds :
  determine_refs alder pars data = (t, Ok (w, n, inds)) ->
  (num_ref_freqs data <= 2)%nat ->
  weights_of_refs alder pars data n inds w.
Proof.
  intros Hd Hn. pose proof (determine_refs_spec alder pars data) as Hspec.
  rewrite Hd in Hspec. inversion Hspec; subst; simpl; try done; lia.
Qed.

End RunArguments.

Section RunArguments2.

Context (alder : Alder) (pars : AlderParams) (data : Data).

Lemma multiple_refs_has_refs fs :
  Forall (fun e => forall n inds w fsd, run_call e = Some (n, inds, w, fsd) -> inds <> [])
         (trace (multiple_refs alder pars data fs)).
Proof.
  unfold multiple_refs, pretests, pairs_outer, pairs_inner, pair_test, summary_ref,
    pretest_ref, selected_fit, alder_run.
  repeat (trace_step; try done); try (rewrite trace_subtract_freqs; apply Forall_nil_2);
    by intros n inds w fsd [= <- <- <- <-].
Qed.

Lemma analysis_run_pars w n inds :
  Forall (fun e => forall p, run_pars e = Some p ->
            p = (maxdis pars, binsize pars, mincount pars, use_naive_algo pars))
         (trace (analysis alder pars data w n inds)).
Proof.
  unfold analysis, one_or_two_refs, two_ref_test, print_fit_diffs, fit_oneref,
    multiple_refs, pretests, pairs_outer, pairs_inner, pair_test, summary_ref,
    pretest_ref, selected_fit, alder_run.
  repeat (trace_step; try done); try (rewrite trace_subtract_freqs; apply Forall_nil_2);
    by intros ? [= <-].
Qed.

End RunArguments2.

(** X3.  The weights of every call of [alder.run] are determined by its
    reference indices: the frequencies of the reference for one index, the
    difference of the two references' frequencies for two, and the external
    weights only for a call without indices (which needs a weight file).
    With three or more reference populations every call has indices, so
    external weights are never used there.  Every call takes [maxdis],
    [binsize], [mincount] and [use_naive_algo] from the parameters. *)
Theorem run_arguments (alder : Alder) (pars : AlderParams) (data : Data) :
  Forall (fun e => forall n inds w fsd, run_call e = Some (n, inds, w, fsd) ->
            weights_of_refs alder pars data n inds w)
         (trace (main alder pars data)) /\
  ((2 < num_ref_freqs data)%nat ->
   Forall (fun e => forall n inds w fsd, run_call e = Some (n, inds, w, fsd) -> inds <> [])
          (trace (main alder pars data))) /\
  Forall (fun e => forall p, run_pars e = Some p ->
            p = (maxdis pars, binsize pars, mincount pars, use_naive_algo pars))
         (trace (main alder pars data)).
Proof.
  split_and!.
  - apply Forall_trace_main.
    + intros e He n inds w fsd Hr. by destruct e.
    + intros t w n inds _ Hd. unfold analysis.
      destruct (num_ref_freqs data <=? 2)%nat eqn:E.
      * apply Nat.leb_le in E. apply one_or_two_refs_weights.
        by eapply determine_refs_weights_of_refs.
      * apply multiple_refs_weights.
  - intros Hn. apply Forall_trace_main.
    + intros e He n inds w fsd Hr. by destruct e.
    + intros t w n inds _ _. unfold analysis.
      destruct (num_ref_freqs data <=? 2)%nat eqn:E; [apply Nat.leb_le in E; lia|].
      apply multiple_refs_has_refs.
  - apply Forall_trace_main.
    + intros e He p Hr. by destruct e.
    + intros t w n inds _ _. apply analysis_run_pars.
Qed.

Lemma run_arguments_witness :
  Forall (fun e => forall n inds w fsd, run_call e = Some (n, inds, w, fsd) -> inds <> [])
         (trace (main Toy.alder4 (Toy.pars (Some "weights.txt")) Toy.four_refs)).
Proof.
  apply (run_arguments Toy.alder4 (Toy.pars (Some "weights.txt")) Toy.four_refs).
  vm_compute. lia.
Defined.

(** ** The single-reference fits inside the tests *)

Section OnerefFits.

Context (alder : Alder) (pars : AlderParams) (data : Data).

Lemma two_refs_oneref_fits w inds fs :
  Forall (fun e => forall inds' w' fsd, run_call e = Some (1, inds', w', fsd) ->
            exists r, inds' = [r] /\ ref_freqs data !! r = Some w' /\ fs !! r = Some fsd)
         (trace (one_or_two_refs alder pars data w 2 inds fs)).
Proof.
  unfold one_or_two_refs, two_ref_test, print_fit_diffs, fit_oneref, selected_fit, alder_run.
  repeat (trace_step; try done).
  intros inds' w' fsd [= <- <- <-].
  repeat match goal with H : outcome (idx _ _) = Ok _ |- _ => apply outcome_idx_Ok in H end.
  by eexists.
Qed.

Lemma multiple_refs_oneref_fits fs :
  Forall (fun e => forall inds' w' fsd, run_call e = Some (1, inds', w', fsd) ->
            exists r, inds' = [r] /\ ref_freqs data !! r = Some w' /\ fs !! r = Some fsd /\
                      Double.eq fsd INFINITY = false)
         (trace (multiple_refs alder pars data fs)).
Proof.
  unfold multiple_refs, pretests, pairs_outer, pairs_inner, pair_test, summary_ref,
    pretest_ref, selected_fit, alder_run.
  repeat (trace_step; try done); try (rewrite trace_subtract_freqs; apply Forall_nil_2).
  intros inds' w' fsd [= <- <- <-].
  repeat match goal with H : outcome (idx _ _) = Ok _ |- _ => apply outcome_idx_Ok in H end.
  by eexists.
Qed.

End OnerefFits.

(** X4.  Outside the single-reference form of the run, every 1-ref curve
    is fitted for one reference [r], with the frequencies of [r] as weights
    and from the start distance of [r] itself (not from the joint start
    distance of the 2-ref curve); in the pre-tests of three or more
    references no curve is fitted for a reference whose start distance is
    infinite. *)
Theorem oneref_fits_use_own_start (alder : Alder) (pars : AlderParams) (data : Data) :
  ~ (weightname pars = None /\ num_ref_freqs data = 1%nat) ->
  Forall (fun e => forall inds w fsd, run_call e = Some (1, inds, w, fsd) ->
            exists r, inds = [r] /\ ref_freqs data !! r = Some w /\
                      fit_starts alder pars !! r = Some fsd /\
                      ((2 < num_ref_freqs data)%nat -> Double.eq fsd INFINITY = false))
         (trace (main alder pars data)).
Proof.
  intros Hone. apply Forall_trace_main.
  - intros e He inds w fsd Hr. by destruct e.
  - intros t w n inds _ Hd. unfold analysis.
    destruct (num_ref_freqs data <=? 2)%nat eqn:E.
    + apply Nat.leb_le in E.
      assert (n = 2) as ->.
      { pose proof (determine_refs_spec alder pars data) as Hspec.
        rewrite Hd in Hspec. inversion Hspec; subst; try done; try lia. by destruct Hone. }
      eapply Forall_impl; [apply two_refs_oneref_fits|].
      intros e He inds' w' fsd Hr. destruct (He _ _ _ Hr) as (r & ? & ? & ?).
      exists r. split_and!; [done..|lia].
    + eapply Forall_impl; [apply multiple_refs_oneref_fits|].
      intros e He inds' w' fsd Hr. destruct (He _ _ _ Hr) as (r & ? & ? & ? & ?).
      exists r. by split_and!.
Qed.

Lemma oneref_fits_use_own_start_witness :
  Forall (fun e => forall inds w fsd, run_call e = Some (1, inds, w, fsd) ->
            exists r, inds = [r] /\ ref_freqs Toy.four_refs !! r = Some w /\
                      fit_starts Toy.alder4 (Toy.pars None) !! r = Some fsd /\
                      ((2 < num_ref_freqs Toy.four_refs)%nat ->
                       Double.eq fsd INFINITY = false))
         (trace (main Toy.alder4 (Toy.pars None) Toy.four_refs)).
Proof.
  apply (oneref_fits_use_own_start Toy.alder4 (Toy.pars None) Toy.four_refs).
  intros [_ H]. vm_compute in H. discriminate H.
Defined.

(** ** The single-reference form of the run *)

(** X5.  A run with one reference population and no external weights that
    ends normally has [mincount >= 4], fits the 1-ref curve with the
    frequencies of that reference from the largest start distance, and ends
    by printing the bound on the mixture fraction, which is
    [mix_frac_bound] of the selected fit and [compute_one_ref_f2_jacks(0)],
    times 100.  It gives no verdict: neither [run_admixture_test] nor
    [test_and_print_oneref_curve] is called, whatever the number of
    chromosomes. *)
Theorem single_ref_run (alder : Alder) (pars : AlderParams) (data : Data) :
  weightname pars = None -> num_ref_freqs data = 1%nat ->
  outcome (main alder pars data) = Ok tt ->
  4 <= mincount pars /\
  Forall (fun e => is_verdict e = false) (trace (main alder pars data)) /\
  exists w fsd curve fit,
    ref_freqs data !! 0%nat = Some w /\
    max_element (fit_starts alder pars) = Some fsd /\
    fits_of_run alder pars 1 [0%nat] w fsd !! test_ind_of_run alder pars 1 [0%nat] w fsd
      = Some fit /\
    trace (main alder pars data) =
      config_trace alder pars data [CoutNumRefs 1] 1 ++
      curve_trace alder pars 1 [0%nat] w fsd curve ++
      [ComputeOneRefF2Jacks 0;
       PrintMixFracBound
         (100 * (mix_frac_bound alder fit (compute_one_ref_f2_jacks alder 0)).1)%float
         (100 * (mix_frac_bound alder fit (compute_one_ref_f2_jacks alder 0)).2)%float].
Proof.
  intros Hw Hn (Hm & t & w & n & inds & ta & Hd & Ha & Ht)%main_Ok_inv.
  pose proof (determine_refs_spec alder pars data) as Hspec. rewrite Hd in Hspec.
  inversion Hspec; subst; try done; try lia.
  split; [done|].
  unfold analysis in Ha. rewrite Hn in Ha. simpl in Ha.
  apply one_or_two_refs_Ok_inv in Ha as (fsd & curve & t_end & Hmax & _ & Hend & ->).
  unfold after_curve in Hend. change (1 =? 2) with false in Hend. cbv iota in Hend.
  apply bind_Ok_inv in Hend as (? & ? & ? & ->%tell_Ok_inv & Hend & ->).
  apply bind_Ok_inv in Hend as (? & fit & ? & [-> Hfit]%idx_Ok_inv & ->%tell_Ok_inv & ->).
  rewrite Ht. split.
  - rewrite !Forall_app. split_and!; try (by repeat constructor).
    + eapply Forall_impl; [apply config_trace_no_test; by repeat constructor|].
      intros e He. by destruct e.
    + unfold curve_trace. destruct (run alder _ _ _ _ _ _ _ _) as [[res fits] ind].
      rewrite !Forall_app. split_and!; [by repeat constructor| | |by repeat constructor].
      * destruct (raw_outname pars); by repeat constructor.
      * by apply Forall_fmap, Forall_forall.
  - by exists w, fsd, curve, fit.
Qed.

Lemma single_ref_run_witness :
  4 <= mincount (Toy.pars None) /\
  Forall (fun e => is_verdict e = false)
         (trace (main (Toy.toy 1 [0.5%float] []) (Toy.pars None) Toy.one_ref)).
Proof.
  destruct (single_ref_run (Toy.toy 1 [0.5%float] []) (Toy.pars None) Toy.one_ref)
    as (H1 & H2 & _).
  - reflexivity.
  - reflexivity.
  - vm_compute. reflexivity.
  - split; [exact H1|exact H2].
Defined.

(** ** Curve data and raw output *)

Section Outputs.

Context (alder : Alder) (pars : AlderParams) (data : Data).

Lemma analysis_no_raw_note w n inds :
  Forall (fun e => is_raw_note e = false) (trace (analysis alder pars data w n inds)).
Proof.
  unfold analysis, one_or_two_refs, two_ref_test, print_fit_diffs, fit_oneref,
    multiple_refs, pretests, pairs_outer, pairs_inner, pair_test, summary_ref,
    pretest_ref, selected_fit, alder_run.
  repeat (trace_step; try done); rewrite trace_subtract_freqs; apply Forall_nil_2.
Qed.

Lemma multiple_refs_no_curve_output fs :
  Forall (fun e => is_curve_output e = false) (trace (multiple_refs alder pars data fs)).
Proof.
  unfold multiple_refs, pretests, pairs_outer, pairs_inner, pair_test, summary_ref,
    pretest_ref, selected_fit, alder_run.
  repeat (trace_step; try done); rewrite trace_subtract_freqs; apply Forall_nil_2.
Qed.

Lemma determine_refs_raw_note file :
  RawNotWritten file ∈ (determine_refs alder pars data).1 <->
  weightname pars = None /\ (2 < num_ref_freqs data)%nat /\ raw_outname pars = Some file.
Proof.
  unfold determine_refs.
  destruct (weightname pars) as [wfile|] eqn:Ew.
  { simpl. split; [by intros ?%elem_of_nil|by intros [? _]]. }
  destruct (num_ref_freqs data) as [|[|[|n]]] eqn:En.
  - simpl. split; [by intros ?%elem_of_nil|intros (_ & ? & _); lia].
  - split; [|intros (_ & ? & _); lia].
    destruct (mincount pars <? 4); [by intros ?%elem_of_nil|].
    unfold idx. destruct (ref_freqs data !! 0%nat); simpl.
    + intros [?|?%elem_of_nil]%elem_of_cons; done.
    + by intros ?%elem_of_nil.
  - split; [|intros (_ & ? & _); lia].
    destruct (subtract_freqs_cases alder (ref_freqs data) 0 1) as [[w ->]| ->]; simpl.
    + intros [?|?%elem_of_nil]%elem_of_cons; done.
    + by intros ?%elem_of_nil.
  - destruct (raw_outname pars) as [file'|]; simpl.
    + rewrite !elem_of_cons, elem_of_nil. split.
      * intros [?|[[= ->]|[?|[]]]]; try done. split_and!; [done|lia|done].
      * intros (_ & _ & [= ->]). right. by left.
    + rewrite !elem_of_cons, elem_of_nil. split; [by intros [?|[]]|by intros (_ & _ & ?)].
Qed.

Lemma config_trace_raw_note t n file :
  RawNotWritten file ∈ config_trace alder pars data t n <-> RawNotWritten file ∈ t.
Proof.
  unfold config_trace. rewrite !elem_of_app. split; [|intros H; right; by left].
  intros [H|[H|[H|H]]]; [|done| |].
  - repeat (apply elem_of_cons in H as [H|H]; [done|]). by apply elem_of_nil in H.
  - destruct (_ && _); repeat (apply elem_of_cons in H as [H|H]; [done|]);
      by apply elem_of_nil in H.
  - repeat (apply elem_of_cons in H as [H|H]; [done|]). by apply elem_of_nil in H.
Qed.

End Outputs.

(** X6.  With three or more reference populations [main] never calls
    [output_curve_data] or [write_raw_output].  The note that raw output is
    not written is put into the raw output file exactly when that file is
    named, there are three or more reference populations, no external
    weights are given and [mincount] passes its first check; with external
    weights and three or more references the file is not touched at all. *)
Theorem raw_output_many_refs (alder : Alder) (pars : AlderParams) (data : Data) :
  ((2 < num_ref_freqs data)%nat ->
   Forall (fun e => is_curve_output e = false) (trace (main alder pars data))) /\
  (forall file,
     RawNotWritten file ∈ trace (main alder pars data) <->
     weightname pars = None /\ (2 < num_ref_freqs data)%nat /\
     raw_outname pars = Some file /\ mincount pars <= num_mixed_indivs data).
Proof.
  split.
  - intros Hn. apply Forall_trace_main.
    + intros e He. by destruct e.
    + intros t w n inds _ _. unfold analysis.
      destruct (num_ref_freqs data <=? 2)%nat eqn:E; [apply Nat.leb_le in E; lia|].
      apply multiple_refs_no_curve_output.
  - intros file.
    destruct (Z_gt_le_dec (mincount pars) (num_mixed_indivs data)) as [Hm|Hm].
    { rewrite (main_mincount_failed alder pars data Hm). simpl.
      rewrite !elem_of_cons, elem_of_nil. split; [by intros [?|[?|[]]]|].
      intros (_ & _ & _ & ?). lia. }
    pose proof (determine_refs_raw_note alder pars data file) as Hd.
    destruct (determine_refs alder pars data) as [t [[[w n] inds]|msg|]] eqn:Ed; simpl in Hd.
    + rewrite (main_after_config alder pars data _ _ _ _ Hm Ed). cbn [trace fst].
      rewrite elem_of_app, config_trace_raw_note, Hd.
      pose proof (analysis_no_raw_note alder pars data w n inds) as Hna.
      split; [|intros (? & ? & ? & _); by left].
      intros [(? & ? & ?)|Hin]; [by split_and!|].
      by apply (proj1 (Forall_forall _ _) Hna) in Hin.
    + rewrite (main_config_failed alder pars data _ _ Hm Ed) by done. cbn [trace fst].
      rewrite elem_of_app, Hd. split; [|intros (? & ? & ? & _); by right].
      intros [H|(? & ? & ?)]; [|by split_and!].
      repeat (apply elem_of_cons in H as [H|H]; [done|]). by apply elem_of_nil in H.
    + rewrite (main_config_failed alder pars data _ _ Hm Ed) by done. cbn [trace fst].
      rewrite elem_of_app, Hd. split; [|intros (? & ? & ? & _); by right].
      intros [H|(? & ? & ?)]; [|by split_and!].
      repeat (apply elem_of_cons in H as [H|H]; [done|]). by apply elem_of_nil in H.
Qed.

Lemma raw_output_many_refs_witness :
  Forall (fun e => is_curve_output e = false)
         (trace (main Toy.alder4 (Toy.pars None) Toy.four_refs)).
Proof.
  apply (raw_output_many_refs Toy.alder4 (Toy.pars None) Toy.four_refs).
  vm_compute. lia.
Defined.

(** ** The number of pairwise tests *)

Lemma length_eligible_refs_app (pre has : list bool) :
  length (eligible_refs (pre ++ has) (length pre) (length has)) = num_eligible has.
Proof.
  revert pre. induction has as [|b has IH]; intros pre; [done|].
  assert ((pre ++ b :: has) !! length pre = Some b) as Hb by apply list_lookup_middle, eq_refl.
  specialize (IH (pre ++ [b])). rewrite <- app_assoc, length_app in IH. simpl in IH.
  replace (length pre + 1)%nat with (S (length pre)) in IH by lia.
  unfold num_eligible in *. simpl. destruct b; simpl.
  - rewrite eligible_refs_cons_true by done. simpl. by rewrite IH.
  - rewrite eligible_refs_cons_false by congruence. by rewrite IH.
Qed.

Lemma length_eligible_refs (has : list bool) :
  length (eligible_refs has 0 (length has)) = num_eligible has.
Proof. apply (length_eligible_refs_app [] has). Qed.

Lemma length_pairs_from (has : list bool) (n lo k : nat) :
  (lo + k = n)%nat ->
  (2 * length (r1 ← eligible_refs has lo k; pair r1 <$> eligible_refs has (S r1) (n - S r1))
   = length (eligible_refs has lo k) * (length (eligible_refs has lo k) - 1))%nat.
Proof.
  revert lo. induction k as [|k IH]; intros lo Hn; [done|].
  specialize (IH (S lo) ltac:(lia)).
  destruct (decide (has !! lo = Some true)) as [Hlo|Hlo].
  - rewrite eligible_refs_cons_true by done. rewrite bind_cons, length_app, length_fmap.
    replace (n - S lo)%nat with k by lia. simpl length. nia.
  - by rewrite eligible_refs_cons_false.
Qed.

Lemma length_eligible_pairs (has : list bool) :
  (2 * length (eligible_pairs has (length has)) = num_eligible has * (num_eligible has - 1))%nat.
Proof.
  unfold eligible_pairs. rewrite (length_pairs_from has (length has) 0 (length has)) by lia.
  by rewrite length_eligible_refs.
Qed.

(** X7.  In a run with three or more references that ends normally, the
    number of calls of [run_admixture_test] is [k * (k - 1) / 2], where [k]
    is the number of references that the pre-tests marked as having a 1-ref
    curve: none if fewer than two references are marked. *)
Theorem number_of_pairwise_tests (alder : Alder) (pars : AlderParams) (data : Data) :
  (2 < num_ref_freqs data)%nat -> outcome (main alder pars data) = Ok tt ->
  exists st,
    outcome (pretests alder pars data (fit_starts alder pars)) = Ok st /\
    length (has_oneref_curve st) = num_ref_freqs data /\
    (2 * length (List.filter is_admixture_test (trace (main alder pars data))) =
     num_eligible (has_oneref_curve st) * (num_eligible (has_oneref_curve st) - 1))%nat.
Proof.
  intros Hn Hok.
  destruct (multiple_refs_run alder pars data Hn Hok)
    as (st & t_pre & head & ts & Hpre & Hq & _ & Hts & ->).
  pose proof Hpre as [(Hlen & _ & _) _]%pretests_Ok_inv.
  exists st. split_and!; [by rewrite Hpre|done|].
  rewrite List.filter_app, (quiet_filter_test alder _ Hq). simpl.
  apply pairs_filter_test, Forall2_length in Hts. rewrite <- Hts, <- Hlen.
  apply length_eligible_pairs.
Qed.

Lemma number_of_pairwise_tests_witness :
  exists st,
    outcome (pretests Toy.alder4 (Toy.pars None) Toy.four_refs
               (fit_starts Toy.alder4 (Toy.pars None))) = Ok st /\
    length (has_oneref_curve st) = num_ref_freqs Toy.four_refs /\
    (2 * length (List.filter is_admixture_test
                   (trace (main Toy.alder4 (Toy.pars None) Toy.four_refs))) =
     num_eligible (has_oneref_curve st) * (num_eligible (has_oneref_curve st) - 1))%nat.
Proof.
  apply (number_of_pairwise_tests Toy.alder4 (Toy.pars None) Toy.four_refs).
  - vm_compute. lia.
  - vm_compute. reflexivity.
Defined.

(** ** Start distances that are missing *)

Section MissingStarts.

Context (alder : Alder) (pars : AlderParams) (data : Data).

Lemma pretest_ref_not_fatal fs r st msg :
  outcome (pretest_ref alder pars data fs r st) <> Fatalx msg.
Proof.
  intros H. revert msg H.
  change (fatal_only (fun _ => False) (pretest_ref alder pars data fs r st)).
  unfold pretest_ref, print_fits, alder_run. repeat (fatal_step || done).
Qed.

(** The pre-test loop reads [fit_starts[r]] for every reference: with too
    few start distances it reads out of range. *)
Lemma pretest_loop_short fs lo k st :
  (0 < k)%nat -> (length fs < lo + k)%nat ->
  outcome (for_loop (pretest_ref alder pars data fs) lo k st) = Undefined.
Proof.
  revert lo st. induction k as [|k IH]; intros lo st Hk Hlen; [lia|].
  simpl. rewrite outcome_bind.
  destruct (outcome (pretest_ref alder pars data fs lo st)) as [st'|msg|] eqn:E.
  - assert (lo < length fs)%nat as Hlo.
    { unfold pretest_ref in E. rewrite outcome_bind in E.
      destruct (outcome (idx fs lo)) as [x| |] eqn:Ei; try done.
      apply outcome_idx_Ok in Ei. by eapply lookup_lt_Some. }
    apply IH; lia.
  - by apply pretest_ref_not_fatal in E.
  - done.
Qed.

Lemma one_or_two_refs_no_starts w n inds :
  one_or_two_refs alder pars data w n inds [] = ([], Undefined).
Proof. reflexivity. Qed.

Lemma multiple_refs_short fs :
  2 <= get_num_chroms_used alder -> (0 < num_ref_freqs data)%nat ->
  (length fs < num_ref_freqs data)%nat ->
  outcome (multiple_refs alder pars data fs) = Undefined.
Proof.
  intros Hc Hn Hlen. unfold multiple_refs.
  destruct (get_num_chroms_used alder <? 2) eqn:E; [lia|].
  rewrite !outcome_bind. simpl. unfold pretests.
  by rewrite pretest_loop_short by lia.
Qed.

End MissingStarts.

(** X8.  [main] relies on [find_ld_corr_stops] for the start distances.
    With at most two reference populations and a valid configuration, an
    empty vector of start distances makes [main] dereference the end of the
    vector ([*max_element] of an empty range) before any curve is computed.
    With three or more reference populations and two chromosomes or more,
    fewer start distances than references make the pre-test loop read
    [fit_starts] out of range. *)
Theorem missing_start_distances (alder : Alder) (pars : AlderParams) (data : Data) :
  ~ config_error pars data ->
  ((num_ref_freqs data <= 2)%nat -> fit_starts alder pars = [] ->
   outcome (main alder pars data) = Undefined /\
   Forall (fun e => run_start e = None) (trace (main alder pars data))) /\
  ((2 < num_ref_freqs data)%nat -> 2 <= get_num_chroms_used alder ->
   (length (fit_starts alder pars) < num_ref_freqs data)%nat ->
   outcome (main alder pars data) = Undefined).
Proof.
  intros Hcfg.
  assert (mincount pars <= num_mixed_indivs data) as Hm.
  { destruct (Z_gt_le_dec (mincount pars) (num_mixed_indivs data)); [|done].
    destruct Hcfg. by left. }
  pose proof (determine_refs_spec alder pars data) as Hspec.
  destruct (determine_refs alder pars data) as [t [[[w n] inds]|msg|]] eqn:Ed.
  - rewrite (main_after_config alder pars data _ _ _ _ Hm Ed). cbn [trace outcome fst snd].
    unfold analysis. split.
    + intros Hn Hfs. destruct (num_ref_freqs data <=? 2)%nat eqn:E; [|apply Nat.leb_gt in E; lia].
      rewrite Hfs, one_or_two_refs_no_starts. simpl. split; [done|].
      rewrite app_nil_r. apply config_trace_no_run.
      by eapply determine_refs_config_events.
    + intros Hn Hc Hlen.
      destruct (num_ref_freqs data <=? 2)%nat eqn:E; [apply Nat.leb_le in E; lia|].
      apply multiple_refs_short; [done|lia|done].
  - destruct Hcfg. inversion Hspec; [by right; right|by right; left].
  - rewrite (main_config_failed alder pars data _ _ Hm Ed) by done. cbn [trace outcome fst snd].
    split; [|done]. intros _ _. split; [done|].
    apply Forall_app. split; [by repeat constructor|].
    eapply Forall_impl; [by eapply determine_refs_config_events|]. intros e He. by destruct e.
Qed.

Lemma missing_start_distances_witness :
  outcome (main (Toy.toy 22 [] []) (Toy.pars None) Toy.two_refs) = Undefined /\
  outcome (main (Toy.toy 22 [0.5%float; 0.75%float] []) (Toy.pars None) Toy.three_refs)
    = Undefined.
Proof.
  assert (~ config_error (Toy.pars None) Toy.two_refs) as H2.
  { intros [H|[(_ & H & _)|(_ & H)]]; vm_compute in H; discriminate H. }
  assert (~ config_error (Toy.pars None) Toy.three_refs) as H3.
  { intros [H|[(_ & H & _)|(_ & H)]]; vm_compute in H; discriminate H. }
  split.
  - destruct (proj1 (missing_start_distances (Toy.toy 22 [] []) (Toy.pars None)
                      Toy.two_refs H2)) as [H _].
    + vm_compute. lia.
    + reflexivity.
    + exact H.
  - apply (missing_start_distances (Toy.toy 22 [0.5%float; 0.75%float] []) (Toy.pars None)
             Toy.three_refs H3).
    + vm_compute. lia.
    + vm_compute. discriminate.
    + vm_compute. lia.
Defined.

(** ** When a run with two references ends normally *)

Section Forward.

Context {alder : Alder}.

Lemma outcome_bind_Ok {A B} (m : M alder A) (f : A -> M alder B) (a : A) :
  outcome m = Ok a -> outcome (m ≫= f) = outcome (f a).
Proof. intros H. by rewrite outcome_bind, H. Qed.

Lemma outcome_idx_Some {A} (v : list A) (i : nat) (x : A) :
  v !! i = Some x -> outcome (idx (alder := alder) v i) = Ok x.
Proof. unfold idx. by intros ->. Qed.

Lemma outcome_back_Some {A} (v : list A) (x : A) :
  last v = Some x -> outcome (back (alder := alder) v) = Ok x.
Proof. unfold back. by intros ->. Qed.

Lemma outcome_deref_Some {A} (x : A) : outcome (deref (alder := alder) (Some x)) = Ok x.
Proof. done. Qed.

Lemma outcome_for_loop_unit (body : nat -> unit -> M alder unit) (lo n : nat) :
  (forall i, (lo <= i < lo + n)%nat -> outcome (body i tt) = Ok tt) ->
  outcome (for_loop body lo n tt) = Ok tt.
Proof.
  revert lo. induction n as [|n IH]; intros lo Hb; [done|].
  simpl. rewrite (outcome_bind_Ok _ _ tt) by (apply Hb; lia).
  apply IH. intros i Hi. apply Hb. lia.
Qed.

End Forward.

Ltac run_forward :=
  repeat (erewrite outcome_bind_Ok;
          [| first [ reflexivity
                   | eapply outcome_idx_Some; eassumption
                   | eapply outcome_back_Some; eassumption ] ]).

Section TwoRefsNormal.

Context (alder : Alder) (pars : AlderParams) (data : Data).

Lemma subtract_freqs_zip_with r1 r2 a b :
  ref_freqs data !! r1 = Some a -> ref_freqs data !! r2 = Some b ->
  (length a <= length b)%nat ->
  subtract_freqs alder (ref_freqs data) r1 r2 = ([], Ok (zip_with PrimFloat.sub a b)).
Proof.
  intros Ha Hb Hle. rewrite (subtract_freqs_Some alder _ r1 r2 a b Ha Hb).
  by destruct (length a <=? length b)%nat eqn:E; [|apply Nat.leb_gt in E; lia].
Qed.

Lemma subtract_freqs_Ok_zip_with r1 r2 a b t w :
  ref_freqs data !! r1 = Some a -> ref_freqs data !! r2 = Some b ->
  subtract_freqs alder (ref_freqs data) r1 r2 = (t, Ok w) ->
  (length a <= length b)%nat /\ w = zip_with PrimFloat.sub a b.
Proof.
  intros Ha Hb. rewrite (subtract_freqs_Some alder _ r1 r2 a b Ha Hb).
  destruct (length a <=? length b)%nat eqn:E; [|done].
  intros [= _ <-]. apply Nat.leb_le in E. done.
Qed.

Lemma outcome_selected_fit st r fits ind (fit : ExpFitALD alder) :
  st.1 !! r = Some fits -> st.2 !! r = Some (Some ind) -> fits !! ind = Some fit ->
  outcome (selected_fit alder st r) = Ok fit.
Proof. intros H1 H2 H3. by rewrite (selected_fit_intro alder st r fits ind fit). Qed.

Lemma two_ref_requirements_sufficient :
  weightname pars = None -> num_ref_freqs data = 2%nat ->
  2 <= get_num_chroms_used alder ->
  two_ref_requirements alder pars data -> outcome (main alder pars data) = Ok tt.
Proof.
  intros Hw Hn Hc (Hm & a & b & start1 & start2 & name1 & name2 & fsd &
                   Ha & Hb & Hle & Hs1 & Hs2 & Hn1 & Hn2 & Hmax & Hres & Hi & Hi1 & Hi2 &
                   Hl1 & Hl2).
  assert (determine_refs alder pars data
          = ([CoutNumRefs 2], Ok (zip_with PrimFloat.sub a b, 2, [0%nat; 1%nat]))) as Hd.
  { unfold determine_refs. rewrite Hw, Hn.
    by rewrite (subtract_freqs_zip_with 0 1 a b). }
  rewrite (main_after_config alder pars data _ _ _ _ Hm Hd). cbn [outcome snd].
  unfold analysis. rewrite Hn. cbn [Nat.leb].
  unfold one_or_two_refs. rewrite Hmax.
  unfold fits_of_run, test_ind_of_run in *.
  rewrite (outcome_bind_Ok _ _ fsd) by done.
  rewrite (outcome_bind_Ok _ _ tt) by done.
  erewrite outcome_bind_Ok by reflexivity.
  destruct (run alder 2 [0%nat; 1%nat] _ _ _ _ _ fsd) as [[res fits] ind].
  cbn [fst snd] in *.
  destruct (last res) as [curve|] eqn:Elast; [|by apply last_None in Elast].
  rewrite (outcome_bind_Ok _ _ curve) by by apply outcome_back_Some.
  rewrite (outcome_bind_Ok _ _ tt) by done.
  rewrite (outcome_bind_Ok _ _ tt) by by destruct (raw_outname pars).
  rewrite (outcome_bind_Ok _ _ tt) by done.
  rewrite (outcome_bind_Ok _ _ tt) by done.
  destruct (get_num_chroms_used alder <? 2) eqn:E; [lia|].
  change (2 =? 2) with true. cbv iota. rewrite bool_decide_eq_false_2 by done.
  unfold two_ref_test.
  rewrite (outcome_bind_Ok _ _ tt) by done.
  set (st := ([(run alder 1 [0%nat] a (maxdis pars) (binsize pars) (mincount pars)
                    (use_naive_algo pars) start1).1.2;
               (run alder 1 [1%nat] b (maxdis pars) (binsize pars) (mincount pars)
                    (use_naive_algo pars) start2).1.2],
              [Some (run alder 1 [0%nat] a (maxdis pars) (binsize pars) (mincount pars)
                         (use_naive_algo pars) start1).2;
               Some (run alder 1 [1%nat] b (maxdis pars) (binsize pars) (mincount pars)
                         (use_naive_algo pars) start2).2])).
  assert (outcome (for_loop (fit_oneref alder pars data (fit_starts alder pars)) 0 2
                     (replicate 2 [], replicate 2 None)) = Ok st) as Hloop.
  { cbn [for_loop].
    assert (forall r freqs start s,
              ref_freqs data !! r = Some freqs -> fit_starts alder pars !! r = Some start ->
              outcome (fit_oneref alder pars data (fit_starts alder pars) r s)
              = Ok (<[r := (run alder 1 [r] freqs (maxdis pars) (binsize pars)
                                (mincount pars) (use_naive_algo pars) start).1.2]> s.1,
                    <[r := Some (run alder 1 [r] freqs (maxdis pars) (binsize pars)
                                     (mincount pars) (use_naive_algo pars) start).2]> s.2))
      as Hone.
    { intros r freqs start s Hf Hs. unfold fit_oneref.
      rewrite (outcome_bind_Ok _ _ tt) by done.
      rewrite (outcome_bind_Ok _ _ freqs) by by apply outcome_idx_Some.
      rewrite (outcome_bind_Ok _ _ start) by by apply outcome_idx_Some.
      erewrite outcome_bind_Ok by reflexivity.
      destruct (run alder 1 [r] freqs _ _ _ _ start) as [[res1 fits1] ind1].
      rewrite (outcome_bind_Ok _ _ tt) by done.
      by rewrite (outcome_bind_Ok _ _ tt) by done. }
    erewrite outcome_bind_Ok by (by apply Hone).
    erewrite outcome_bind_Ok by (by apply Hone).
    done. }
  rewrite (outcome_bind_Ok _ _ st) by done.
  rewrite (outcome_bind_Ok _ _ tt) by done.
  destruct (lookup_lt_is_Some_2 fits ind Hi) as [fit Hfit].
  destruct (lookup_lt_is_Some_2 _ _ Hi1) as [fit1 Hfit1].
  destruct (lookup_lt_is_Some_2 _ _ Hi2) as [fit2 Hfit2].
  rewrite (outcome_bind_Ok _ _ tt).
  - rewrite (outcome_bind_Ok _ _ fit) by by apply outcome_idx_Some.
    rewrite (outcome_bind_Ok _ _ fit1) by by eapply outcome_selected_fit.
    rewrite (outcome_bind_Ok _ _ fit2) by by eapply outcome_selected_fit.
    rewrite (outcome_bind_Ok _ _ name1) by by apply outcome_idx_Some.
    by rewrite (outcome_bind_Ok _ _ name2) by by apply outcome_idx_Some.
  - apply outcome_for_loop_unit. intros f Hf. unfold print_fit_diffs.
    destruct (lookup_lt_is_Some_2 fits f) as [x Hx]; [lia|].
    destruct (lookup_lt_is_Some_2 st.1 0) as [l1 Hl1']; [simpl; lia|].
    destruct (lookup_lt_is_Some_2 st.1 1) as [l2 Hl2']; [simpl; lia|].
    destruct (lookup_lt_is_Some_2 l1 f) as [x1 Hx1].
    { injection Hl1' as <-. lia. }
    destruct (lookup_lt_is_Some_2 l2 f) as [x2 Hx2].
    { injection Hl2' as <-. lia. }
    clearbody st. run_forward. done.
Qed.

Lemma lookup_all_length {A B} (l : list A) (k : list B) :
  (forall f x, l !! f = Some x -> exists y, k !! f = Some y) ->
  (length l <= length k)%nat.
Proof.
  intros H. destruct (decide (length l = 0%nat)) as [->|Hne]; [lia|].
  destruct (lookup_lt_is_Some_2 l (length l - 1)) as [x Hx]; [lia|].
  destruct (H _ _ Hx) as [y Hy%lookup_lt_Some]. lia.
Qed.

Lemma two_ref_requirements_necessary :
  weightname pars = None -> num_ref_freqs data = 2%nat ->
  2 <= get_num_chroms_used alder ->
  outcome (main alder pars data) = Ok tt -> two_ref_requirements alder pars data.
Proof.
  intros Hw Hn Hc Hok.
  apply main_Ok_inv in Hok as (Hm & t & w & n & inds & ta & Hd & Ha & _).
  split; [done|].
  destruct (determine_refs_two alder pars data _ _ _ _ Hw Hn Hd) as (-> & -> & -> & Hs).
  destruct (lookup_lt_is_Some_2 (ref_freqs data) 0) as [a Hfa].
  { unfold num_ref_freqs in Hn. lia. }
  destruct (lookup_lt_is_Some_2 (ref_freqs data) 1) as [b Hfb].
  { unfold num_ref_freqs in Hn. lia. }
  destruct (subtract_freqs_Ok_zip_with 0 1 a b _ _ Hfa Hfb Hs) as [Hle Ew]. subst w.
  unfold analysis in Ha. rewrite Hn in Ha. cbn [Nat.leb] in Ha.
  apply one_or_two_refs_Ok_inv in Ha as (fsd & curve & t_end & Hmax & Hlast & Hafter & _).
  unfold after_curve in Hafter. change (2 =? 2) with true in Hafter. cbv iota in Hafter.
  destruct (get_num_chroms_used alder <? 2) eqn:E; [lia|].
  rewrite bool_decide_eq_false_2 in Hafter by done.
  apply two_ref_test_Ok_inv in Hafter
    as (st & t_fit & t_diff & fit & fit1 & fit2 & name1 & name2 &
        Hfit & Hdiff & Hf & Hf1 & Hf2 & Hn1 & Hn2 & _).
  apply fit_oneref_loop_Ok_inv in Hfit
    as (freqs1 & freqs2 & start1 & start2 & Hq1 & Hq2 & Hs1 & Hs2 & ->).
  apply (print_fit_diffs_loop_Ok_inv _ _ _ _ _ _ name1 name2) in Hdiff
    as (blocks & _ & _ & Hblocks); [|done..].
  apply selected_fit_Ok_inv in Hf1 as (? & ? & [= <-] & [= <-] & Hf1 & _).
  apply selected_fit_Ok_inv in Hf2 as (? & ? & [= <-] & [= <-] & Hf2 & _).
  assert (freqs1 = a) as -> by congruence.
  assert (freqs2 = b) as -> by congruence.
  exists a, b, start1, start2, name1, name2, fsd.
  split_and!; try done.
  - intros Hnil. by rewrite Hnil in Hlast.
  - by eapply lookup_lt_Some.
  - by eapply lookup_lt_Some.
  - by eapply lookup_lt_Some.
  - apply lookup_all_length. intros f x Hx.
    destruct (Hblocks f x Hx) as (y1 & _ & Hy1 & _). by exists y1.
  - apply lookup_all_length. intros f x Hx.
    destruct (Hblocks f x Hx) as (_ & y2 & _ & Hy2 & _). by exists y2.
Qed.

End TwoRefsNormal.

(** X9.  A run with two reference populations (no external weights) and
    two chromosomes or more ends normally exactly when every access the
    driver makes is in range: the sample has [mincount] individuals, both
    references have frequencies, a start distance and a name, the first
    frequency vector is no longer than the second, [run] returns a curve,
    the three selected fit indices lie inside their fit vectors, and each
    one-reference run returns at least as many fits as the two-reference
    run, whose fits are compared with them index by index. *)
Theorem two_ref_run_normal_iff (alder : Alder) (pars : AlderParams) (data : Data) :
  weightname pars = None -> num_ref_freqs data = 2%nat ->
  2 <= get_num_chroms_used alder ->
  (outcome (main alder pars data) = Ok tt <-> two_ref_requirements alder pars data).
Proof.
  intros Hw Hn Hc. split.
  - by apply two_ref_requirements_necessary.
  - by apply two_ref_requirements_sufficient.
Qed.

Lemma two_ref_run_normal_iff_witness :
  two_ref_requirements (Toy.toy 22 [0.5%float; 0.75%float] []) (Toy.pars None) Toy.two_refs.
Proof.
  apply (proj1 (two_ref_run_normal_iff (Toy.toy 22 [0.5%float; 0.75%float] [])
                  (Toy.pars None) Toy.two_refs eq_refl eq_refl ltac:(vm_compute; discriminate))).
  vm_compute. reflexivity.
Defined.

(** ** The summary of the pre-tests *)

Section Summary.

Context (alder : Alder) (pars : AlderParams) (data : Data).

Lemma filter_all {A} (f : A -> bool) (l : list A) :
  Forall (fun x => f x = true) l -> List.filter f l = l.
Proof. induction 1 as [|x l Hx _ IH]; simpl; [done|]. by rewrite Hx, IH. Qed.

Lemma summary_lines_summary r block :
  summary_lines alder pars data r block -> Forall (fun e => is_summary e = true) block.
Proof.
  intros (name & start & _ & _ & H). destruct (Double.eq start INFINITY).
  - subst. by repeat constructor.
  - destruct H as (freqs & fit & _ & _ & ->). by repeat constructor.
Qed.

Lemma summary_ref_Ok_inv st r t :
  summary_ref alder data (fit_starts alder pars) st r tt = (t, Ok tt) ->
  pretested alder pars data (fit_starts alder pars) r st ->
  summary_lines alder pars data r t.
Proof.
  unfold summary_ref. intros H (start & Hs & Hp).
  apply bind_Ok_inv in H as (? & name & ? & [-> Hname]%idx_Ok_inv & H & ->).
  apply bind_Ok_inv in H as (? & has & ? & [-> Hhas]%idx_Ok_inv & H & ->).
  apply bind_Ok_inv in H as (? & ? & ? & ->%tell_Ok_inv & H & ->).
  apply bind_Ok_inv in H as (? & start' & ? & [-> Hs']%idx_Ok_inv & H & ->).
  assert (start' = start) as -> by congruence.
  exists name, start. split_and!; [done..|].
  destruct (Double.eq start INFINITY).
  - apply tell_Ok_inv in H as ->. simpl. do 2 f_equal. congruence.
  - destruct Hp as (freqs & fit & Hf & Hfit & Hh & Hfits & Hind).
    apply bind_Ok_inv in H as (? & fit' & ? & Hsel & ->%tell_Ok_inv & ->).
    apply selected_fit_Ok_inv in Hsel as (fits & ind & Hfits' & Hind' & Hfit' & ->).
    simpl in Hfits', Hind'.
    assert (fits = fits_of_run alder pars 1 [r] freqs start) as -> by congruence.
    assert (ind = test_ind_of_run alder pars 1 [r] freqs start) as -> by congruence.
    assert (fit' = fit) as -> by congruence.
    assert (has = test_and_print_oneref_curve alder fit) as -> by congruence.
    by exists freqs, fit.
Qed.

Lemma summary_loop_Ok_inv st t :
  (forall r, (r < num_ref_freqs data)%nat ->
     pretested alder pars data (fit_starts alder pars) r st) ->
  for_loop (summary_ref alder data (fit_starts alder pars) st) 0 (num_ref_freqs data) tt
    = (t, Ok tt) ->
  exists blocks,
    t = concat blocks /\ length blocks = num_ref_freqs data /\
    forall r, (r < num_ref_freqs data)%nat ->
      exists block, blocks !! r = Some block /\ summary_lines alder pars data r block.
Proof.
  intros Hp (blocks & ss & Hlen & _ & _ & _ & -> & Hround)%for_loop_Ok_inv.
  exists blocks. split_and!; [done..|]. intros r Hr.
  destruct (Hround r Hr) as ([] & [] & block & _ & _ & Hblock & Hbody).
  exists block. split; [done|]. apply summary_ref_Ok_inv with st; [done|by apply Hp].
Qed.

Lemma pretests_no_summary fs :
  Forall (fun e => is_summary e = false) (trace (pretests alder pars data fs)).
Proof.
  unfold pretests, pretest_ref, alder_run.
  repeat (trace_step; try done).
Qed.

Lemma pairs_no_summary fs st c :
  Forall (fun e => is_summary e = false)
         (trace (for_loop (pairs_outer alder pars data fs st c) 0 (num_ref_freqs data) tt)).
Proof.
  unfold pairs_outer, pairs_inner, pair_test, selected_fit, alder_run.
  repeat (trace_step; try done); rewrite trace_subtract_freqs; apply Forall_nil_2.
Qed.

Lemma multiple_refs_summary t :
  multiple_refs alder pars data (fit_starts alder pars) = (t, Ok tt) ->
  exists blocks,
    List.filter is_summary t = concat blocks /\ length blocks = num_ref_freqs data /\
    forall r, (r < num_ref_freqs data)%nat ->
      exists block, blocks !! r = Some block /\ summary_lines alder pars data r block.
Proof.
  unfold multiple_refs. intros H.
  apply bind_Ok_inv in H as (? & ? & ? & Hc & H & ->).
  destruct (get_num_chroms_used alder <? 2) eqn:E; [done|].
  apply ret_Ok_inv in Hc as [-> _].
  apply bind_Ok_inv in H as (? & ? & ? & ->%tell_Ok_inv & H & ->).
  apply bind_Ok_inv in H as (t_pre & st & ? & Hpre & H & ->).
  apply bind_Ok_inv in H as (? & ? & ? & ->%tell_Ok_inv & H & ->).
  apply bind_Ok_inv in H as (t_sum & [] & ? & Hsum & H & ->).
  apply bind_Ok_inv in H as (? & ? & ? & ->%tell_Ok_inv & H & ->).
  apply bind_Ok_inv in H as (? & ? & ? & ->%tell_Ok_inv & H & ->).
  apply bind_Ok_inv in H as (? & ? & t_pairs & ->%tell_Ok_inv & H & ->).
  pose proof (pretests_no_summary (fit_starts alder pars)) as Hq1. rewrite Hpre in Hq1.
  pose proof (pairs_no_summary (fit_starts alder pars) st
                (compute_mult_hyp_corr alder (replicate (num_ref_freqs data) true))) as Hq2.
  rewrite H in Hq2. cbn [trace fst] in Hq1, Hq2.
  apply pretests_Ok_inv in Hpre as [_ Hp].
  destruct (summary_loop_Ok_inv st t_sum Hp Hsum) as (blocks & -> & Hlen & Hblocks).
  exists blocks. split_and!; [|done..].
  rewrite !List.filter_app, (filter_none _ _ Hq1), (filter_none _ _ Hq2). simpl.
  rewrite app_nil_r. apply filter_all, Forall_concat, Forall_forall.
  intros block [r Hr]%list_elem_of_lookup.
  destruct (Hblocks r) as (block' & Hb & Hl).
  { rewrite <- Hlen. by eapply lookup_lt_Some. }
  assert (block' = block) as -> by congruence.
  by eapply summary_lines_summary.
Qed.

End Summary.

(** X10.  In a run with three or more reference populations that ends
    normally, the summary of the pre-tests has two lines for each
    reference, in the order of the references: the name of the reference
    with the verdict of its pre-test, and then either the note on
    long-range LD, when its start distance is infinite (the verdict is then
    NO), or the smaller of the z-scores of decay and amplitude of the fit
    that its own 1-ref pre-test selected. *)
Theorem pretest_summary (alder : Alder) (pars : AlderParams) (data : Data) :
  (2 < num_ref_freqs data)%nat -> outcome (main alder pars data) = Ok tt ->
  exists blocks,
    List.filter is_summary (trace (main alder pars data)) = concat blocks /\
    length blocks = num_ref_freqs data /\
    forall r, (r < num_ref_freqs data)%nat ->
      exists block, blocks !! r = Some block /\ summary_lines alder pars data r block.
Proof.
  intros Hn (Hm & t & w & n & inds & ta & Hd & Ha & ->)%main_Ok_inv.
  unfold analysis in Ha.
  destruct (num_ref_freqs data <=? 2)%nat eqn:E; [apply Nat.leb_le in E; lia|].
  apply multiple_refs_summary in Ha as (blocks & Hf & Hlen & Hblocks).
  exists blocks. split_and!; [|done..].
  rewrite List.filter_app, Hf, filter_none; [done|].
  eapply Forall_impl; [apply config_trace_no_test; by eapply determine_refs_many|].
  intros e He. by destruct e.
Qed.

Lemma pretest_summary_witness :
  exists blocks,
    List.filter is_summary (trace (main Toy.alder4 (Toy.pars None) Toy.four_refs))
      = concat blocks /\
    length blocks = num_ref_freqs Toy.four_refs /\
    forall r, (r < num_ref_freqs Toy.four_refs)%nat ->
      exists block, blocks !! r = Some block /\
                    summary_lines Toy.alder4 (Toy.pars None) Toy.four_refs r block.
Proof.
  apply (pretest_summary Toy.alder4 (Toy.pars None) Toy.four_refs).
  - vm_compute. lia.
  - vm_compute. reflexivity.
Defined.

(** ** External weights with reference genotypes *)

Section WeightsWithRefs.

Context (alder : Alder) (pars : AlderParams) (data : Data).

Lemma one_or_two_refs_no_inds w fs :
  Forall (fun e => is_verdict e = false /\
            forall n inds w' fsd, run_call e = Some (n, inds, w', fsd) ->
              n = 2 /\ inds = [] /\ w' = w)
         (trace (one_or_two_refs alder pars data w 2 [] fs)).
Proof.
  unfold one_or_two_refs, alder_run.
  repeat (trace_step; try done); split; try done.
  by intros ? ? ? ? [= <- <- <- _].
Qed.

End WeightsWithRefs.

(** X11.  With external weights and at most two reference populations
    with genotype data, the reference genotypes are not used, also when
    there are one or two of them: every call of [alder.run] is the 2-ref
    call without reference indices on the external weights, and neither
    [run_admixture_test] nor [test_and_print_oneref_curve] is called. *)
Theorem external_weights_ignore_refs (alder : Alder) (pars : AlderParams) (data : Data) :
  weightname pars <> None -> (num_ref_freqs data <= 2)%nat ->
  Forall (fun e => is_verdict e = false /\
            forall n inds w fsd, run_call e = Some (n, inds, w, fsd) ->
              n = 2 /\ inds = [] /\ w = process_weights data)
         (trace (main alder pars data)).
Proof.
  intros Hw Hn. apply Forall_trace_main.
  - intros e He. by destruct e.
  - intros t w n inds _ Hd.
    rewrite (determine_refs_weights alder pars data Hw) in Hd.
    injection Hd as <- <- <- <-.
    unfold analysis. destruct (num_ref_freqs data <=? 2)%nat eqn:E.
    + apply one_or_two_refs_no_inds.
    + apply Nat.leb_gt in E. lia.
Qed.

Lemma external_weights_ignore_refs_witness :
  Forall (fun e => is_verdict e = false /\
            forall n inds w fsd, run_call e = Some (n, inds, w, fsd) ->
              n = 2 /\ inds = [] /\ w = process_weights Toy.two_refs)
         (trace (main (Toy.toy 22 [0.5%float; 0.75%float] []) (Toy.pars (Some "w"))
                      Toy.two_refs)).
Proof.
  apply (external_weights_ignore_refs (Toy.toy 22 [0.5%float; 0.75%float] [])
           (Toy.pars (Some "w")) Toy.two_refs).
  - discriminate.
  - vm_compute. lia.
Defined.
